(** * Inline lesson editor: edit ledger, marker codec, slash commands

    A shallow embedding of the editing core of the lesson canvas:

    - [EditingContext.tsx]: the pending-edit ledger ([addTextEdit],
      [addEquationEdit], [addScrubbleNumberEdit], [addStructureEdit],
      [removeEdit], [clearAllEdits]), the save paths of the two modals
      and the messages from the parent window;
    - [ScrubbleNumberEditorModal.tsx]: the initial state, [validate]
      and [handleSave];
    - [SlashCommandMenu.tsx]: the command registry, its filter, the
      keyboard and the rows;
    - the section input: [extractContentWithMarkers], [handleInput],
      [handleKeyDown] and [handleSlashCommandSelect];
    - the inline number widget: the pending edit it reads and its edit
      button;
    - the editable text: the markup of the element in either state,
      and a session of click and blur;
    - the lesson view: [parseContentWithInlineComponents], the tree
      walks, [replaceSectionContent] with the keys that React's
      [Children.map] gives, and the handlers of the list of sections;
    - [SectionRenderer.tsx]: [getBlockId] and the delete button.

    JavaScript strings are sequences of UTF-16 code units.  A Rocq
    [string] stands for the JavaScript string whose code units are the
    characters' codes (the range 0..255).  JavaScript numbers are an
    abstract type with the comparisons and the serialisation the code
    uses, see [JsNumber]. *)

From Stdlib Require Import String Ascii ZArith List Lia Bool.
From Stdlib Require Import DecimalString.
From stdpp Require Import base tactics option list.

Import ListNotations.
Local Open Scope string_scope.
Local Open Scope list_scope.

(** [+:+] appends strings, [++] appends lists. *)
Infix "+:+" := String.append (at level 60, right associativity).

(** ** JavaScript values used by the code *)

Module Js.

(** Truthiness of a string: only the empty string is falsy. *)
Definition str_truthy (s : string) : bool :=
  match s with
  | EmptyString => false
  | String _ _ => true
  end.

(** Truthiness of an optional string: [undefined] and the empty string
    are falsy. *)
Definition opt_truthy (o : option string) : bool :=
  match o with
  | Some s => str_truthy s
  | None => false
  end.

(** [a === b] on two values that are strings or [undefined]. *)
Definition opt_eqb (a b : option string) : bool :=
  match a, b with
  | Some x, Some y => String.eqb x y
  | None, None => true
  | _, _ => false
  end.

(** [Array.prototype.findIndex]; [None] stands for [-1]. *)
Fixpoint findIndex {A} (p : A -> bool) (l : list A) : option nat :=
  match l with
  | [] => None
  | x :: l' => if p x then Some 0 else option_map S (findIndex p l')
  end.

(** A property of an object literal that is spread into another one:
    the property can be missing, or present with a value that may be
    [undefined]. *)
Inductive field (A : Type) : Type :=
| Absent
| Present (v : option A).
Arguments Absent {A}.
Arguments Present {A} v.

(** Reading [obj.prop]. *)
Definition read {A} (f : field A) : option A :=
  match f with
  | Absent => None
  | Present v => v
  end.

(** The property after [{...old, ...new}]. *)
Definition spread {A} (old : option A) (f : field A) : option A :=
  match f with
  | Absent => old
  | Present v => v
  end.

End Js.

(** Numbers.  The code compares numbers with [<], [<=], [>], [>=] and
    serialises them with [JSON.stringify]; nothing else is assumed of
    them, so that a statement proved for every instance holds for
    IEEE doubles too (where [a >= b] is not the negation of [a < b]). *)
Class JsNumber (num : Type) := {
  num_zero : num;
  num_lt : num -> num -> bool;
  num_le : num -> num -> bool;
  num_gt : num -> num -> bool;
  num_ge : num -> num -> bool;
  num_stringify : num -> string
}.

(** Integers, printed in decimal as JavaScript prints integral numbers
    of moderate size. *)
#[export] Instance Z_JsNumber : JsNumber Z := {|
  num_zero := 0%Z;
  num_lt := Z.ltb;
  num_le := Z.leb;
  num_gt := Z.gtb;
  num_ge := Z.geb;
  num_stringify := fun z => NilEmpty.string_of_int (Z.to_int z)
|}.

(** ** The pending-edit ledger ([EditingContext.tsx]) *)

Module TextEdit.
Record t := mk {
  id : string;
  sectionId : string;
  elementPath : string;
  originalText : string;
  originalHtml : option string;
  newText : string;
  newHtml : option string;
  timestamp : Z
}.
(** [Omit<TextEdit, 'id' | 'type' | 'timestamp'>] *)
Record arg := mkArg {
  a_sectionId : string;
  a_elementPath : string;
  a_originalText : string;
  a_originalHtml : option string;
  a_newText : string;
  a_newHtml : option string
}.
End TextEdit.

Inductive ComponentType := Equation | InteractiveEquation | ColoredEquation.

Module EquationEdit.
Record t := mk {
  id : string;
  sectionId : string;
  componentType : ComponentType;
  originalLatex : string;
  newLatex : string;
  colorMap : option (list (string * string));
  timestamp : Z
}.
Record arg := mkArg {
  a_sectionId : string;
  a_componentType : ComponentType;
  a_originalLatex : string;
  a_newLatex : string;
  a_colorMap : option (list (string * string))
}.
End EquationEdit.

(** [ScrubbleNumberProps] objects.  [JSON.stringify] walks the own
    properties of an object in insertion order, so an object is the
    ordered list of its properties; a property can hold [undefined]. *)
Inductive ScrubbleKey := varName | defaultValue | min | max | step.

Inductive PropValue (num : Type) :=
| VUndefined
| VString (s : string)
| VNumber (n : num).
Arguments VUndefined {num}.
Arguments VString {num} s.
Arguments VNumber {num} n.

Definition ScrubbleNumberProps (num : Type) := list (ScrubbleKey * PropValue num).

Module ScrubbleNumberEdit.
Record t (num : Type) := mk {
  id : string;
  sectionId : string;
  elementPath : string;
  originalProps : ScrubbleNumberProps num;
  newProps : ScrubbleNumberProps num;
  timestamp : Z
}.
Record arg (num : Type) := mkArg {
  a_sectionId : string;
  a_elementPath : string;
  a_originalProps : ScrubbleNumberProps num;
  a_newProps : ScrubbleNumberProps num
}.
Arguments mk {num}. Arguments mkArg {num}.
Arguments id {num}. Arguments sectionId {num}. Arguments elementPath {num}.
Arguments originalProps {num}. Arguments newProps {num}.
Arguments timestamp {num}.
Arguments a_sectionId {num}. Arguments a_elementPath {num}.
Arguments a_originalProps {num}. Arguments a_newProps {num}.
End ScrubbleNumberEdit.

Inductive Action := reorder | delete | add.

Definition Action_eqb (a b : Action) : bool :=
  match a, b with
  | reorder, reorder | delete, delete | add, add => true
  | _, _ => false
  end.

Module StructureEdit.
Record t := mk {
  id : string;
  action : Action;
  sectionId : option string;
  sectionIds : option (list string);
  content : option string;
  blockType : option string;
  timestamp : Z
}.
(** The object literal a caller passes: each optional property is
    left out or written, possibly with the value [undefined]. *)
Record arg := mkArg {
  a_action : Action;
  a_sectionId : Js.field string;
  a_sectionIds : Js.field (list string);
  a_content : Js.field string;
  a_blockType : Js.field string
}.
End StructureEdit.

Inductive PendingEdit (num : Type) :=
| Text (e : TextEdit.t)
| EquationE (e : EquationEdit.t)
| ScrubbleNumber (e : ScrubbleNumberEdit.t num)
| Structure (e : StructureEdit.t).
Arguments Text {num} e.
Arguments EquationE {num} e.
Arguments ScrubbleNumber {num} e.
Arguments Structure {num} e.

(** What one call reads from the outside world: the identifier that
    [generateId()] returns, [Date.now()] as read when the call builds
    its new edit, and [Date.now()] as read inside the state updater. *)
Record Stamp := { newId : string; callTime : Z; updateTime : Z }.

(** [JSON.stringify] on strings, numbers and [ScrubbleNumberProps]. *)
Module JSON.

Definition hex_digit (n : nat) : ascii :=
  match n with
  | 0 => "0" | 1 => "1" | 2 => "2" | 3 => "3" | 4 => "4" | 5 => "5"
  | 6 => "6" | 7 => "7" | 8 => "8" | 9 => "9" | 10 => "a" | 11 => "b"
  | 12 => "c" | 13 => "d" | 14 => "e" | _ => "f"
  end%char.

Definition dquote : string := String (ascii_of_nat 34) EmptyString.

(** One character inside a JSON string literal. *)
Definition escape_char (c : ascii) : string :=
  let n := nat_of_ascii c in
  if Nat.eqb n 34 then "\" +:+ dquote
  else if Nat.eqb n 92 then "\\"
  else if Nat.eqb n 8 then "\b"
  else if Nat.eqb n 9 then "\t"
  else if Nat.eqb n 10 then "\n"
  else if Nat.eqb n 12 then "\f"
  else if Nat.eqb n 13 then "\r"
  else if Nat.ltb n 32 then
    "\u00" +:+ String (hex_digit (n / 16)) (String (hex_digit (n mod 16)) EmptyString)
  else String c EmptyString.

Fixpoint escape (s : string) : string :=
  match s with
  | EmptyString => EmptyString
  | String c s' => escape_char c +:+ escape s'
  end.

Definition quote (s : string) : string := dquote +:+ escape s +:+ dquote.

Definition key_name (k : ScrubbleKey) : string :=
  match k with
  | varName => "varName"
  | defaultValue => "defaultValue"
  | min => "min"
  | max => "max"
  | step => "step"
  end.

Section Stringify.
Context {num : Type} `{JsNumber num}.

(** A property whose value is [undefined] is left out. *)
Definition member (kv : ScrubbleKey * PropValue num) : option string :=
  match snd kv with
  | VUndefined => None
  | VString s => Some (quote (key_name (fst kv)) +:+ ":" +:+ quote s)
  | VNumber n => Some (quote (key_name (fst kv)) +:+ ":" +:+ num_stringify n)
  end.

Definition stringify (o : ScrubbleNumberProps num) : string :=
  "{" +:+ String.concat "," (omap member o) +:+ "}".
End Stringify.

End JSON.

Section Ledger.
Context {num : Type} `{JsNumber num}.

Abbreviation Edits := (list (PendingEdit num)).

(** The [findIndex] callbacks. *)
Definition isStructureAdd (sid : option string) (e : PendingEdit num) : bool :=
  match e with
  | Structure s =>
      Action_eqb (StructureEdit.action s) add
      && Js.opt_eqb (StructureEdit.sectionId s) sid
  | _ => false
  end.

Definition isTextFor (sid path : string) (e : PendingEdit num) : bool :=
  match e with
  | Text t =>
      String.eqb (TextEdit.sectionId t) sid
      && String.eqb (TextEdit.elementPath t) path
  | _ => false
  end.

Definition isEquationFor (sid latex : string) (e : PendingEdit num) : bool :=
  match e with
  | EquationE q =>
      String.eqb (EquationEdit.sectionId q) sid
      && String.eqb (EquationEdit.originalLatex q) latex
  | _ => false
  end.

Definition isScrubbleFor (sid path : string) (e : PendingEdit num) : bool :=
  match e with
  | ScrubbleNumber n =>
      String.eqb (ScrubbleNumberEdit.sectionId n) sid
      && String.eqb (ScrubbleNumberEdit.elementPath n) path
  | _ => false
  end.

(** [{...existingStructure, content: edit.newText, timestamp: Date.now()}] *)
Definition absorbText (s : StructureEdit.t) (text : string) (now : Z)
  : StructureEdit.t :=
  StructureEdit.mk (StructureEdit.id s) (StructureEdit.action s)
    (StructureEdit.sectionId s) (StructureEdit.sectionIds s)
    (Some text) (StructureEdit.blockType s) now.

(** [{...existing, newText, newHtml, timestamp: Date.now()}] *)
Definition retext (t : TextEdit.t) (text : string) (html : option string)
    (now : Z) : TextEdit.t :=
  TextEdit.mk (TextEdit.id t) (TextEdit.sectionId t) (TextEdit.elementPath t)
    (TextEdit.originalText t) (TextEdit.originalHtml t) text html now.

Definition isReverted (edit : TextEdit.arg) (existing : TextEdit.t) : bool :=
  String.eqb (TextEdit.a_newText edit) (TextEdit.originalText existing)
  && (negb (Js.opt_truthy (TextEdit.a_newHtml edit))
      || negb (Js.opt_truthy (TextEdit.originalHtml existing))
      || Js.opt_eqb (TextEdit.a_newHtml edit) (TextEdit.originalHtml existing)).

Definition addTextEdit (w : Stamp) (edit : TextEdit.arg) (prev : Edits) : Edits :=
  let newEdit :=
    TextEdit.mk (newId w) (TextEdit.a_sectionId edit)
      (TextEdit.a_elementPath edit) (TextEdit.a_originalText edit)
      (TextEdit.a_originalHtml edit) (TextEdit.a_newText edit)
      (TextEdit.a_newHtml edit) (callTime w) in
  match Js.findIndex (isStructureAdd (Some (TextEdit.a_sectionId edit))) prev with
  | Some structureAddIndex =>
      match prev !! structureAddIndex with
      | Some (Structure existingStructure) =>
          <[structureAddIndex :=
              Structure (absorbText existingStructure
                           (TextEdit.a_newText edit) (updateTime w))]> prev
      | _ => prev
      end
  | None =>
      match Js.findIndex (isTextFor (TextEdit.a_sectionId edit)
                                    (TextEdit.a_elementPath edit)) prev with
      | Some existingIndex =>
          match prev !! existingIndex with
          | Some (Text existing) =>
              if isReverted edit existing
              then base.delete existingIndex prev
              else <[existingIndex :=
                       Text (retext existing (TextEdit.a_newText edit)
                               (TextEdit.a_newHtml edit) (updateTime w))]> prev
          | _ => prev
          end
      | None => prev ++ [Text newEdit]
      end
  end.

(** [{...existing, newLatex, colorMap, timestamp: Date.now()}] *)
Definition relatex (q : EquationEdit.t) (latex : string)
    (cm : option (list (string * string))) (now : Z) : EquationEdit.t :=
  EquationEdit.mk (EquationEdit.id q) (EquationEdit.sectionId q)
    (EquationEdit.componentType q) (EquationEdit.originalLatex q) latex cm now.

Definition addEquationEdit (w : Stamp) (edit : EquationEdit.arg) (prev : Edits)
  : Edits :=
  let newEdit :=
    EquationEdit.mk (newId w) (EquationEdit.a_sectionId edit)
      (EquationEdit.a_componentType edit) (EquationEdit.a_originalLatex edit)
      (EquationEdit.a_newLatex edit) (EquationEdit.a_colorMap edit)
      (callTime w) in
  match Js.findIndex (isEquationFor (EquationEdit.a_sectionId edit)
                                    (EquationEdit.a_originalLatex edit)) prev with
  | Some existingIndex =>
      match prev !! existingIndex with
      | Some (EquationE existing) =>
          if String.eqb (EquationEdit.a_newLatex edit)
                        (EquationEdit.originalLatex existing)
          then base.delete existingIndex prev
          else <[existingIndex :=
                   EquationE (relatex existing (EquationEdit.a_newLatex edit)
                                (EquationEdit.a_colorMap edit) (updateTime w))]> prev
      | _ => prev
      end
  | None => prev ++ [EquationE newEdit]
  end.

(** [{...existing, ...edit, timestamp: Date.now()}] *)
Definition mergeStructure (existing : StructureEdit.t) (edit : StructureEdit.arg)
    (now : Z) : StructureEdit.t :=
  StructureEdit.mk (StructureEdit.id existing) (StructureEdit.a_action edit)
    (Js.spread (StructureEdit.sectionId existing) (StructureEdit.a_sectionId edit))
    (Js.spread (StructureEdit.sectionIds existing) (StructureEdit.a_sectionIds edit))
    (Js.spread (StructureEdit.content existing) (StructureEdit.a_content edit))
    (Js.spread (StructureEdit.blockType existing) (StructureEdit.a_blockType edit))
    now.

(** [{...edit, id: generateId(), type: 'structure', timestamp: Date.now()}] *)
Definition newStructure (w : Stamp) (edit : StructureEdit.arg) : StructureEdit.t :=
  StructureEdit.mk (newId w) (StructureEdit.a_action edit)
    (Js.read (StructureEdit.a_sectionId edit))
    (Js.read (StructureEdit.a_sectionIds edit))
    (Js.read (StructureEdit.a_content edit))
    (Js.read (StructureEdit.a_blockType edit))
    (updateTime w).

Definition addStructureEdit (w : Stamp) (edit : StructureEdit.arg) (prev : Edits)
  : Edits :=
  let append := prev ++ [Structure (newStructure w edit)] in
  if Action_eqb (StructureEdit.a_action edit) add then
    match Js.findIndex
            (isStructureAdd (Js.read (StructureEdit.a_sectionId edit))) prev with
    | Some existingAddIndex =>
        match prev !! existingAddIndex with
        | Some (Structure existing) =>
            <[existingAddIndex :=
                Structure (mergeStructure existing edit (updateTime w))]> prev
        | _ => prev
        end
    | None => append
    end
  else append.

Definition edit_id (e : PendingEdit num) : string :=
  match e with
  | Text t => TextEdit.id t
  | EquationE q => EquationEdit.id q
  | ScrubbleNumber n => ScrubbleNumberEdit.id n
  | Structure s => StructureEdit.id s
  end.

Definition removeEdit (id : string) (prev : Edits) : Edits :=
  List.filter (fun e => negb (String.eqb (edit_id e) id)) prev.

Definition clearAllEdits (prev : Edits) : Edits := [].

(** [{...existing, newProps: edit.newProps, timestamp: Date.now()}] *)
Definition reprops (n : ScrubbleNumberEdit.t num) (p : ScrubbleNumberProps num)
    (now : Z) : ScrubbleNumberEdit.t num :=
  ScrubbleNumberEdit.mk (ScrubbleNumberEdit.id n)
    (ScrubbleNumberEdit.sectionId n) (ScrubbleNumberEdit.elementPath n)
    (ScrubbleNumberEdit.originalProps n) p now.

Definition addScrubbleNumberEdit (w : Stamp) (edit : ScrubbleNumberEdit.arg num)
    (prev : Edits) : Edits :=
  let newEdit :=
    ScrubbleNumberEdit.mk (newId w) (ScrubbleNumberEdit.a_sectionId edit)
      (ScrubbleNumberEdit.a_elementPath edit)
      (ScrubbleNumberEdit.a_originalProps edit)
      (ScrubbleNumberEdit.a_newProps edit) (callTime w) in
  match Js.findIndex (isScrubbleFor (ScrubbleNumberEdit.a_sectionId edit)
                                    (ScrubbleNumberEdit.a_elementPath edit)) prev with
  | Some existingIndex =>
      match prev !! existingIndex with
      | Some (ScrubbleNumber existing) =>
          let propsMatch :=
            String.eqb (JSON.stringify (ScrubbleNumberEdit.a_newProps edit))
                       (JSON.stringify (ScrubbleNumberEdit.originalProps existing)) in
          if propsMatch
          then base.delete existingIndex prev
          else <[existingIndex :=
                   ScrubbleNumber (reprops existing
                                     (ScrubbleNumberEdit.a_newProps edit)
                                     (updateTime w))]> prev
      | _ => prev
      end
  | None => prev ++ [ScrubbleNumber newEdit]
  end.

End Ledger.

(** ** The modal save path ([saveScrubbleNumberEdit], [handleSave]) *)

Section Modal.
Context {num : Type} `{JsNumber num}.

(** [editingScrubbleNumber]: [{...props, sectionId, elementPath}]. *)
Record Focus := {
  focusProps : ScrubbleNumberProps num;
  focusSectionId : string;
  focusElementPath : string
}.

(** The provider's state that the save path reads and writes. *)
Record Editing := {
  pendingEdits : list (PendingEdit num);
  editingScrubbleNumber : option Focus
}.

Definition openScrubbleNumberEditor (props : ScrubbleNumberProps num)
    (sectionId elementPath : string) (st : Editing) : Editing :=
  {| pendingEdits := pendingEdits st;
     editingScrubbleNumber := Some (Build_Focus props sectionId elementPath) |}.

(** The call of [addScrubbleNumberEdit] that [saveScrubbleNumberEdit]
    makes, if it makes one. *)
Definition saveScrubbleNumberEdit_call (newProps : ScrubbleNumberProps num)
    (st : Editing) : option (ScrubbleNumberEdit.arg num) :=
  match editingScrubbleNumber st with
  | None => None
  | Some f =>
      let originalProps := focusProps f in
      let propsChanged :=
        negb (String.eqb (JSON.stringify newProps) (JSON.stringify originalProps)) in
      if propsChanged
      then Some (ScrubbleNumberEdit.mkArg (focusSectionId f) (focusElementPath f)
                   originalProps newProps)
      else None
  end.

Definition saveScrubbleNumberEdit (w : Stamp) (newProps : ScrubbleNumberProps num)
    (st : Editing) : Editing :=
  match editingScrubbleNumber st with
  | None => st
  | Some _ =>
      {| pendingEdits :=
           match saveScrubbleNumberEdit_call newProps st with
           | Some edit => addScrubbleNumberEdit w edit (pendingEdits st)
           | None => pendingEdits st
           end;
         editingScrubbleNumber := None |}
  end.

(** The modal's own state ([useState] cells). *)
Record ModalState := {
  m_varName : string;
  m_defaultValue : num;
  m_min : num;
  m_max : num;
  m_step : num;
  m_error : option string
}.

Definition setError (e : option string) (m : ModalState) : ModalState :=
  {| m_varName := m_varName m; m_defaultValue := m_defaultValue m;
     m_min := m_min m; m_max := m_max m; m_step := m_step m; m_error := e |}.

Definition validate (m : ModalState) : ModalState * bool :=
  if num_ge (m_min m) (m_max m) then
    (setError (Some "Min must be less than max") m, false)
  else if num_le (m_step m) num_zero then
    (setError (Some "Step must be greater than 0") m, false)
  else if num_lt (m_defaultValue m) (m_min m)
          || num_gt (m_defaultValue m) (m_max m) then
    (setError (Some "Default value must be between min and max") m, false)
  else (setError None m, true).

(** [handleSave]: the modal state after it, and the argument of the
    call [saveScrubbleNumberEdit(...)] when that call is reached. *)
Definition handleSave (m : ModalState)
  : ModalState * option (ScrubbleNumberProps num) :=
  let '(m', ok) := validate m in
  if negb ok then (m', None)
  else (m', Some [ (varName, if Js.str_truthy (m_varName m)
                             then VString (m_varName m) else VUndefined);
                   (defaultValue, VNumber (m_defaultValue m));
                   (min, VNumber (m_min m));
                   (max, VNumber (m_max m));
                   (step, VNumber (m_step m)) ]).

(** One press of the save button: the modal runs [handleSave], whose
    call (if any) runs in the provider. *)
Definition saveAttempt (w : Stamp) (m : ModalState) (st : Editing)
  : ModalState * Editing :=
  let '(m', call) := handleSave m in
  (m', match call with
       | Some newProps => saveScrubbleNumberEdit w newProps st
       | None => st
       end).

(** The calls of [addScrubbleNumberEdit] made during one save attempt. *)
Definition saveAttempt_calls (m : ModalState) (st : Editing)
  : list (ScrubbleNumberEdit.arg num) :=
  match snd (handleSave m) with
  | Some newProps =>
      match saveScrubbleNumberEdit_call newProps st with
      | Some edit => [edit]
      | None => []
      end
  | None => []
  end.

End Modal.
Arguments Focus num : clear implicits.
Arguments Editing num : clear implicits.
Arguments ModalState num : clear implicits.

(** ** JavaScript string operations *)

Module Str.

(** [s.startsWith(p)] *)
Fixpoint startsWith (p s : string) : bool :=
  match p, s with
  | EmptyString, _ => true
  | String a p', String b s' => Ascii.eqb a b && startsWith p' s'
  | String _ _, EmptyString => false
  end.

(** [s.includes(q)] *)
Fixpoint includes (s q : string) : bool :=
  startsWith q s
  || match s with
     | EmptyString => false
     | String _ s' => includes s' q
     end.

(** [s.slice(n)] and [s.substring(n)] for [0 <= n]. *)
Fixpoint drop (n : nat) (s : string) : string :=
  match n, s with
  | O, _ => s
  | S n', String _ s' => drop n' s'
  | S _, EmptyString => EmptyString
  end.

Fixpoint take (n : nat) (s : string) : string :=
  match n, s with
  | S n', String c s' => String c (take n' s')
  | _, _ => EmptyString
  end.

(** The strings of a list, one after the other. *)
Fixpoint join (l : list string) : string :=
  match l with
  | [] => EmptyString
  | s :: l' => s +:+ join l'
  end.

(** [s.slice(a, b)] for [0 <= a] and [0 <= b]. *)
Definition slice (s : string) (a b : nat) : string := take (b - a) (drop a s).

(** [c.toLowerCase()] on one code unit below 256: the letters A-Z and
    the capital letters of the Latin-1 supplement (all of 192..222
    but the multiplication sign 215) move up by 32. *)
Definition lower_char (c : ascii) : ascii :=
  let n := nat_of_ascii c in
  if (Nat.leb 65 n && Nat.leb n 90)
     || (Nat.leb 192 n && Nat.leb n 222 && negb (Nat.eqb n 215))
  then ascii_of_nat (n + 32)
  else c.

Fixpoint toLowerCase (s : string) : string :=
  match s with
  | EmptyString => EmptyString
  | String c s' => String (lower_char c) (toLowerCase s')
  end.

(** White space and line terminators below 256, as [trim] sees them:
    tab, line feed, vertical tab, form feed, carriage return, space and
    the no-break space. *)
Definition isWhiteSpace (c : ascii) : bool :=
  let n := nat_of_ascii c in
  (Nat.leb 9 n && Nat.leb n 13) || Nat.eqb n 32 || Nat.eqb n 160.

Fixpoint trimStart (s : string) : string :=
  match s with
  | EmptyString => EmptyString
  | String c s' => if isWhiteSpace c then trimStart s' else s
  end.

Fixpoint trimEnd (s : string) : string :=
  match s with
  | EmptyString => EmptyString
  | String c s' =>
      match trimEnd s' with
      | EmptyString => if isWhiteSpace c then EmptyString else String c EmptyString
      | r => String c r
      end
  end.

Definition trim (s : string) : string := trimEnd (trimStart s).

(** [s.lastIndexOf(c)] for a one-character needle; [-1] when absent.
    [go i s] scans [s], whose first character has index [i]. *)
Fixpoint lastIndexOf_from (i : Z) (c : ascii) (s : string) : Z :=
  match s with
  | EmptyString => (-1)%Z
  | String b s' =>
      let later := lastIndexOf_from (i + 1) c s' in
      if (later =? -1)%Z then (if Ascii.eqb b c then i else (-1)%Z) else later
  end.

Definition lastIndexOf (s : string) (c : ascii) : Z := lastIndexOf_from 0 c s.

(** [s.substring(n)]: a negative start counts as 0. *)
Definition substring (s : string) (n : Z) : string := drop (Z.to_nat n) s.

End Str.

(** ** The slash-command registry and its filter ([SlashCommandMenu.tsx]) *)

Inductive SlashCommandType :=
| h1 | h2 | h3 | paragraph | quote | divider
| inlineScrubbleNumber | inlineDropdown | inlineTextInput.

Definition isInlineCommand (type : SlashCommandType) : bool :=
  match type with
  | inlineScrubbleNumber | inlineDropdown | inlineTextInput => true
  | _ => false
  end.

Inductive Category := block | inline.

Module SlashCommand.
(** The [icon] property is a rendered element and takes no part in
    filtering. *)
Record t := mk {
  id : SlashCommandType;
  label : string;
  description : string;
  keywords : list string;
  category : Category
}.
End SlashCommand.

Definition slashCommands : list SlashCommand.t := [
  SlashCommand.mk h1 "Heading 1" "Large section heading"
    ["h1"; "heading"; "title"; "large"] block;
  SlashCommand.mk h2 "Heading 2" "Medium section heading"
    ["h2"; "heading"; "subtitle"; "medium"] block;
  SlashCommand.mk h3 "Heading 3" "Small section heading"
    ["h3"; "heading"; "small"] block;
  SlashCommand.mk paragraph "Paragraph" "Plain text paragraph"
    ["p"; "paragraph"; "text"; "plain"] block;
  SlashCommand.mk quote "Quote" "Capture a quote"
    ["quote"; "blockquote"; "citation"] block;
  SlashCommand.mk divider "Divider" "Visual separator"
    ["divider"; "separator"; "hr"; "line"] block;
  SlashCommand.mk inlineScrubbleNumber "Scrubble Number"
    "Interactive number with drag/click controls"
    ["number"; "scrubble"; "stepper"; "slider"; "inline"; "variable"] inline;
  SlashCommand.mk inlineDropdown "Dropdown" "Inline dropdown selector"
    ["dropdown"; "select"; "choice"; "inline"; "options"] inline;
  SlashCommand.mk inlineTextInput "Text Input" "Inline text input field"
    ["input"; "text"; "inline"; "field"; "type"] inline
].

(** The callback of [slashCommands.filter]. *)
Definition commandMatches (searchQuery : string) (cmd : SlashCommand.t) : bool :=
  let query := Str.toLowerCase searchQuery in
  Str.includes (Str.toLowerCase (SlashCommand.label cmd)) query
  || Str.includes (Str.toLowerCase (SlashCommand.description cmd)) query
  || existsb (fun kw => Str.includes kw query) (SlashCommand.keywords cmd).

Definition filteredCommands (searchQuery : string) : list SlashCommand.t :=
  List.filter (commandMatches searchQuery) slashCommands.

(** ** The section input: [handleInput] *)

(** The content-editable paragraph behind [contentRef]: its text and
    its [data-placeholder] attribute. *)
Record Paragraph := {
  innerText : string;
  dataPlaceholder : string
}.

(** One mounted [SectionInput]: the [placeholder] prop, the element
    behind [contentRef] (if any), the three state cells and
    [slashPositionRef]. *)
Record SectionInput := {
  placeholder : string;
  contentRef : option Paragraph;
  showSlashMenu : bool;
  slashQuery : string;
  selectedBlockType : option SlashCommandType;
  slashPosition : Z
}.

Definition isNewline (c : ascii) : bool :=
  let n := nat_of_ascii c in Nat.eqb n 10 || Nat.eqb n 13.

(** [text.replace(/[\n\r]+$/, "")]: the longest run of line feeds and
    carriage returns that ends the text is removed. *)
Fixpoint stripTrailingNewlines (text : string) : string :=
  match text with
  | EmptyString => EmptyString
  | String c text' =>
      match stripTrailingNewlines text' with
      | EmptyString => if isNewline c then EmptyString else String c EmptyString
      | r => String c r
      end
  end.

(** [setShowSlashMenu(false); setSlashQuery(""); slashPositionRef.current = -1] *)
Definition closeMenu (s : SectionInput) : SectionInput :=
  {| placeholder := placeholder s; contentRef := contentRef s;
     showSlashMenu := false; slashQuery := EmptyString;
     selectedBlockType := selectedBlockType s; slashPosition := (-1)%Z |}.

Definition space : ascii := ascii_of_nat 32.
Definition slash : ascii := ascii_of_nat 47.

Definition handleInput (s : SectionInput) : SectionInput :=
  let text :=
    match contentRef s with
    | Some el => innerText el
    | None => EmptyString
    end in
  let text := stripTrailingNewlines text in
  if negb (Js.str_truthy text) then
    match selectedBlockType s with
    | Some _ =>
        {| placeholder := placeholder s;
           contentRef :=
             match contentRef s with
             | Some el => Some {| innerText := innerText el;
                                  dataPlaceholder := placeholder s |}
             | None => None
             end;
           showSlashMenu := false; slashQuery := EmptyString;
           selectedBlockType := None; slashPosition := (-1)%Z |}
    | None => closeMenu s
    end
  else
    let lastSlashIndex := Str.lastIndexOf text slash in
    if negb (lastSlashIndex =? -1)%Z then
      let queryAfterSlash := Str.substring text (lastSlashIndex + 1) in
      if negb (Str.includes queryAfterSlash (String space EmptyString)) then
        {| placeholder := placeholder s; contentRef := contentRef s;
           showSlashMenu := true; slashQuery := queryAfterSlash;
           selectedBlockType := selectedBlockType s;
           slashPosition := lastSlashIndex |}
      else closeMenu s
    else closeMenu s.

(** ** The marker codec *)

(** *** Encoding: [extractContentWithMarkers] *)

(** A DOM node as the walk sees it: a text node, an element with its
    [data-inline-component] and [data-component-id] attributes ([None]
    when [getAttribute] returns [null]) and its child nodes, or a node
    of another type (a comment, say). *)
#[warnings="-register-all"]
Inductive Node :=
| TextNode (textContent : string)
| ElementNode (dataInlineComponent dataComponentId : option string)
    (childNodes : list Node)
| OtherNode.

Definition marker (componentType componentId : string) : string :=
  "{{" +:+ componentType +:+ ":" +:+ componentId +:+ "}}".

(** What [processNode(node)] appends to [result]; the children of a
    regular element append their parts one after the other. *)
Fixpoint processNode (node : Node) : string :=
  match node with
  | TextNode textContent => textContent
  | ElementNode componentType componentId childNodes =>
      match componentType, componentId with
      | Some ct, Some cid =>
          if Js.str_truthy ct && Js.str_truthy cid
          then marker ct cid
          else Str.join (List.map processNode childNodes)
      | _, _ => Str.join (List.map processNode childNodes)
      end
  | OtherNode => EmptyString
  end.

Definition extractContentWithMarkers (element : Node) : string :=
  match element with
  | ElementNode _ _ childNodes =>
      Str.trim (Str.join (List.map processNode childNodes))
  | _ => EmptyString
  end.

(** *** Decoding: [parseContentWithInlineComponents] *)

(** The names in the alternation of [markerRegex], in its order. *)
Definition inlineKinds : list string :=
  ["inlineScrubbleNumber"; "inlineDropdown"; "inlineTextInput"].

(** The rest of [s] after the literal [p], when [s] starts with it. *)
Fixpoint stripPrefix (p s : string) : option string :=
  match p, s with
  | EmptyString, _ => Some s
  | String a p', String b s' => if Ascii.eqb a b then stripPrefix p' s' else None
  | String _ _, EmptyString => None
  end.

Definition rbrace : ascii := ascii_of_nat 125.

(** The longest prefix without a closing brace, and what follows it. *)
Fixpoint spanNotBrace (s : string) : string * string :=
  match s with
  | EmptyString => (EmptyString, EmptyString)
  | String c s' =>
      if Ascii.eqb c rbrace then (EmptyString, s)
      else let '(i, r) := spanNotBrace s' in (String c i, r)
  end.

(** [([^}]+)\}\}] at the start of [s]: the identifier and the rest.
    The greedy [[^}]+] takes the longest run; a shorter run is followed
    by a character other than a closing brace, so backtracking into it
    cannot match. *)
Definition matchId (s : string) : option (string * string) :=
  let '(uniqueId, r) := spanNotBrace s in
  if Js.str_truthy uniqueId
  then option_map (pair uniqueId) (stripPrefix "}}" r)
  else None.

(** [(k1|k2|k3):([^}]+)\}\}] at the start of [s], the alternatives
    tried in order, each with the whole rest of the pattern. *)
Fixpoint matchKind (kinds : list string) (s : string)
  : option (string * string * string) :=
  match kinds with
  | [] => None
  | k :: kinds' =>
      match stripPrefix (k +:+ ":") s with
      | Some r =>
          match matchId r with
          | Some (uniqueId, r') => Some (k, uniqueId, r')
          | None => matchKind kinds' s
          end
      | None => matchKind kinds' s
      end
  end.

(** [markerRegex] at the start of [s]: the two groups and the rest. *)
Definition matchMarker (s : string) : option (string * string * string) :=
  match stripPrefix "{{" s with
  | Some r => matchKind inlineKinds r
  | None => None
  end.

(** The result of a successful [markerRegex.exec(content)]. *)
Record Match := {
  index : nat;
  whole : string;
  componentType : string;
  uniqueId : string
}.

(** The leftmost match in [s], the text from index [i] on. *)
Fixpoint search (s : string) (i : nat) : option Match :=
  match matchMarker s with
  | Some (k, uid, _) =>
      Some {| index := i; whole := marker k uid;
              componentType := k; uniqueId := uid |}
  | None =>
      match s with
      | EmptyString => None
      | String _ s' => search s' (S i)
      end
  end.

(** [markerRegex.exec(content)] with the regex's [lastIndex] at
    [lastIndex]. *)
Definition exec (content : string) (lastIndex : nat) : option Match :=
  if Nat.leb lastIndex (String.length content)
  then search (Str.drop lastIndex content) lastIndex
  else None.

(** The nodes the parser builds. *)
Inductive Part :=
| Literal (s : string)
| InlineScrubbleNumberEl (key varName : string) (defaultValue min max : Z)
| InlineDropdownEl (key correctAnswer : string) (options : list string)
| InlineTextInputEl (key correctAnswer placeholder : string).

(** The [switch (componentType)]. *)
Definition component (m : Match) : Part :=
  if String.eqb (componentType m) "inlineScrubbleNumber" then
    InlineScrubbleNumberEl (uniqueId m) ("var_" +:+ uniqueId m) 10 0 100
  else if String.eqb (componentType m) "inlineDropdown" then
    InlineDropdownEl (uniqueId m) "Option 1" ["Option 1"; "Option 2"; "Option 3"]
  else if String.eqb (componentType m) "inlineTextInput" then
    InlineTextInputEl (uniqueId m) "answer" "Type answer..."
  else Literal (whole m).

(** The [while] loop: [(lastIndex, parts)] when it ends.  Every turn
    moves [lastIndex] forward, so [fuel] turns are enough once [fuel]
    exceeds the length of the content. *)
Fixpoint parseLoop (fuel : nat) (content : string) (lastIndex : nat)
    (parts : list Part) : nat * list Part :=
  match fuel with
  | O => (lastIndex, parts)
  | S fuel' =>
      match exec content lastIndex with
      | None => (lastIndex, parts)
      | Some m =>
          let parts :=
            if Nat.ltb lastIndex (index m)
            then parts ++ [Literal (Str.slice content lastIndex (index m))]
            else parts in
          let parts := parts ++ [component m] in
          parseLoop fuel' content (index m + String.length (whole m)) parts
      end
  end.

Definition parseContentWithInlineComponents (content : string) : list Part :=
  let '(lastIndex, parts) :=
    parseLoop (S (String.length content)) content 0 [] in
  let parts :=
    if Nat.ltb lastIndex (String.length content)
    then parts ++ [Literal (Str.drop lastIndex content)]
    else parts in
  match parts with
  | [] => [Literal content]
  | _ => parts
  end.

(** * Further code of the same files *)

(** ** The equation modal ([openEquationEditor], [saveEquationEdit]) *)

(** [editingEquation]: [{ latex, colorMap, sectionId, elementPath }]. *)
Record EquationFocus := {
  eqLatex : string;
  eqColorMap : option (list (string * string));
  eqSectionId : string;
  eqElementPath : string
}.

(** [JSON.stringify] on a colour map, a [Record<string, string>] given
    by its properties in enumeration order. *)
Definition stringifyColorMap (m : list (string * string)) : string :=
  "{" +:+ String.concat ","
            (List.map (fun kv => JSON.quote (fst kv) +:+ ":" +:+ JSON.quote (snd kv)) m)
      +:+ "}".

Section EquationModal.
Context {num : Type}.

(** The provider's state that the equation modal reads and writes. *)
Record EquationEditing := {
  eqPendingEdits : list (PendingEdit num);
  editingEquation : option EquationFocus
}.

Definition openEquationEditor (latex : string)
    (colorMap : option (list (string * string))) (sectionId elementPath : string)
    (st : EquationEditing) : EquationEditing :=
  {| eqPendingEdits := eqPendingEdits st;
     editingEquation :=
       Some {| eqLatex := latex; eqColorMap := colorMap;
               eqSectionId := sectionId; eqElementPath := elementPath |} |}.

Definition closeEquationEditor (st : EquationEditing) : EquationEditing :=
  {| eqPendingEdits := eqPendingEdits st; editingEquation := None |}.

(** [newColorMap && JSON.stringify(newColorMap) !==
    JSON.stringify(editingEquation.colorMap)]: an object is truthy, and
    [JSON.stringify(undefined)] is [undefined], which no string equals. *)
Definition colorMapChanged (newColorMap old : option (list (string * string)))
  : bool :=
  match newColorMap with
  | None => false
  | Some m =>
      negb (Js.opt_eqb (Some (stringifyColorMap m))
                       (option_map stringifyColorMap old))
  end.

Definition saveEquationEdit (w : Stamp) (newLatex : string)
    (newColorMap : option (list (string * string))) (st : EquationEditing)
  : EquationEditing :=
  match editingEquation st with
  | None => st
  | Some f =>
      let latexChanged := negb (String.eqb newLatex (eqLatex f)) in
      {| eqPendingEdits :=
           if latexChanged || colorMapChanged newColorMap (eqColorMap f)
           then addEquationEdit w
                  (EquationEdit.mkArg (eqSectionId f) Equation (eqLatex f) newLatex
                     (match newColorMap with
                      | Some m => Some m
                      | None => eqColorMap f
                      end))
                  (eqPendingEdits st)
           else eqPendingEdits st;
         editingEquation := None |}
  end.

End EquationModal.
Arguments EquationEditing num : clear implicits.

(** ** The scrubble-number modal, continued *)

Section ScrubbleModal.
Context {num : Type} `{JsNumber num}.

Definition closeScrubbleNumberEditor (st : Editing num) : Editing num :=
  {| pendingEdits := pendingEdits st; editingScrubbleNumber := None |}.

(** *** The widget's view of the ledger ([InlineScrubbleNumber]) *)

(** The [pendingEdit] memo: the most recent scrubbleNumber edit for the
    widget's identity, [null] without an identity or when the widget is
    neither in editing mode nor editable. *)
Definition pendingEdit (isEditing canEdit : bool)
    (editIdentity : option (string * string)) (edits : list (PendingEdit num))
  : option (PendingEdit num) :=
  match editIdentity with
  | None => None
  | Some (sectionId, elementPath) =>
      if negb isEditing && negb canEdit then None
      else List.find (isScrubbleFor sectionId elementPath) (List.rev edits)
  end.

End ScrubbleModal.

(** ** The slash-command menu: keyboard and rows ([SlashCommandMenu.tsx]) *)

(** [e.key], as far as the handlers tell keys apart. *)
Inductive Key := ArrowDown | ArrowUp | Enter | Escape | Backspace | OtherKey.

Definition SlashCommandType_eqb (a b : SlashCommandType) : bool :=
  match a, b with
  | h1, h1 | h2, h2 | h3, h3 | paragraph, paragraph | quote, quote
  | divider, divider | inlineScrubbleNumber, inlineScrubbleNumber
  | inlineDropdown, inlineDropdown | inlineTextInput, inlineTextInput => true
  | _, _ => false
  end.

Definition Category_eqb (a b : Category) : bool :=
  match a, b with
  | block, block | inline, inline => true
  | _, _ => false
  end.

(** The props [isOpen] and [searchQuery] and the state cell
    [selectedIndex] of one mounted menu. *)
Record Menu := {
  isOpen : bool;
  searchQuery : string;
  selectedIndex : Z
}.

(** The calls the menu makes on its props. *)
Inductive MenuCall :=
| OnSelect (command : SlashCommandType)
| OnClose.

(** [a[i]] for an integral [i]: [undefined] out of range. *)
Definition element_at {A} (a : list A) (i : Z) : option A :=
  if (i <? 0)%Z then None else a !! Z.to_nat i.

Definition setSelectedIndex (i : Z) (m : Menu) : Menu :=
  {| isOpen := isOpen m; searchQuery := searchQuery m; selectedIndex := i |}.

(** The window's [keydown] listener, registered while the menu is open:
    the state after the key and the calls made. *)
Definition menuKeyDown (key : Key) (m : Menu) : Menu * list MenuCall :=
  if negb (isOpen m) then (m, [])
  else
    let filtered := filteredCommands (searchQuery m) in
    let prev := selectedIndex m in
    match key with
    | ArrowDown =>
        (setSelectedIndex
           (if (prev <? Z.of_nat (length filtered) - 1)%Z then (prev + 1)%Z else prev)
           m, [])
    | ArrowUp =>
        (setSelectedIndex (if (prev >? 0)%Z then (prev - 1)%Z else 0%Z) m, [])
    | Enter =>
        (m, match element_at filtered (selectedIndex m) with
            | Some cmd => [OnSelect (SlashCommand.id cmd)]
            | None => []
            end)
    | Escape => (m, [OnClose])
    | _ => (m, [])
    end.

(** The menu when it mounts, and a later render with the parent's
    props: the effect on [searchQuery] sets the selection to 0 on
    mount and whenever the query is another one. *)
Definition menuMount (open : bool) (query : string) : Menu :=
  {| isOpen := open; searchQuery := query; selectedIndex := 0%Z |}.

Definition menuRender (open : bool) (query : string) (m : Menu) : Menu :=
  {| isOpen := open; searchQuery := query;
     selectedIndex :=
       if String.eqb query (searchQuery m) then selectedIndex m else 0%Z |}.

(** What happens to a mounted menu. *)
Inductive MenuEvent :=
| KeyDown (key : Key)
| Render (open : bool) (query : string).

Definition menuStep (m : Menu) (e : MenuEvent) : Menu :=
  match e with
  | KeyDown key => fst (menuKeyDown key m)
  | Render open query => menuRender open query m
  end.

Definition menuRun (events : list MenuEvent) (m : Menu) : Menu :=
  List.fold_left menuStep events m.

(** The buttons of one section in the order they are rendered, each
    with its [data-index] ([None] for [-1]). *)
Definition sectionRows (cat : Category) (filtered : list SlashCommand.t)
  : list (SlashCommand.t * option nat) :=
  List.map
    (fun cmd =>
       (cmd, Js.findIndex
               (fun c => SlashCommandType_eqb (SlashCommand.id c) (SlashCommand.id cmd))
               filtered))
    (List.filter (fun cmd => Category_eqb (SlashCommand.category cmd) cat) filtered).

(** All buttons of the rendered menu, top to bottom. *)
Definition menuRows (m : Menu) : list (SlashCommand.t * option nat) :=
  if negb (isOpen m) then []
  else
    let filtered := filteredCommands (searchQuery m) in
    sectionRows block filtered ++ sectionRows inline filtered.

(** [globalIndex === selectedIndex] *)
Definition highlighted (m : Menu) (row : SlashCommand.t * option nat) : bool :=
  match snd row with
  | Some globalIndex => (Z.of_nat globalIndex =? selectedIndex m)%Z
  | None => (-1 =? selectedIndex m)%Z
  end.

(** ** The section input: keys and the menu's choice ([SectionInput]) *)

Module KeyboardEvent.
Record t := mk {
  key : Key;
  shiftKey : bool
}.
End KeyboardEvent.

Definition Key_eqb (a b : Key) : bool :=
  match a, b with
  | ArrowDown, ArrowDown | ArrowUp, ArrowUp | Enter, Enter | Escape, Escape
  | Backspace, Backspace | OtherKey, OtherKey => true
  | _, _ => false
  end.

(** A call [onCommit(id, value, blockType)]; the first argument is the
    component's [id] prop. *)
Record Commit := {
  commitValue : string;
  commitBlockType : option SlashCommandType
}.

(** What a handler of the section input leaves behind: the component's
    state, the calls of [onCommit], and whether [preventDefault] was
    called on the event. *)
Record Outcome := {
  after : SectionInput;
  commits : list Commit;
  defaultPrevented : bool
}.

(** [setSelectedBlockType(null)], and the placeholder put back on the
    element when it is mounted. *)
Definition resetBlockType (s : SectionInput) : SectionInput :=
  {| placeholder := placeholder s;
     contentRef :=
       match contentRef s with
       | Some el => Some {| innerText := innerText el;
                            dataPlaceholder := placeholder s |}
       | None => None
       end;
     showSlashMenu := showSlashMenu s; slashQuery := slashQuery s;
     selectedBlockType := None; slashPosition := slashPosition s |}.

(** The Backspace branch of [handleKeyDown]. *)
Definition onBackspace (s : SectionInput) : SectionInput :=
  let text :=
    match contentRef s with
    | Some el => innerText el
    | None => EmptyString
    end in
  let text := stripTrailingNewlines text in
  if String.eqb text "/" || negb (Js.str_truthy text) then
    let s := closeMenu s in
    if negb (Js.str_truthy text) then
      match selectedBlockType s with
      | Some _ => resetBlockType s
      | None => s
      end
    else s
  else s.

(** [handleKeyDown(e)]; [dom] is the element behind [contentRef] as the
    marker walk sees it. *)
Definition handleKeyDown (e : KeyboardEvent.t) (dom : Node) (s : SectionInput)
  : Outcome :=
  let key := KeyboardEvent.key e in
  if showSlashMenu s
     && (Key_eqb key ArrowDown || Key_eqb key ArrowUp || Key_eqb key Escape)
  then {| after := s; commits := []; defaultPrevented := true |}
  else
    let enter := Key_eqb key Enter && negb (KeyboardEvent.shiftKey e) in
    if enter && showSlashMenu s
    then {| after := s; commits := []; defaultPrevented := true |}
    else
      let committed :=
        if enter then
          match contentRef s with
          | Some _ =>
              let content := extractContentWithMarkers dom in
              if Js.str_truthy (Str.trim content)
              then [{| commitValue := content;
                       commitBlockType := selectedBlockType s |}]
              else []
          | None => []
          end
        else [] in
      let s := if Key_eqb key Escape then closeMenu s else s in
      let s := if Key_eqb key Backspace then onBackspace s else s in
      {| after := s; commits := committed; defaultPrevented := enter |}.

(** The [placeholders] table of [handleSlashCommandSelect]; it has no
    entry for an inline command. *)
Definition blockPlaceholder (commandType : SlashCommandType) : option string :=
  match commandType with
  | h1 => Some "Heading 1"
  | h2 => Some "Heading 2"
  | h3 => Some "Heading 3"
  | paragraph => Some "Start writing..."
  | quote => Some "Enter your quote..."
  | divider => Some EmptyString
  | _ => None
  end.

(** [handleSlashCommandSelect(commandType)].  The inline branch rewrites
    the element through [innerHTML] and [document.execCommand]; what the
    browser leaves is passed in as [inserted], given the text before the
    slash. *)
Definition handleSlashCommandSelect (commandType : SlashCommandType)
    (inserted : string -> Paragraph) (s : SectionInput)
  : SectionInput * list Commit :=
  match contentRef s with
  | None =>
      ({| placeholder := placeholder s; contentRef := None;
          showSlashMenu := false; slashQuery := EmptyString;
          selectedBlockType := selectedBlockType s;
          slashPosition := slashPosition s |}, [])
  | Some el =>
      let currentText := innerText el in
      let lastSlashIndex := Str.lastIndexOf currentText slash in
      let textBeforeSlash :=
        if (lastSlashIndex >? 0)%Z
        then Str.take (Z.to_nat lastSlashIndex) currentText
        else EmptyString in
      if isInlineCommand commandType then
        ({| placeholder := placeholder s;
            contentRef := Some (inserted textBeforeSlash);
            showSlashMenu := false; slashQuery := EmptyString;
            selectedBlockType := selectedBlockType s;
            slashPosition := (-1)%Z |}, [])
      else
        let isDivider := SlashCommandType_eqb commandType divider in
        ({| placeholder := placeholder s;
            contentRef :=
              Some {| innerText := textBeforeSlash;
                      dataPlaceholder :=
                        if isDivider then dataPlaceholder el
                        else match blockPlaceholder commandType with
                             | Some p => p
                             | None => dataPlaceholder el
                             end |};
            showSlashMenu := false; slashQuery := EmptyString;
            selectedBlockType := Some commandType;
            slashPosition := (-1)%Z |},
         if isDivider
         then [{| commitValue := "---"; commitBlockType := Some divider |}]
         else [])
  end.

Definition handleCloseSlashMenu (s : SectionInput) : SectionInput :=
  {| placeholder := placeholder s; contentRef := contentRef s;
     showSlashMenu := false; slashQuery := EmptyString;
     selectedBlockType := selectedBlockType s;
     slashPosition := slashPosition s |}.

(** The string a command type is at run time. *)
Definition typeName (commandType : SlashCommandType) : string :=
  match commandType with
  | h1 => "h1"
  | h2 => "h2"
  | h3 => "h3"
  | paragraph => "paragraph"
  | quote => "quote"
  | divider => "divider"
  | inlineScrubbleNumber => "inlineScrubbleNumber"
  | inlineDropdown => "inlineDropdown"
  | inlineTextInput => "inlineTextInput"
  end.

(** [`${n}`] for a natural number, as [Date.now()] is: its decimal
    digits. *)
Definition decimal (n : N) : string := NilEmpty.string_of_uint (N.to_uint n).

(** The placeholder element of the inline branch as the marker walk
    sees it: [data-inline-component] is the command type and
    [data-component-id] is [`${commandType}-${Date.now()}`]. *)
Definition placeholderSpan (commandType : SlashCommandType) (now : N)
    (childNodes : list Node) : Node :=
  ElementNode (Some (typeName commandType))
    (Some (typeName commandType +:+ "-" +:+ decimal now)) childNodes.

(** ** The lesson view: content with markers ([LessonView]) *)

(** [hasInlineComponents(content)]: [test] with the pattern of
    [markerRegex] and no [g] flag, so the search starts at index 0. *)
Definition hasInlineComponents (content : string) : bool :=
  match search content 0 with
  | Some _ => true
  | None => false
  end.

(** [parsedContent] of [handleCommitSection], as the children it is
    rendered as: the parts, or the one string. *)
Definition parsedContent (content : string) : list Part :=
  if hasInlineComponents content
  then parseContentWithInlineComponents content
  else [Literal content].

(** ** React elements and the list of sections ([LessonView], [SectionRenderer]) *)

(** A React node as the tree walks read it: an element with its [key],
    its [id] and [data-block-id] props and its children, a string, or
    an empty node ([null], [undefined], a boolean).  The type of an
    element and its other props are not read; a lone child is the
    one-element list, and the children are one array, with no arrays
    inside it. *)
#[warnings="-register-all"]
Inductive RNode :=
| RElement (key id dataBlockId : option string) (children : list RNode)
| RText (s : string)
| REmpty.

Definition isValidElement (node : RNode) : bool :=
  match node with
  | RElement _ _ _ _ => true
  | _ => false
  end.

(** [element.key]; a node that is not an element has none. *)
Definition nodeKey (node : RNode) : option string :=
  match node with
  | RElement key _ _ _ => key
  | _ => None
  end.

Definition isEmptyNode (node : RNode) : bool :=
  match node with
  | REmpty => true
  | _ => false
  end.

(** [hasElementId]: the [Children.forEach] carries the flag [found]. *)
Fixpoint hasElementId (element : RNode) (targetId : string) : bool :=
  match element with
  | RElement _ id _ children =>
      if Js.opt_eqb id (Some targetId) then true
      else
        List.fold_left
          (fun found child =>
             if negb found && hasElementId child targetId then true else found)
          children false
  | _ => false
  end.

(** The truth value of [props.children]: no child is [undefined], a
    lone string counts as the string does, an array is an object. *)
Definition childrenTruthy (children : list RNode) : bool :=
  match children with
  | [] => false
  | [RText s] => Js.str_truthy s
  | [REmpty] => false
  | _ => true
  end.

(** [escape(key)] of React's children utilities: [=] and [:] are
    written [=0] and [=2], after a [$]. *)
Fixpoint escapeChars (key : string) : string :=
  match key with
  | EmptyString => EmptyString
  | String c rest =>
      if Ascii.eqb c "=" then "=0" +:+ escapeChars rest
      else if Ascii.eqb c ":" then "=2" +:+ escapeChars rest
      else String c (escapeChars rest)
  end.

Definition escape (key : string) : string := "$" +:+ escapeChars key.

(** [escapeUserProvidedKey(text)]: one more slash after every run of
    slashes. *)
Fixpoint escapeUserProvidedKey (text : string) : string :=
  match text with
  | EmptyString => EmptyString
  | String c rest =>
      if Ascii.eqb c "/" then
        match rest with
        | String c' _ =>
            if Ascii.eqb c' "/" then String c (escapeUserProvidedKey rest)
            else String c (String "/" (escapeUserProvidedKey rest))
        | EmptyString => String c (String "/" EmptyString)
        end
      else String c (escapeUserProvidedKey rest)
  end.

(** A digit of [Number.prototype.toString(36)]: [0] to [9], then [a]
    to [z]. *)
Definition digit36 (d : nat) : ascii :=
  if Nat.ltb d 10 then Ascii.ascii_of_nat (48 + d) else Ascii.ascii_of_nat (87 + d).

(** The digits of [n] in base 36 put before [acc]; [n] gets smaller
    with every digit, so [S n] turns are enough. *)
Fixpoint toString36_loop (fuel n : nat) (acc : string) : string :=
  match fuel with
  | O => acc
  | S fuel' =>
      let acc := String (digit36 (Nat.modulo n 36)) acc in
      if Nat.ltb n 36 then acc else toString36_loop fuel' (Nat.div n 36) acc
  end.

(** [index.toString(36)]. *)
Definition toString36 (index : nat) : string :=
  toString36_loop (S index) index EmptyString.

(** [getElementKey(element, index)]: the element's own key, escaped,
    or else its index in base 36. *)
Definition getElementKey (element : RNode) (index : nat) : string :=
  match element with
  | RElement (Some key) _ _ _ => escape key
  | _ => toString36 index
  end.

Definition cloneAndReplaceKey (element : RNode) (newKey : string) : RNode :=
  match element with
  | RElement _ id dataBlockId children => RElement (Some newKey) id dataBlockId children
  | _ => element
  end.

Section ChildrenMap.
Variable fn : RNode -> RNode.

(** What [Children.map] puts into its result for the child at [index]:
    nothing when [fn] returns an empty node, what [fn] returns when that
    is a string, and otherwise the element that [fn] returns under a new
    key: a dot and the child's own key, escaped, or else its index;
    when the key of the element returned is not the child's, that key
    and a slash come first. *)
Definition mapChild (index : nat) (child : RNode) : list RNode :=
  let mappedChild := fn child in
  let childKey := "." +:+ getElementKey child index in
  match mappedChild with
  | REmpty => []
  | RText _ => [mappedChild]
  | RElement mappedKey _ _ _ =>
      let differs :=
        match child with
        | RElement childKey' _ _ _ => negb (Js.opt_eqb childKey' mappedKey)
        | _ => true
        end in
      let own :=
        match mappedKey with
        | Some k =>
            if Js.str_truthy k && differs
            then escapeUserProvidedKey k +:+ "/"
            else EmptyString
        | None => EmptyString
        end in
      [cloneAndReplaceKey mappedChild (own +:+ childKey)]
  end.

(** The loop of [mapIntoArray] over an array of children. *)
Fixpoint mapIntoArray (index : nat) (children : list RNode) : list RNode :=
  match children with
  | [] => []
  | child :: rest => mapChild index child ++ mapIntoArray (S index) rest
  end.

End ChildrenMap.

(** [Children.map(children, fn)]: [fn] is called on every child, in
    order; the results that are empty nodes are left out and the
    elements are given new keys. *)
Definition Children_map (fn : RNode -> RNode) (children : list RNode) : list RNode :=
  mapIntoArray fn 0 children.

(** [replaceSectionContent]; [cloneElement(element, {}, c)] keeps the
    props and the key and puts [c] in place of the children. *)
Fixpoint replaceSectionContent (element : RNode) (targetId : string)
    (newContent : RNode) : RNode :=
  match element with
  | RElement key id dataBlockId children =>
      if Js.opt_eqb id (Some targetId) then RElement key id dataBlockId [newContent]
      else if childrenTruthy children then
        RElement key id dataBlockId
          (Children_map
             (fun child => replaceSectionContent child targetId newContent)
             children)
      else element
  | _ => element
  end.

(** [getSectionIdFromElement]: the [Children.forEach] carries
    [foundId]; without children it is not run, and [foundId] stays
    [undefined] as it does over no child. *)
Fixpoint getSectionIdFromElement (element : RNode) : option string :=
  match element with
  | RElement _ id _ children =>
      if Js.opt_truthy id then id
      else
        List.fold_left
          (fun foundId child =>
             if negb (Js.opt_truthy foundId) && isValidElement child
             then getSectionIdFromElement child
             else foundId)
          children None
  | _ => None
  end.

(** [getBlockId] of the section renderer. *)
Fixpoint getBlockId (element : RNode) : option string :=
  match element with
  | RElement _ id dataBlockId children =>
      if Js.opt_truthy id then id
      else if Js.opt_truthy dataBlockId then dataBlockId
      else
        match children with
        | [RElement _ _ _ _ as child] => getBlockId child
        | _ =>
            (fix each (rest : list RNode) : option string :=
               match rest with
               | [] => None
               | child :: rest' =>
                   match child with
                   | RElement _ _ _ _ =>
                       let id := getBlockId child in
                       if Js.opt_truthy id then id else each rest'
                   | _ => each rest'
                   end
               end) children
        end
  | _ => None
  end.

(** An element of [initialSections]: a top-level element, read as the
    root of a tree by the walks and for its [key] by [handleReorder]. *)
Definition SectionEl : Type := RNode.

Definition sectionRoot (section : SectionEl) : RNode := section.

Definition sectionKey (section : SectionEl) : option string := nodeKey section.

(** A part of the parsed content as a child node: the widgets take
    their id as [key], and no [id] prop and no children. *)
Definition partNode (p : Part) : RNode :=
  match p with
  | Literal s => RText s
  | InlineScrubbleNumberEl key _ _ _ _ => RElement (Some key) None None []
  | InlineDropdownEl key _ _ => RElement (Some key) None None []
  | InlineTextInputEl key _ _ => RElement (Some key) None None []
  end.

(** [contentElement] of [handleCommitSection]: the [switch] on the
    block type.  The editable wrappers take [sectionId], not [id]. *)
Definition contentElement (content : string) (blockType : option SlashCommandType)
  : RNode :=
  let parsed := List.map partNode (parsedContent content) in
  match blockType with
  | Some quote => RElement None None None [RElement None None None parsed]
  | Some divider => RElement None None None []
  | _ => RElement None None None parsed
  end.

Section Lesson.
Context {num : Type}.

(** The lesson view's list of sections, and the ledger of the editing
    context when there is one ([useOptionalEditing]). *)
Record Lesson := {
  initialSections : list SectionEl;
  editing : option (list (PendingEdit num))
}.

(** [editing.addStructureEdit(edit)] under [if (editing)]. *)
Definition recordStructure (w : Stamp) (edit : StructureEdit.arg)
    (editing : option (list (PendingEdit num))) : option (list (PendingEdit num)) :=
  match editing with
  | Some ledger => Some (addStructureEdit w edit ledger)
  | None => None
  end.

Definition handleCommitSection (w : Stamp) (sectionId content : string)
    (blockType : option SlashCommandType) (lesson : Lesson) : Lesson :=
  {| initialSections :=
       List.map
         (fun section =>
            replaceSectionContent section sectionId
              (contentElement content blockType))
         (initialSections lesson);
     editing :=
       recordStructure w
         (StructureEdit.mkArg add (Js.Present (Some sectionId)) Js.Absent
            (Js.Present (Some content))
            (Js.Present (option_map typeName blockType)))
         (editing lesson) |}.

(** The block that [handleAddSection] makes: a layout with the key
    [layout-<newId>] around a Block with the id [newId] around a
    section input with the same id. *)
Definition newBlock (newId : string) : SectionEl :=
  RElement (Some ("layout-" +:+ newId)) None None
    [RElement None (Some newId) None [RElement None (Some newId) None []]].

(** [handleAddSection(targetId)]; [now] is the clock when the id of the
    new block is made, [w] belongs to the ledger's call. *)
Definition handleAddSection (w : Stamp) (now : N) (targetId : string)
    (lesson : Lesson) : Lesson :=
  match Js.findIndex (fun section => hasElementId (sectionRoot section) targetId)
          (initialSections lesson) with
  | Some index =>
      let newId := "block-" +:+ decimal now in
      {| initialSections :=
           List.firstn (index + 1) (initialSections lesson)
           ++ [newBlock newId]
           ++ List.skipn (index + 1) (initialSections lesson);
         editing :=
           recordStructure w
             (StructureEdit.mkArg add (Js.Present (Some newId)) Js.Absent
                (Js.Present (Some EmptyString)) (Js.Present (Some "placeholder")))
             (editing lesson) |}
  | None => lesson
  end.

Definition handleDeleteSection (w : Stamp) (sectionId : string) (lesson : Lesson)
  : Lesson :=
  {| initialSections :=
       List.filter (fun section => negb (hasElementId (sectionRoot section) sectionId))
         (initialSections lesson);
     editing :=
       recordStructure w
         (StructureEdit.mkArg delete (Js.Present (Some sectionId)) Js.Absent
            Js.Absent Js.Absent)
         (editing lesson) |}.

(** The id that [handleReorder] records for a section: the key without
    its [layout-] prefix (the first occurrence, which opens the key),
    or else the id found inside, or else [unknown]. *)
Definition reorderId (s : SectionEl) : string :=
  let inner :=
    match getSectionIdFromElement (sectionRoot s) with
    | Some id => if Js.str_truthy id then id else "unknown"
    | None => "unknown"
    end in
  match sectionKey s with
  | Some key =>
      if Js.str_truthy key && Str.startsWith "layout-" key
      then Str.drop 7 key
      else inner
  | None => inner
  end.

Definition handleReorder (w : Stamp) (newSections : list SectionEl)
    (lesson : Lesson) : Lesson :=
  {| initialSections := newSections;
     editing :=
       recordStructure w
         (StructureEdit.mkArg reorder Js.Absent
            (Js.Present (Some (List.map reorderId newSections)))
            Js.Absent Js.Absent)
         (editing lesson) |}.

(** [handleDelete] of a draggable block, wired to
    [handleDeleteSection]. *)
Definition handleDelete (w : Stamp) (block : SectionEl) (lesson : Lesson) : Lesson :=
  match getBlockId (sectionRoot block) with
  | Some blockId =>
      if Js.str_truthy blockId then handleDeleteSection w blockId lesson else lesson
  | None => lesson
  end.

End Lesson.
Arguments Lesson num : clear implicits.

(** ** The provider and the parent window ([EditingProvider]) *)

Section Provider.
Context {num : Type}.

(** [event.data] of a message from the parent, as [handleMessage]
    tells messages apart. *)
Inductive ParentMessage :=
| NoData
| SetEditingMode (enabled : bool)
| ClearEdits
| RequestEdits
| OtherType.

(** The messages the provider posts to the parent. *)
Inductive Posted :=
| EditingModeChanged (isEditing : bool)
| EditsChanged (edits : list (PendingEdit num)) (count : nat)
| EditsResponse (edits : list (PendingEdit num)) (count : nat).

(** The app mode ([isEditor]), whether the window is the top window,
    and the two state cells read here. *)
Record Provider := {
  isEditor : bool;
  isStandalone : bool;
  isEditing : bool;
  providerEdits : list (PendingEdit num)
}.

Definition setIsEditing (b : bool) (p : Provider) : Provider :=
  {| isEditor := isEditor p; isStandalone := isStandalone p;
     isEditing := b; providerEdits := providerEdits p |}.

Definition enableEditing (p : Provider) : Provider * list Posted :=
  if isEditor p || isStandalone p
  then (setIsEditing true p, [EditingModeChanged true])
  else (p, []).

Definition disableEditing (p : Provider) : Provider * list Posted :=
  (setIsEditing false p, [EditingModeChanged false]).

(** The effect on [pendingEdits], run after the ledger was set. *)
Definition editsChanged (edits : list (PendingEdit num)) : Posted :=
  EditsChanged edits (length edits).

(** [handleMessage(event)], with the effect that a ledger set by it
    sets off. *)
Definition handleMessage (msg : ParentMessage) (p : Provider)
  : Provider * list Posted :=
  match msg with
  | NoData => (p, [])
  | SetEditingMode enabled =>
      if enabled then enableEditing p else disableEditing p
  | ClearEdits =>
      let edits := clearAllEdits (providerEdits p) in
      ({| isEditor := isEditor p; isStandalone := isStandalone p;
          isEditing := isEditing p; providerEdits := edits |},
       [editsChanged edits])
  | RequestEdits =>
      (p, [EditsResponse (providerEdits p) (length (providerEdits p))])
  | OtherType => (p, [])
  end.

(** Messages handled one after the other: the state at the end and all
    that was posted. *)
Fixpoint handleMessages (msgs : list ParentMessage) (p : Provider)
  : Provider * list Posted :=
  match msgs with
  | [] => (p, [])
  | msg :: msgs' =>
      let '(p1, posted1) := handleMessage msg p in
      let '(p2, posted2) := handleMessages msgs' p1 in
      (p2, posted1 ++ posted2)
  end.

End Provider.
Arguments ParentMessage : clear implicits.
Arguments Posted num : clear implicits.
Arguments Provider num : clear implicits.

(** ** The editable text ([EditableText]) *)

Module EditableText.

(** The props that reach the element: the tag (the prop [as]), the
    [id], and the class string that [cn] returns, the last two as they
    are written in markup. *)
Record Props := {
  Component : string;
  id : option string;
  className : string
}.

(** What the element behind [containerRef] holds: its text, and the
    markup of its content. *)
Record Content := {
  innerText : string;
  innerHTML : string
}.

(** The double quote. *)
Definition quot : string := String (Ascii.ascii_of_nat 34) EmptyString.

(** An attribute in the markup of an element. *)
Definition attribute (name value : string) : string :=
  " " +:+ name +:+ "=" +:+ quot +:+ value +:+ quot.

(** [outerHTML] of the element in editor mode, as the component renders
    it when the state cell holds [isContentEditable]: the attributes in
    the order of the props, [contenteditable] as [true] or [false], and
    [data-editing] only while editing. *)
Definition outerHTML (p : Props) (isContentEditable : bool) (el : Content) : string :=
  "<" +:+ Component p
  +:+ match id p with
      | Some i => attribute "id" i
      | None => EmptyString
      end
  +:+ attribute "class" (className p)
  +:+ attribute "contenteditable" (if isContentEditable then "true" else "false")
  +:+ attribute "data-editable" "true"
  +:+ (if isContentEditable then attribute "data-editing" "true" else EmptyString)
  +:+ ">" +:+ innerHTML el +:+ "</" +:+ Component p +:+ ">".

(** The state cell [isContentEditable] and the two refs. *)
Record t := {
  isContentEditable : bool;
  originalTextRef : string;
  originalHtmlRef : string
}.

Definition initial : t :=
  {| isContentEditable := false; originalTextRef := EmptyString;
     originalHtmlRef := EmptyString |}.

(** [handleClick]; the element reads as it was rendered in the state
    the handler finds. *)
Definition handleClick (isEditor : bool) (p : Props) (container : option Content)
    (s : t) : t :=
  if negb isEditor then s
  else
    match container with
    | Some el =>
        if negb (isContentEditable s)
        then {| isContentEditable := true; originalTextRef := innerText el;
                originalHtmlRef := outerHTML p (isContentEditable s) el |}
        else s
    | None => s
    end.

(** [handleBlur]: the state after it, and the argument of [addTextEdit]
    when the call is made; [elementPath] is what [getElementPath()]
    returns then. *)
Definition handleBlur (p : Props) (sectionId elementPath : string)
    (container : option Content) (s : t) : t * option TextEdit.arg :=
  match container with
  | None => (s, None)
  | Some el =>
      let newText := innerText el in
      let newHtml := outerHTML p (isContentEditable s) el in
      let originalText := originalTextRef s in
      let originalHtml := originalHtmlRef s in
      ({| isContentEditable := false; originalTextRef := originalTextRef s;
          originalHtmlRef := originalHtmlRef s |},
       if negb (String.eqb newText originalText)
          || negb (String.eqb newHtml originalHtml)
       then Some (TextEdit.mkArg sectionId elementPath originalText
                    (Some originalHtml) newText (Some newHtml))
       else None)
  end.

End EditableText.

Section EditSession.
Context {num : Type}.

(** One editing session of an editable text in editor mode: a click on
    the element when it holds [before], then a blur when it holds
    [after]; the call of [addTextEdit], if made, runs on the ledger. *)
Definition editSession (w : Stamp) (p : EditableText.Props)
    (sectionId elementPath : string) (before after : EditableText.Content)
    (state : EditableText.t * list (PendingEdit num))
  : EditableText.t * list (PendingEdit num) :=
  let '(s, ledger) := state in
  let s := EditableText.handleClick true p (Some before) s in
  let '(s, call) :=
    EditableText.handleBlur p sectionId elementPath (Some after) s in
  (s, match call with
      | Some edit => addTextEdit w edit ledger
      | None => ledger
      end).

End EditSession.

(** * Specification vocabulary *)

(** ** The ledger's dedup invariant *)

Section LedgerSpec.
Context {num : Type} `{JsNumber num}.

(** The target key of an edit, per kind. *)
Definition textKey (e : PendingEdit num) : option (string * string) :=
  match e with
  | Text t => Some (TextEdit.sectionId t, TextEdit.elementPath t)
  | _ => None
  end.

Definition equationKey (e : PendingEdit num) : option (string * string) :=
  match e with
  | EquationE q => Some (EquationEdit.sectionId q, EquationEdit.originalLatex q)
  | _ => None
  end.

Definition scrubbleKey (e : PendingEdit num) : option (string * string) :=
  match e with
  | ScrubbleNumber n =>
      Some (ScrubbleNumberEdit.sectionId n, ScrubbleNumberEdit.elementPath n)
  | _ => None
  end.

Definition structureAddKey (e : PendingEdit num) : option (option string) :=
  match e with
  | Structure s =>
      match StructureEdit.action s with
      | add => Some (StructureEdit.sectionId s)
      | _ => None
      end
  | _ => None
  end.

(** No two entries of the ledger have the same key. *)
Definition atMostOne {K} (key : PendingEdit num -> option K)
    (l : list (PendingEdit num)) : Prop :=
  forall i j e1 e2 k,
    l !! i = Some e1 -> l !! j = Some e2 ->
    key e1 = Some k -> key e2 = Some k -> i = j.

Definition dedup (l : list (PendingEdit num)) : Prop :=
  atMostOne textKey l /\ atMostOne equationKey l
  /\ atMostOne scrubbleKey l /\ atMostOne structureAddKey l.

(** The ledger-mutating operations, as data. *)
Inductive Op :=
| AddTextEdit (w : Stamp) (edit : TextEdit.arg)
| AddEquationEdit (w : Stamp) (edit : EquationEdit.arg)
| AddScrubbleNumberEdit (w : Stamp) (edit : ScrubbleNumberEdit.arg num)
| AddStructureEdit (w : Stamp) (edit : StructureEdit.arg)
| RemoveEdit (id : string)
| ClearAllEdits.

Definition apply (o : Op) (l : list (PendingEdit num)) : list (PendingEdit num) :=
  match o with
  | AddTextEdit w edit => addTextEdit w edit l
  | AddEquationEdit w edit => addEquationEdit w edit l
  | AddScrubbleNumberEdit w edit => addScrubbleNumberEdit w edit l
  | AddStructureEdit w edit => addStructureEdit w edit l
  | RemoveEdit id => removeEdit id l
  | ClearAllEdits => clearAllEdits l
  end.

(** The ledger after a sequence of operations, from the empty one. *)
Definition run (ops : list Op) : list (PendingEdit num) :=
  fold_left (fun l o => apply o l) ops [].

(** The revert condition of [addTextEdit] as the specification words
    it: the new text is the captured original and, when both HTML
    snapshots are supplied, they are equal. *)
Definition revertsAsSpecified (edit : TextEdit.arg) (existing : TextEdit.t) : Prop :=
  TextEdit.a_newText edit = TextEdit.originalText existing
  /\ forall h h', TextEdit.a_newHtml edit = Some h ->
                  TextEdit.originalHtml existing = Some h' -> h = h'.

(** The same with "supplied" read as the code reads it: supplied and
    not the empty string. *)
Definition reverts (edit : TextEdit.arg) (existing : TextEdit.t) : Prop :=
  TextEdit.a_newText edit = TextEdit.originalText existing
  /\ forall h h', TextEdit.a_newHtml edit = Some h ->
                  TextEdit.originalHtml existing = Some h' ->
                  h <> EmptyString -> h' <> EmptyString -> h = h'.

(** Reading [props.k]. *)
Definition ScrubbleKey_eqb (a b : ScrubbleKey) : bool :=
  match a, b with
  | varName, varName | defaultValue, defaultValue | min, min
  | max, max | step, step => true
  | _, _ => false
  end.

Fixpoint getProp (k : ScrubbleKey) (p : ScrubbleNumberProps num) : PropValue num :=
  match p with
  | [] => VUndefined
  | (k', v) :: p' => if ScrubbleKey_eqb k' k then v else getProp k p'
  end.

(** Deep equality of two props objects: the five properties read the
    same, whatever the order they were written in. *)
Definition deepEqual (p q : ScrubbleNumberProps num) : Prop :=
  forall k, getProp k p = getProp k q.

(** The Text edits of a ledger, in order. *)
Definition textEdits (l : list (PendingEdit num)) : list TextEdit.t :=
  omap (fun e => match e with Text t => Some t | _ => None end) l.

End LedgerSpec.
Arguments Op num : clear implicits.

(** ** The modal's validation *)

Section ModalSpec.
Context {num : Type} `{JsNumber num}.

(** One of the three checks fails: min >= max, step <= 0, or the
    default value lies outside of [min, max]. *)
Definition invalid (m : ModalState num) : Prop :=
  num_ge (m_min m) (m_max m) = true
  \/ num_le (m_step m) num_zero = true
  \/ (num_lt (m_defaultValue m) (m_min m) = true
      \/ num_gt (m_defaultValue m) (m_max m) = true).

End ModalSpec.

(** ** Substrings and positions *)

(** [q] occurs in [s]. *)
Definition isSubstring (q s : string) : Prop :=
  exists a b, s = a +:+ q +:+ b.

(** [p] is the index of the last occurrence of the character [c]. *)
Definition lastAt (c : ascii) (s : string) (p : nat) : Prop :=
  String.get p s = Some c /\ forall j, p < j -> String.get j s <> Some c.

(** The character [c] does not occur in [s]. *)
Definition lacks (c : ascii) (s : string) : Prop :=
  forall j, String.get j s <> Some c.

(** Every character of [s] is a line feed or a carriage return. *)
Definition allNewlines (s : string) : Prop :=
  forall j c, String.get j s = Some c -> isNewline c = true.

Definition endsWithNewline (s : string) : Prop :=
  exists s' c, s = s' +:+ String c EmptyString /\ isNewline c = true.

(** What the specification says of a command and a query: the
    lower-cased query occurs in the lower-cased label, description or
    one of the keywords. *)
Definition matchesQuery (query : string) (cmd : SlashCommand.t) : Prop :=
  let q := Str.toLowerCase query in
  isSubstring q (Str.toLowerCase (SlashCommand.label cmd))
  \/ isSubstring q (Str.toLowerCase (SlashCommand.description cmd))
  \/ exists kw, kw ∈ SlashCommand.keywords cmd
                /\ isSubstring q (Str.toLowerCase kw).

(** ** Marker tokens *)

(** The text a part stands for: a literal segment stands for itself, a
    widget of kind K with key I for the token of K and I. *)
Definition partText (p : Part) : string :=
  match p with
  | Literal s => s
  | InlineScrubbleNumberEl key _ _ _ _ => marker "inlineScrubbleNumber" key
  | InlineDropdownEl key _ _ => marker "inlineDropdown" key
  | InlineTextInputEl key _ _ => marker "inlineTextInput" key
  end.

(** Kind and instance id of a widget part. *)
Definition partWidget (p : Part) : option (string * string) :=
  match p with
  | Literal _ => None
  | InlineScrubbleNumberEl key _ _ _ _ => Some ("inlineScrubbleNumber", key)
  | InlineDropdownEl key _ _ => Some ("inlineDropdown", key)
  | InlineTextInputEl key _ _ => Some ("inlineTextInput", key)
  end.

(** A well-formed token: a registered kind, and an identifier that is
    not empty and holds no closing brace. *)
Definition wellFormedToken (t : string) : Prop :=
  exists k i, k ∈ inlineKinds /\ i <> EmptyString /\ lacks rbrace i
              /\ t = marker k i.

Definition containsToken (s : string) : Prop :=
  exists t, wellFormedToken t /\ isSubstring t s.

(** The opening of a token of a registered kind does not occur in [s]. *)
Definition noOpener (s : string) : Prop :=
  forall k, k ∈ inlineKinds -> ~ isSubstring ("{{" +:+ k +:+ ":") s.

(** No well-formed token begins within [pre] when [next] follows it:
    wherever a well-formed token occurs in [pre +:+ next], it begins at
    the end of [pre] or later. *)
Definition noTokenBegins (pre next : string) : Prop :=
  forall a t r, wellFormedToken t -> pre +:+ next = a +:+ t +:+ r ->
                String.length pre <= String.length a.

(** [holdsMarker K I nodes pre post]: among [nodes] and their
    descendants there is a widget element of kind [K] and id [I],
    reached through regular elements only; [pre] is the text the walk
    collects before it and [post] the text it collects after it. *)
Inductive holdsMarker (K I : string) : list Node -> string -> string -> Prop :=
| marker_here (before kids after : list Node) :
    holdsMarker K I
      (before ++ ElementNode (Some K) (Some I) kids :: after)
      (Str.join (List.map processNode before))
      (Str.join (List.map processNode after))
| marker_inside (before : list Node) (ct cid : option string)
    (children after : list Node) (pre post : string) :
    Js.opt_truthy ct && Js.opt_truthy cid = false ->
    holdsMarker K I children pre post ->
    holdsMarker K I
      (before ++ ElementNode ct cid children :: after)
      (Str.join (List.map processNode before) +:+ pre)
      (post +:+ Str.join (List.map processNode after)).

(** A literal segment, left out when empty. *)
Definition lit (s : string) : list Part :=
  match s with
  | EmptyString => []
  | _ => [Literal s]
  end.

(** ** Identifiers of ledger entries *)

Section LedgerIds.
Context {num : Type} `{JsNumber num}.

(** No two entries of the ledger have the same [id]. *)
Definition uniqueIds (l : list (PendingEdit num)) : Prop :=
  atMostOne (fun e => Some (edit_id e)) l.

(** The identifier that [generateId()] returns for the operation is
    not the [id] of an entry of the ledger. *)
Definition freshFor (o : Op num) (l : list (PendingEdit num)) : Prop :=
  match o with
  | AddTextEdit w _ | AddEquationEdit w _
  | AddScrubbleNumberEdit w _ | AddStructureEdit w _ =>
      forall e, e ∈ l -> edit_id e <> newId w
  | RemoveEdit _ | ClearAllEdits => True
  end.

(** The identifiers that [generateId()] returns over a sequence of
    operations, one for each add operation. *)
Definition stampIds (ops : list (Op num)) : list string :=
  omap (fun o => match o with
                 | AddTextEdit w _ | AddEquationEdit w _
                 | AddScrubbleNumberEdit w _ | AddStructureEdit w _ => Some (newId w)
                 | RemoveEdit _ | ClearAllEdits => None
                 end) ops.

End LedgerIds.

(** ** Decoded parts *)

(** A literal segment that is not empty, or a widget of a registered
    kind whose key is not empty and holds no closing brace. *)
Definition goodPart (p : Part) : Prop :=
  match p with
  | Literal s => s <> EmptyString
  | _ => exists k i, partWidget p = Some (k, i) /\ k ∈ inlineKinds
                     /\ i <> EmptyString /\ lacks rbrace i
  end.

(** The widget the parser builds for kind [k] and id [i]. *)
Definition widget (k i : string) : Part :=
  component {| index := 0; whole := marker k i; componentType := k; uniqueId := i |}.

(** Content written as texts and markers in turn: each segment is the
    text before a marker, then the marker's kind and id; [tail] is the
    text after the last marker. *)
Fixpoint spell (segments : list (string * string * string)) (tail : string)
  : string :=
  match segments with
  | [] => tail
  | (a, k, i) :: rest => a +:+ marker k i +:+ spell rest tail
  end.

Fixpoint spelledParts (segments : list (string * string * string)) : list Part :=
  match segments with
  | [] => []
  | (a, k, i) :: rest => lit a ++ [widget k i] ++ spelledParts rest
  end.

(** The text before a marker opens no token, the kind is registered,
    the id is not empty and holds no closing brace. *)
Definition segmentOk (seg : string * string * string) : Prop :=
  let '(a, k, i) := seg in
  noOpener a /\ k ∈ inlineKinds /\ i <> EmptyString /\ lacks rbrace i.

(** The child nodes of an element that holds these texts and widgets
    in turn: a text node, then the widget's element (with whatever
    children), and the tail as the last text node. *)
Fixpoint segmentNodes (segments : list (string * string * string))
    (kids : list Node) (tail : string) : list Node :=
  match segments with
  | [] => [TextNode tail]
  | (a, k, i) :: rest =>
      TextNode a :: ElementNode (Some k) (Some i) kids :: segmentNodes rest kids tail
  end.

(** The segments with the white space at the start of the first text
    removed. *)
Definition trimFirst (segments : list (string * string * string))
  : list (string * string * string) :=
  match segments with
  | [] => []
  | (a, k, i) :: rest => (Str.trimStart a, k, i) :: rest
  end.

(** ** Ids in a tree of elements *)

(** The [id] props of the elements of a tree, in document order. *)
Fixpoint elementIds (node : RNode) : list (option string) :=
  match node with
  | RElement _ id _ children => id :: List.flat_map elementIds children
  | _ => []
  end.

(** The [id] and then the [data-block-id] prop of every element, in
    document order. *)
Fixpoint blockIdCandidates (node : RNode) : list (option string) :=
  match node with
  | RElement _ id dataBlockId children =>
      id :: dataBlockId :: List.flat_map blockIdCandidates children
  | _ => []
  end.

(** The first value of the list that is a non-empty string. *)
Definition firstTruthy (values : list (option string)) : option string :=
  match List.find Js.opt_truthy values with
  | Some v => v
  | None => None
  end.

(** No element of the tree has a [data-block-id] that is a non-empty
    string. *)
Fixpoint noDataBlockId (node : RNode) : bool :=
  match node with
  | RElement _ _ dataBlockId children =>
      negb (Js.opt_truthy dataBlockId) && forallb noDataBlockId children
  | _ => true
  end.

(** The tree has no empty node. *)
Fixpoint noEmptyNode (node : RNode) : bool :=
  match node with
  | RElement _ _ _ children => forallb noEmptyNode children
  | RText _ => true
  | REmpty => false
  end.

(** The node without the keys of its elements. *)
Fixpoint eraseKeys (node : RNode) : RNode :=
  match node with
  | RElement _ id dataBlockId children =>
      RElement None id dataBlockId (List.map eraseKeys children)
  | _ => node
  end.

(** [b] is [a] but for the keys of the elements inside it: the same
    key, and the same tree once the keys are left out. *)
Definition sameButInnerKeys (a b : RNode) : Prop :=
  nodeKey b = nodeKey a /\ eraseKeys b = eraseKeys a.

(** ** The menu's selection *)

(** The selection is an index of the filtered list, or 0 when that
    list is empty. *)
Definition selectionInRange (m : Menu) : Prop :=
  (0 <= selectedIndex m)%Z
  /\ ((selectedIndex m < Z.of_nat (length (filteredCommands (searchQuery m))))%Z
      \/ selectedIndex m = 0%Z).

(** * From the widget's edit button to the modal *)

(** The number literals [1], [10] and [100] of the modal's initial
    state (zero is [num_zero]). *)
Class JsLiterals (num : Type) := {
  num_one : num;
  num_ten : num;
  num_hundred : num
}.

#[export] Instance Z_JsLiterals : JsLiterals Z := {|
  num_one := 1%Z;
  num_ten := 10%Z;
  num_hundred := 100%Z
|}.

Section EditClick.
Context {num : Type} `{JsNumber num} `{JsLiterals num}.

(** The destructured props of [InlineScrubbleNumber] that the edit
    button reads: [varName] as passed, the numbers after their default
    values have been applied. *)
Record WidgetProps := {
  own_varName : option string;
  own_defaultValue : num;
  own_min : num;
  own_max : num;
  own_step : num
}.

(** [a ?? b] *)
Definition nullish (a b : PropValue num) : PropValue num :=
  match a with
  | VUndefined => b
  | _ => a
  end.

(** [pendingEdit?.newProps.k ?? own]; the memo holds a scrubbleNumber
    edit or [null]. *)
Definition effective (pendingEdit : option (PendingEdit num)) (k : ScrubbleKey)
    (own : PropValue num) : PropValue num :=
  match pendingEdit with
  | Some (ScrubbleNumber n) => nullish (getProp k (ScrubbleNumberEdit.newProps n)) own
  | _ => own
  end.

(** The object literal that [handleEditClick] passes on:
    [{ varName: effectiveVarName, defaultValue: effectiveDefaultValue,
       min: displayMin, max: displayMax, step: displayStep }]. *)
Definition effectiveProps (wd : WidgetProps) (pendingEdit : option (PendingEdit num))
  : ScrubbleNumberProps num :=
  [ (varName, effective pendingEdit varName
                match own_varName wd with
                | Some s => VString s
                | None => VUndefined
                end);
    (defaultValue, effective pendingEdit defaultValue (VNumber (own_defaultValue wd)));
    (min, effective pendingEdit min (VNumber (own_min wd)));
    (max, effective pendingEdit max (VNumber (own_max wd)));
    (step, effective pendingEdit step (VNumber (own_step wd))) ].

(** [handleEditClick], with the identity it resolves (the stored one,
    or else the one read off the DOM). *)
Definition handleEditClick (wd : WidgetProps) (pendingEdit : option (PendingEdit num))
    (sectionId elementPath : string) (st : Editing num) : Editing num :=
  openScrubbleNumberEditor (effectiveProps wd pendingEdit) sectionId elementPath st.

(** [v || d] for a property declared [string | undefined]; [None] when
    the property holds a number. *)
Definition stringOr (v : PropValue num) (d : string) : option string :=
  match v with
  | VUndefined => Some d
  | VString s => Some (if Js.str_truthy s then s else d)
  | VNumber _ => None
  end.

(** [v ?? d] for a property declared [number | undefined]; [None] when
    the property holds a string. *)
Definition numberOr (v : PropValue num) (d : num) : option num :=
  match v with
  | VUndefined => Some d
  | VNumber n => Some n
  | VString _ => None
  end.

(** The modal's effect on [editingScrubbleNumber]: with an editor open
    the state cells are set from its props, otherwise they are left.
    [None]: a property holds a value outside of its declared type. *)
Definition initModal (m : ModalState num) (st : Editing num)
  : option (ModalState num) :=
  match editingScrubbleNumber st with
  | None => Some m
  | Some f =>
      let p := focusProps f in
      match stringOr (getProp varName p) EmptyString,
            numberOr (getProp defaultValue p) num_ten,
            numberOr (getProp min p) num_zero,
            numberOr (getProp max p) num_hundred,
            numberOr (getProp step p) num_one with
      | Some v, Some d, Some lo, Some hi, Some s =>
          Some {| m_varName := v; m_defaultValue := d; m_min := lo;
                  m_max := hi; m_step := s; m_error := None |}
      | _, _, _, _, _ => None
      end
  end.

End EditClick.
Arguments WidgetProps num : clear implicits.

(** * Properties *)

(** ** [findIndex] *)

Lemma opt_eqb_eq (a b : option string) : Js.opt_eqb a b = true <-> a = b.
Proof.
  destruct a as [x|], b as [y|]; simpl; try (split; congruence).
  rewrite String.eqb_eq. split; congruence.
Qed.

Lemma findIndex_Some {A} (p : A -> bool) (l : list A) (i : nat) :
  Js.findIndex p l = Some i ->
  exists x, l !! i = Some x /\ p x = true
            /\ forall j y, j < i -> l !! j = Some y -> p y = false.
Proof.
  revert i. induction l as [|a l IH]; intros i; simpl; [discriminate|].
  destruct (p a) eqn:Hpa.
  - intros [= <-]. exists a. repeat split; auto. intros j y Hj. lia.
  - destruct (Js.findIndex p l) as [k|]; simpl; [|discriminate].
    intros [= <-]. destruct (IH k eq_refl) as (x & Hx & Hpx & Hlt).
    exists x. repeat split; auto.
    intros [|j] y Hj Hy; simpl in Hy.
    + congruence.
    + apply (Hlt j); auto. lia.
Qed.

Lemma findIndex_None {A} (p : A -> bool) (l : list A) :
  Js.findIndex p l = None <-> forall x, x ∈ l -> p x = false.
Proof.
  induction l as [|a l IH]; simpl.
  - split; auto. intros _ x Hx. inversion Hx.
  - destruct (p a) eqn:Hpa.
    + split; [discriminate|]. intros Hall.
      rewrite (Hall a) in Hpa; [discriminate | constructor].
    + destruct (Js.findIndex p l) as [k|]; simpl.
      * split; [discriminate|]. intros Hall.
        assert (Hn : Some k = None) by (apply IH; intros x Hx; apply Hall; by constructor).
        discriminate.
      * split; auto. intros _ x Hx. inversion Hx; subst; auto.
        destruct IH as [IH _]. by apply IH.
Qed.

Lemma findIndex_found {A} (p : A -> bool) (l : list A) (x : A) :
  x ∈ l -> p x = true -> exists i, Js.findIndex p l = Some i.
Proof.
  intros Hx Hp. destruct (Js.findIndex p l) as [i|] eqn:E; eauto.
  rewrite findIndex_None in E. rewrite (E x Hx) in Hp. discriminate.
Qed.

(** ** Keys under in-place update, removal and append *)

Section Keys.
Context {num : Type} {K : Type} (key : PendingEdit num -> option K).

Lemma atMostOne_NoDup (l : list (PendingEdit num)) :
  atMostOne key l <-> NoDup (omap key l).
Proof.
  induction l as [|a l IH]; simpl.
  - split; [constructor|]. intros _ i j e1 e2 k Hi. by rewrite lookup_nil in Hi.
  - split.
    + intros Hone.
      assert (Hl : atMostOne key l).
      { intros i j e1 e2 k Hi Hj H1 H2.
        assert (S i = S j) by (eapply Hone; eauto). lia. }
      destruct (key a) as [k|] eqn:Hka; [|by apply IH].
      constructor; [|by apply IH].
      intros Hin. apply list_elem_of_omap in Hin as (e & He & Hke).
      apply list_elem_of_lookup in He as [j Hj].
      assert (0 = S j) by (eapply (Hone 0 (S j) a e k); eauto). lia.
    + intros Hnd i j e1 e2 k Hi Hj H1 H2.
      assert (Hl : NoDup (omap key l)).
      { destruct (key a); [by inversion Hnd | done]. }
      apply IH in Hl.
      destruct i as [|i], j as [|j]; simpl in *; auto.
      * injection Hi as <-. rewrite H1 in Hnd. inversion Hnd as [|? ? Hnin _]; subst.
        exfalso. apply Hnin. apply list_elem_of_omap. exists e2. split; auto.
        apply list_elem_of_lookup. eauto.
      * injection Hj as <-. rewrite H2 in Hnd. inversion Hnd as [|? ? Hnin _]; subst.
        exfalso. apply Hnin. apply list_elem_of_omap. exists e1. split; auto.
        apply list_elem_of_lookup. eauto.
      * f_equal. eapply Hl; eauto.
Qed.

Lemma omap_insert_same (l : list (PendingEdit num)) i e e' :
  l !! i = Some e -> key e' = key e -> omap key (<[i := e']> l) = omap key l.
Proof.
  revert i. induction l as [|a l IH]; intros [|i]; simpl; try discriminate.
  - intros [= ->] ->. reflexivity.
  - intros Hi Hk. specialize (IH i Hi Hk). unfold omap in IH. by rewrite IH.
Qed.

Lemma NoDup_omap_delete (l : list (PendingEdit num)) i :
  NoDup (omap key l) -> NoDup (omap key (base.delete i l)).
Proof.
  revert i. induction l as [|a l IH]; intros [|i]; simpl; auto.
  - destruct (key a); [by inversion 1 | done].
  - destruct (key a) as [k|] eqn:Hka; [|by apply IH].
    intros Hnd. inversion Hnd as [|? ? Hnin Hnd']; subst.
    constructor; [|by apply IH].
    intros Hin. apply Hnin.
    apply list_elem_of_omap in Hin as (e & He & Hke).
    apply list_elem_of_omap. exists e. split; auto.
    apply list_elem_of_lookup in He as [j Hj].
    apply list_elem_of_lookup.
    destruct (decide (j < i)).
    + exists j. by rewrite list_lookup_delete_lt in Hj.
    + exists (S j). rewrite list_lookup_delete_ge in Hj; [done | lia].
Qed.

Lemma NoDup_omap_filter (f : PendingEdit num -> bool) (l : list (PendingEdit num)) :
  NoDup (omap key l) -> NoDup (omap key (List.filter f l)).
Proof.
  induction l as [|a l IH]; simpl; auto.
  assert (Hsub : forall k, k ∈ omap key (List.filter f l) -> k ∈ omap key l).
  { intros k Hin. apply list_elem_of_omap in Hin as (e & He & Hke).
    apply list_elem_of_omap. exists e. split; auto.
    apply list_elem_of_In in He. apply filter_In in He as [He _].
    by apply list_elem_of_In. }
  destruct (f a); simpl.
  - destruct (key a) as [k|]; [|by apply IH].
    intros Hnd. inversion Hnd; subst. constructor; auto.
  - destruct (key a) as [k|]; [|by apply IH].
    intros Hnd. inversion Hnd; subst. auto.
Qed.

Lemma omap_snoc_none (l : list (PendingEdit num)) e :
  key e = None -> omap key (l ++ [e]) = omap key l.
Proof. intros Hk. rewrite omap_app. simpl. rewrite Hk. by rewrite app_nil_r. Qed.

Lemma NoDup_omap_snoc (l : list (PendingEdit num)) e k :
  key e = Some k -> (forall x, x ∈ l -> key x <> Some k) ->
  NoDup (omap key l) -> NoDup (omap key (l ++ [e])).
Proof.
  intros Hk Hfresh Hnd. rewrite omap_app. simpl. rewrite Hk.
  apply NoDup_app. split; [done|]. split; [|apply NoDup_singleton].
  intros x Hx Hx'. apply list_elem_of_singleton in Hx' as ->.
  apply list_elem_of_omap in Hx as (e0 & He0 & Hke0).
  by apply (Hfresh e0).
Qed.

End Keys.

(** ** The ledger *)

Section LedgerProofs.
Context {num : Type} `{JsNumber num}.

Implicit Types (l prev : list (PendingEdit num)) (e : PendingEdit num).

Lemma Action_eqb_eq (a b : Action) : Action_eqb a b = true <-> a = b.
Proof. destruct a, b; simpl; split; congruence. Qed.

Lemma isStructureAdd_key sid e :
  isStructureAdd sid e = true <-> structureAddKey e = Some sid.
Proof.
  destruct e as [t|q|n|s]; simpl; try (split; congruence).
  rewrite andb_true_iff, Action_eqb_eq, opt_eqb_eq. split.
  - intros [Ha Hs]. rewrite Ha. by rewrite Hs.
  - destruct (StructureEdit.action s); try discriminate. intros [= <-]. auto.
Qed.

Lemma isTextFor_key sid path e :
  isTextFor sid path e = true <-> textKey e = Some (sid, path).
Proof.
  destruct e as [t|q|n|s]; simpl; try (split; congruence).
  rewrite andb_true_iff, !String.eqb_eq.
  split; [intros [-> ->]; reflexivity | intros [= -> ->]; auto].
Qed.

Lemma isEquationFor_key sid latex e :
  isEquationFor sid latex e = true <-> equationKey e = Some (sid, latex).
Proof.
  destruct e as [t|q|n|s]; simpl; try (split; congruence).
  rewrite andb_true_iff, !String.eqb_eq.
  split; [intros [-> ->]; reflexivity | intros [= -> ->]; auto].
Qed.

Lemma isScrubbleFor_key sid path e :
  isScrubbleFor sid path e = true <-> scrubbleKey e = Some (sid, path).
Proof.
  destruct e as [t|q|n|s]; simpl; try (split; congruence).
  rewrite andb_true_iff, !String.eqb_eq.
  split; [intros [-> ->]; reflexivity | intros [= -> ->]; auto].
Qed.

Lemma dedup_NoDup l :
  dedup l <->
  NoDup (omap textKey l) /\ NoDup (omap equationKey l)
  /\ NoDup (omap scrubbleKey l) /\ NoDup (omap structureAddKey l).
Proof. unfold dedup. rewrite !atMostOne_NoDup. reflexivity. Qed.

Lemma dedup_nil : dedup (@nil (PendingEdit num)).
Proof. apply dedup_NoDup. simpl. repeat split; constructor. Qed.

(** An entry replaced in place by one with the same keys. *)
Lemma dedup_insert l i e e' :
  l !! i = Some e ->
  textKey e' = textKey e -> equationKey e' = equationKey e ->
  scrubbleKey e' = scrubbleKey e -> structureAddKey e' = structureAddKey e ->
  dedup l -> dedup (<[i := e']> l).
Proof.
  intros Hi H1 H2 H3 H4. rewrite !dedup_NoDup.
  rewrite !(omap_insert_same _ l i e e') by assumption. tauto.
Qed.

Lemma dedup_delete l i : dedup l -> dedup (base.delete i l).
Proof.
  rewrite !dedup_NoDup. intros (H1 & H2 & H3 & H4).
  repeat split; by apply NoDup_omap_delete.
Qed.

Lemma dedup_filter (f : PendingEdit num -> bool) l :
  dedup l -> dedup (List.filter f l).
Proof.
  rewrite !dedup_NoDup. intros (H1 & H2 & H3 & H4).
  repeat split; by apply NoDup_omap_filter.
Qed.

Lemma NoDup_omap_snoc_fresh {K} (key : PendingEdit num -> option K) l e :
  (forall k, key e = Some k -> forall x, x ∈ l -> key x <> Some k) ->
  NoDup (omap key l) -> NoDup (omap key (l ++ [e])).
Proof.
  intros Hfresh Hnd. destruct (key e) as [k|] eqn:Hk.
  - eapply NoDup_omap_snoc; eauto.
  - by rewrite omap_snoc_none.
Qed.

Lemma dedup_snoc l e :
  (forall k, textKey e = Some k -> forall x, x ∈ l -> textKey x <> Some k) ->
  (forall k, equationKey e = Some k -> forall x, x ∈ l -> equationKey x <> Some k) ->
  (forall k, scrubbleKey e = Some k -> forall x, x ∈ l -> scrubbleKey x <> Some k) ->
  (forall k, structureAddKey e = Some k ->
             forall x, x ∈ l -> structureAddKey x <> Some k) ->
  dedup l -> dedup (l ++ [e]).
Proof.
  intros F1 F2 F3 F4. rewrite !dedup_NoDup. intros (H1 & H2 & H3 & H4).
  repeat split; by apply NoDup_omap_snoc_fresh.
Qed.

(** The entry found by [findIndex] with one of the four callbacks. *)
Lemma found_structure sid l i :
  Js.findIndex (isStructureAdd sid) l = Some i ->
  exists s, l !! i = Some (Structure s)
            /\ StructureEdit.action s = add /\ StructureEdit.sectionId s = sid.
Proof.
  intros Hf. apply findIndex_Some in Hf as (x & Hx & Hp & _).
  destruct x as [t|q|n|s]; simpl in Hp; try discriminate.
  exists s. apply andb_true_iff in Hp as [Ha Hs].
  apply Action_eqb_eq in Ha. apply opt_eqb_eq in Hs. auto.
Qed.

Lemma found_text sid path l i :
  Js.findIndex (isTextFor sid path) l = Some i ->
  exists t, l !! i = Some (Text t)
            /\ TextEdit.sectionId t = sid /\ TextEdit.elementPath t = path.
Proof.
  intros Hf. apply findIndex_Some in Hf as (x & Hx & Hp & _).
  destruct x as [t|q|n|s]; simpl in Hp; try discriminate.
  exists t. apply andb_true_iff in Hp as [Ha Hs].
  apply String.eqb_eq in Ha. apply String.eqb_eq in Hs. auto.
Qed.

Lemma found_equation sid latex l i :
  Js.findIndex (isEquationFor sid latex) l = Some i ->
  exists q, l !! i = Some (EquationE q)
            /\ EquationEdit.sectionId q = sid /\ EquationEdit.originalLatex q = latex.
Proof.
  intros Hf. apply findIndex_Some in Hf as (x & Hx & Hp & _).
  destruct x as [t|q|n|s]; simpl in Hp; try discriminate.
  exists q. apply andb_true_iff in Hp as [Ha Hs].
  apply String.eqb_eq in Ha. apply String.eqb_eq in Hs. auto.
Qed.

Lemma found_scrubble sid path l i :
  Js.findIndex (isScrubbleFor sid path) l = Some i ->
  exists n, l !! i = Some (ScrubbleNumber n)
            /\ ScrubbleNumberEdit.sectionId n = sid
            /\ ScrubbleNumberEdit.elementPath n = path.
Proof.
  intros Hf. apply findIndex_Some in Hf as (x & Hx & Hp & _).
  destruct x as [t|q|n|s]; simpl in Hp; try discriminate.
  exists n. apply andb_true_iff in Hp as [Ha Hs].
  apply String.eqb_eq in Ha. apply String.eqb_eq in Hs. auto.
Qed.

(** A callback that finds nothing: the key is fresh. *)
Lemma fresh_key {K} (p : PendingEdit num -> bool)
    (key : PendingEdit num -> option K) (k : K) l :
  (forall e, p e = true <-> key e = Some k) ->
  Js.findIndex p l = None -> forall x, x ∈ l -> key x <> Some k.
Proof.
  intros Hp Hf x Hx Hk. rewrite findIndex_None in Hf.
  apply Hp in Hk. rewrite (Hf x Hx) in Hk. discriminate.
Qed.

Lemma addTextEdit_dedup w edit prev : dedup prev -> dedup (addTextEdit w edit prev).
Proof.
  intros Hd. unfold addTextEdit.
  destruct (Js.findIndex (isStructureAdd _) prev) as [i|] eqn:Hs.
  - destruct (found_structure _ _ _ Hs) as (s & Hi & Ha & Hsid). rewrite Hi.
    eapply dedup_insert; eauto.
  - destruct (Js.findIndex (isTextFor _ _) prev) as [i|] eqn:Ht.
    + destruct (found_text _ _ _ _ Ht) as (t & Hi & _). rewrite Hi.
      destruct (isReverted edit t).
      * by apply dedup_delete.
      * eapply dedup_insert; eauto.
    + apply dedup_snoc; auto; simpl; try discriminate.
      intros k [= <-]. eapply fresh_key; [|exact Ht]. intros e. apply isTextFor_key.
Qed.

Lemma addEquationEdit_dedup w edit prev :
  dedup prev -> dedup (addEquationEdit w edit prev).
Proof.
  intros Hd. unfold addEquationEdit.
  destruct (Js.findIndex (isEquationFor _ _) prev) as [i|] eqn:Ht.
  - destruct (found_equation _ _ _ _ Ht) as (q & Hi & _). rewrite Hi.
    destruct (String.eqb _ _).
    + by apply dedup_delete.
    + eapply dedup_insert; eauto.
  - apply dedup_snoc; auto; simpl; try discriminate.
      intros k [= <-]. eapply fresh_key; [|exact Ht]. intros e. apply isEquationFor_key.
Qed.

Lemma addScrubbleNumberEdit_dedup w edit prev :
  dedup prev -> dedup (addScrubbleNumberEdit w edit prev).
Proof.
  intros Hd. unfold addScrubbleNumberEdit.
  destruct (Js.findIndex (isScrubbleFor _ _) prev) as [i|] eqn:Ht.
  - destruct (found_scrubble _ _ _ _ Ht) as (n & Hi & _). rewrite Hi.
    destruct (String.eqb _ _).
    + by apply dedup_delete.
    + eapply dedup_insert; eauto.
  - apply dedup_snoc; auto; simpl; try discriminate.
      intros k [= <-]. eapply fresh_key; [|exact Ht]. intros e. apply isScrubbleFor_key.
Qed.

Lemma addStructureEdit_append w edit prev :
  StructureEdit.a_action edit <> add ->
  addStructureEdit w edit prev = prev ++ [Structure (newStructure w edit)].
Proof.
  intros Hne. unfold addStructureEdit.
  destruct (Action_eqb _ add) eqn:Ha; [|reflexivity].
  apply Action_eqb_eq in Ha. contradiction.
Qed.

Lemma addStructureEdit_dedup w edit prev :
  dedup prev -> dedup (addStructureEdit w edit prev).
Proof.
  intros Hd. unfold addStructureEdit.
  destruct (Action_eqb _ add) eqn:Ha.
  - apply Action_eqb_eq in Ha.
    destruct (Js.findIndex (isStructureAdd _) prev) as [i|] eqn:Hs.
    + destruct (found_structure _ _ _ Hs) as (s & Hi & Hact & Hsid). rewrite Hi.
      eapply dedup_insert; eauto. simpl. rewrite Ha, Hact. f_equal.
      rewrite Hsid. destruct (StructureEdit.a_sectionId edit); reflexivity.
    + apply dedup_snoc; auto; simpl; try discriminate.
      rewrite Ha. intros k [= <-].
      eapply fresh_key; [|exact Hs]. intros e. apply isStructureAdd_key.
  - apply dedup_snoc; auto; simpl; try discriminate.
    destruct (StructureEdit.a_action edit); simpl in *; discriminate.
Qed.

Lemma apply_dedup (o : Op num) prev : dedup prev -> dedup (apply o prev).
Proof.
  destruct o; simpl.
  - apply addTextEdit_dedup.
  - apply addEquationEdit_dedup.
  - apply addScrubbleNumberEdit_dedup.
  - apply addStructureEdit_dedup.
  - apply dedup_filter.
  - intros _. apply dedup_nil.
Qed.

Lemma run_dedup (ops : list (Op num)) : dedup (run ops).
Proof.
  unfold run. generalize (@dedup_nil). generalize (@nil (PendingEdit num)).
  induction ops as [|o ops IH]; intros l Hl; simpl; auto.
  apply IH. by apply apply_dedup.
Qed.

End LedgerProofs.

(** ** Claims about the ledger *)

Section LedgerClaims.
Context {num : Type} `{JsNumber num}.

Implicit Types (l prev : list (PendingEdit num)) (e : PendingEdit num).

(** Under the dedup invariant the entry that [findIndex] finds for a
    key is the only entry with that key. *)
Lemma atMostOne_elem {K} (key : PendingEdit num -> option K) l i e e' k :
  atMostOne key l -> l !! i = Some e -> e' ∈ l ->
  key e = Some k -> key e' = Some k -> e = e'.
Proof.
  intros Hone Hi Hin Hk Hk'. apply list_elem_of_lookup in Hin as [j Hj].
  assert (i = j) by (eapply Hone; eauto). subst j. congruence.
Qed.

(** C1. Absorption: when the ledger holds a Structure edit with action
    add for section S, [addTextEdit] for S overwrites the content of
    that edit with the new text and sets its timestamp to the current
    time; the ledger keeps its length and its Text edits, so no Text
    edit is created.  In particular [addStructureEdit] with action add
    and section S on the empty ledger, followed by [addTextEdit] for S
    with new text x, leaves the single entry Structure with action add
    and content x. *)
Theorem addTextEdit_absorbed_by_structure_add :
  (forall (w : Stamp) (edit : TextEdit.arg) prev (s : StructureEdit.t),
      Structure s ∈ prev ->
      StructureEdit.action s = add ->
      StructureEdit.sectionId s = Some (TextEdit.a_sectionId edit) ->
      exists i s0,
        prev !! i = Some (Structure s0)
        /\ StructureEdit.action s0 = add
        /\ StructureEdit.sectionId s0 = Some (TextEdit.a_sectionId edit)
        /\ (dedup prev -> s0 = s)
        /\ addTextEdit w edit prev
           = <[i := Structure
                      (StructureEdit.mk (StructureEdit.id s0) add
                         (StructureEdit.sectionId s0) (StructureEdit.sectionIds s0)
                         (Some (TextEdit.a_newText edit))
                         (StructureEdit.blockType s0) (updateTime w))]> prev
        /\ length (addTextEdit w edit prev) = length prev
        /\ textEdits (addTextEdit w edit prev) = textEdits prev)
  /\ (forall (w1 w2 : Stamp) (S path orig x : string) (oh nh : option string)
             (sids : Js.field (list string)) (c b : Js.field string),
        addTextEdit w2 (TextEdit.mkArg S path orig oh x nh)
          (addStructureEdit w1
             (StructureEdit.mkArg add (Js.Present (Some S)) sids c b) [])
        = [Structure (num := num)
             (StructureEdit.mk (newId w1) add (Some S) (Js.read sids)
                (Some x) (Js.read b) (updateTime w2))]).
Proof.
  split.
  - intros w edit prev s Hin Ha Hsid.
    destruct (findIndex_found (isStructureAdd (Some (TextEdit.a_sectionId edit)))
                prev (Structure s) Hin) as [i Hf].
    { apply isStructureAdd_key. simpl. by rewrite Ha, Hsid. }
    destruct (found_structure _ _ _ Hf) as (s0 & Hi & Ha0 & Hsid0).
    exists i, s0. split; [done|]. split; [done|]. split; [done|].
    split.
    { intros (_ & _ & _ & Hone).
      assert (Structure (num := num) s0 = Structure s) as [= ->]; [|done].
      eapply (atMostOne_elem structureAddKey); eauto; simpl.
      - by rewrite Ha0, Hsid0.
      - by rewrite Ha, Hsid. }
    assert (Hres : addTextEdit w edit prev
                   = <[i := Structure (absorbText s0 (TextEdit.a_newText edit)
                                         (updateTime w))]> prev).
    { unfold addTextEdit. by rewrite Hf, Hi. }
    rewrite Hres. unfold absorbText. rewrite Ha0. split; [done|].
    split; [apply length_insert|].
    unfold textEdits. by apply (omap_insert_same _ prev i (Structure s0)).
  - intros. unfold addStructureEdit, addTextEdit. simpl.
    rewrite String.eqb_refl. reflexivity.
Qed.

Lemma isReverted_reverts (edit : TextEdit.arg) (existing : TextEdit.t) :
  isReverted edit existing = true <-> reverts edit existing.
Proof.
  unfold isReverted, reverts.
  rewrite andb_true_iff, String.eqb_eq.
  destruct (TextEdit.a_newHtml edit) as [[|c h]|];
    destruct (TextEdit.originalHtml existing) as [[|c' h']|]; simpl;
    try (split; intros [Ht _]; (split; [exact Ht|]); try reflexivity;
         intros x y Hx Hy; congruence).
  split; intros [Ht Hh]; (split; [exact Ht|]).
  - intros x y [= <-] [= <-] _ _.
    apply (proj1 (String.eqb_eq (String c h) (String c' h'))). exact Hh.
  - apply (proj2 (String.eqb_eq (String c h) (String c' h'))).
    apply Hh; [reflexivity | reflexivity | discriminate | discriminate].
Qed.

Lemma no_structure_add (sid : option string) prev :
  (forall s, Structure s ∈ prev -> StructureEdit.action s = add ->
             StructureEdit.sectionId s <> sid) ->
  Js.findIndex (isStructureAdd sid) prev = None.
Proof.
  intros Hno. apply findIndex_None. intros x Hx.
  destruct (isStructureAdd sid x) eqn:E; [|reflexivity].
  destruct x as [t|q|n|s]; simpl in E; try discriminate.
  apply andb_true_iff in E as [Ha Hs].
  apply Action_eqb_eq in Ha. apply opt_eqb_eq in Hs.
  exfalso. by apply (Hno s).
Qed.

(** C2 (amended). Auto-revert: when a Text edit exists for the key
    (sectionId, elementPath) and no pending Structure edit with action
    add exists for that sectionId, [addTextEdit] removes the edit when
    the new text equals the captured original text and, when both the
    call's newHtml and the edit's originalHtml are supplied and not the
    empty string, newHtml equals originalHtml; otherwise it updates
    newText and newHtml in place, keeping id, originalText and
    originalHtml.  In particular [addTextEdit] from A to B followed by
    [addTextEdit] back to A, without HTML, leaves the empty ledger. *)
Theorem addTextEdit_reverts_or_updates :
  (forall (w : Stamp) (edit : TextEdit.arg) prev (t : TextEdit.t),
      (forall s, Structure s ∈ prev -> StructureEdit.action s = add ->
                 StructureEdit.sectionId s <> Some (TextEdit.a_sectionId edit)) ->
      Text t ∈ prev ->
      TextEdit.sectionId t = TextEdit.a_sectionId edit ->
      TextEdit.elementPath t = TextEdit.a_elementPath edit ->
      exists i t0,
        prev !! i = Some (Text t0)
        /\ TextEdit.sectionId t0 = TextEdit.a_sectionId edit
        /\ TextEdit.elementPath t0 = TextEdit.a_elementPath edit
        /\ (dedup prev -> t0 = t)
        /\ (reverts edit t0 -> addTextEdit w edit prev = base.delete i prev)
        /\ (~ reverts edit t0 ->
            addTextEdit w edit prev
            = <[i := Text (TextEdit.mk (TextEdit.id t0) (TextEdit.sectionId t0)
                             (TextEdit.elementPath t0) (TextEdit.originalText t0)
                             (TextEdit.originalHtml t0) (TextEdit.a_newText edit)
                             (TextEdit.a_newHtml edit) (updateTime w))]> prev))
  /\ (forall (w1 w2 : Stamp) (S path A B orig2 : string),
        addTextEdit w2 (TextEdit.mkArg S path orig2 None A None)
          (addTextEdit w1 (TextEdit.mkArg S path A None B None) [])
        = @nil (PendingEdit num)).
Proof.
  split.
  - intros w edit prev t Hno Hin Hsid Hpath.
    pose proof (no_structure_add _ _ Hno) as Hs.
    destruct (findIndex_found
                (isTextFor (TextEdit.a_sectionId edit) (TextEdit.a_elementPath edit))
                prev (Text t) Hin) as [i Hf].
    { apply isTextFor_key. simpl. by rewrite Hsid, Hpath. }
    destruct (found_text _ _ _ _ Hf) as (t0 & Hi & Hsid0 & Hpath0).
    exists i, t0. split; [done|]. split; [done|]. split; [done|].
    split.
    { intros (Hone & _).
      assert (Text (num := num) t0 = Text t) as [= ->]; [|done].
      apply (atMostOne_elem textKey prev i (Text t0) (Text t)
               (TextEdit.a_sectionId edit, TextEdit.a_elementPath edit));
        auto; simpl; congruence. }
    unfold addTextEdit. rewrite Hs, Hf, Hi. split.
    + intros Hr. apply isReverted_reverts in Hr. by rewrite Hr.
    + intros Hr. destruct (isReverted edit t0) eqn:E; [|reflexivity].
      apply isReverted_reverts in E. contradiction.
  - intros. unfold addTextEdit. simpl.
    repeat (rewrite String.eqb_refl; simpl).
    unfold isReverted. simpl. rewrite String.eqb_refl. reflexivity.
Qed.

(** C3. Dedup invariant: the empty ledger has at most one entry per
    key, that is, at most one Text edit per (sectionId, elementPath),
    one Equation edit per (sectionId, originalLatex), one scrubbleNumber
    edit per (sectionId, elementPath) and one Structure edit with
    action add per sectionId, and every ledger-mutating operation keeps
    it so; hence it holds after every sequence of operations.  A
    Structure edit with action delete or reorder is always appended. *)
Theorem ledger_dedup_invariant :
  dedup (@nil (PendingEdit num))
  /\ (forall (o : Op num) prev, dedup prev -> dedup (apply o prev))
  /\ (forall ops : list (Op num), dedup (run ops))
  /\ (forall (w : Stamp) (edit : StructureEdit.arg) prev,
        StructureEdit.a_action edit = delete
        \/ StructureEdit.a_action edit = reorder ->
        addStructureEdit w edit prev
        = prev ++ [Structure
                     (StructureEdit.mk (newId w) (StructureEdit.a_action edit)
                        (Js.read (StructureEdit.a_sectionId edit))
                        (Js.read (StructureEdit.a_sectionIds edit))
                        (Js.read (StructureEdit.a_content edit))
                        (Js.read (StructureEdit.a_blockType edit))
                        (updateTime w))]).
Proof.
  split; [apply dedup_nil|]. split; [apply apply_dedup|].
  split; [apply run_dedup|].
  intros w edit prev Ha. apply addStructureEdit_append.
  destruct Ha as [-> | ->]; discriminate.
Qed.

(** C9. An equation revert discards the colour map: when an Equation
    edit exists for the key (sectionId, originalLatex), [addEquationEdit]
    for that key with newLatex equal to the original removes the edit
    whatever colorMap is passed, and (the ledger being deduplicated) no
    Equation edit for the key is left to record the colour map. *)
Theorem addEquationEdit_revert_drops_colorMap :
  forall (w : Stamp) (sid latex : string) (ct : ComponentType) prev
         (q : EquationEdit.t),
    EquationE q ∈ prev ->
    EquationEdit.sectionId q = sid ->
    EquationEdit.originalLatex q = latex ->
    exists i q0,
      prev !! i = Some (EquationE q0)
      /\ EquationEdit.sectionId q0 = sid
      /\ EquationEdit.originalLatex q0 = latex
      /\ (dedup prev -> q0 = q)
      /\ (forall cm : option (list (string * string)),
            addEquationEdit w (EquationEdit.mkArg sid ct latex latex cm) prev
            = base.delete i prev)
      /\ (dedup prev ->
          forall cm q', EquationE q' ∈ addEquationEdit w
                          (EquationEdit.mkArg sid ct latex latex cm) prev ->
                        ~ (EquationEdit.sectionId q' = sid
                           /\ EquationEdit.originalLatex q' = latex)).
Proof.
  intros w sid latex ct prev q Hin Hsid Hlatex.
  destruct (findIndex_found (isEquationFor sid latex) prev (EquationE q) Hin)
    as [i Hf].
  { apply isEquationFor_key. simpl. by rewrite Hsid, Hlatex. }
  destruct (found_equation _ _ _ _ Hf) as (q0 & Hi & Hsid0 & Hlatex0).
  exists i, q0. split; [done|]. split; [done|]. split; [done|].
  split.
  { intros (_ & Hone & _).
    assert (EquationE (num := num) q0 = EquationE q) as [= ->]; [|done].
    apply (atMostOne_elem equationKey prev i (EquationE q0) (EquationE q)
             (sid, latex)); auto; simpl; congruence. }
  assert (Hres : forall cm,
             addEquationEdit w (EquationEdit.mkArg sid ct latex latex cm) prev
             = base.delete i prev).
  { intros cm. unfold addEquationEdit. simpl. rewrite Hf, Hi.
    rewrite Hlatex0, String.eqb_refl. reflexivity. }
  split; [exact Hres|].
  intros (_ & Hone & _) cm q' Hq' [Hs' Hl']. rewrite Hres in Hq'.
  apply list_elem_of_lookup in Hq' as [j Hj].
  assert (Hj' : exists j', j' <> i /\ prev !! j' = Some (EquationE q')).
  { destruct (decide (j < i)).
    - exists j. split; [lia|]. by rewrite list_lookup_delete_lt in Hj.
    - exists (Datatypes.S j). split; [lia|].
      rewrite list_lookup_delete_ge in Hj; [done | lia]. }
  destruct Hj' as (j' & Hne & Hj'). apply Hne.
  apply (Hone j' i (EquationE q') (EquationE q0) (sid, latex));
    auto; simpl; congruence.
Qed.

(** C4 (amended). NumericWidget revert: when a scrubbleNumber edit
    exists for the key (sectionId, elementPath), [addScrubbleNumberEdit]
    for that key removes the edit when the JSON serialisation of
    newProps equals that of the captured originalProps (so, when the
    two objects list the same properties in the same order with the
    same values); otherwise it replaces newProps in place, keeping id,
    key and originalProps. *)
Theorem addScrubbleNumberEdit_reverts_on_equal_json :
  forall (w : Stamp) (sid path : string) (orig newProps : ScrubbleNumberProps num)
         prev (n : ScrubbleNumberEdit.t num),
    ScrubbleNumber n ∈ prev ->
    ScrubbleNumberEdit.sectionId n = sid ->
    ScrubbleNumberEdit.elementPath n = path ->
    exists i n0,
      prev !! i = Some (ScrubbleNumber n0)
      /\ ScrubbleNumberEdit.sectionId n0 = sid
      /\ ScrubbleNumberEdit.elementPath n0 = path
      /\ (dedup prev -> n0 = n)
      /\ (JSON.stringify newProps
          = JSON.stringify (ScrubbleNumberEdit.originalProps n0) ->
          addScrubbleNumberEdit w
            (ScrubbleNumberEdit.mkArg sid path orig newProps) prev
          = base.delete i prev)
      /\ (newProps = ScrubbleNumberEdit.originalProps n0 ->
          addScrubbleNumberEdit w
            (ScrubbleNumberEdit.mkArg sid path orig newProps) prev
          = base.delete i prev)
      /\ (JSON.stringify newProps
          <> JSON.stringify (ScrubbleNumberEdit.originalProps n0) ->
          addScrubbleNumberEdit w
            (ScrubbleNumberEdit.mkArg sid path orig newProps) prev
          = <[i := ScrubbleNumber
                     (ScrubbleNumberEdit.mk (ScrubbleNumberEdit.id n0) sid path
                        (ScrubbleNumberEdit.originalProps n0) newProps
                        (updateTime w))]> prev).
Proof.
  intros w sid path orig newProps prev n Hin Hsid Hpath.
  destruct (findIndex_found (isScrubbleFor sid path) prev (ScrubbleNumber n) Hin)
    as [i Hf].
  { apply isScrubbleFor_key. simpl. by rewrite Hsid, Hpath. }
  destruct (found_scrubble _ _ _ _ Hf) as (n0 & Hi & Hsid0 & Hpath0).
  exists i, n0. split; [done|]. split; [done|]. split; [done|].
  split.
  { intros (_ & _ & Hone & _).
    assert (ScrubbleNumber n0 = ScrubbleNumber n) as [= ->]; [|done].
    apply (atMostOne_elem scrubbleKey prev i (ScrubbleNumber n0)
             (ScrubbleNumber n) (sid, path)); auto; simpl; congruence. }
  assert (Heq : JSON.stringify newProps
                = JSON.stringify (ScrubbleNumberEdit.originalProps n0) ->
                addScrubbleNumberEdit w
                  (ScrubbleNumberEdit.mkArg sid path orig newProps) prev
                = base.delete i prev).
  { intros E. unfold addScrubbleNumberEdit.
    cbn [ScrubbleNumberEdit.a_sectionId ScrubbleNumberEdit.a_elementPath
         ScrubbleNumberEdit.a_newProps ScrubbleNumberEdit.a_originalProps].
    rewrite Hf, Hi.
    apply String.eqb_eq in E. by rewrite E. }
  split; [exact Heq|]. split; [intros ->; by apply Heq|].
  intros Hne. unfold addScrubbleNumberEdit.
  cbn [ScrubbleNumberEdit.a_sectionId ScrubbleNumberEdit.a_elementPath
         ScrubbleNumberEdit.a_newProps ScrubbleNumberEdit.a_originalProps].
    rewrite Hf, Hi.
  destruct (String.eqb _ _) eqn:E.
  - apply String.eqb_eq in E. contradiction.
  - unfold reprops. by rewrite Hsid0, Hpath0.
Qed.

End LedgerClaims.

(** ** The ledger claims on concrete ledgers (numbers are integers) *)

(** The only index of a one-entry ledger. *)
Ltac only_entry Hi i :=
  destruct i as [|i]; [injection Hi as <- | by destruct i].

Lemma addTextEdit_absorbed_witness :
  let s := StructureEdit.mk "edit-1" add (Some "block-7") None
             (Some EmptyString) (Some "placeholder") 100 in
  let prev : list (PendingEdit Z) := [Structure s] in
  let edit := TextEdit.mkArg "block-7" "p[0]" "Type here" None "X" None in
  let w := Build_Stamp "edit-2" 200 201 in
  addTextEdit w edit prev
  = [Structure (StructureEdit.mk "edit-1" add (Some "block-7") None
                  (Some "X") (Some "placeholder") 201)].
Proof.
  intros s prev edit w.
  destruct (proj1 (@addTextEdit_absorbed_by_structure_add Z) w edit prev s)
    as (i & s0 & Hi & _ & _ & _ & Hres & _).
  - apply list_elem_of_here.
  - reflexivity.
  - reflexivity.
  - rewrite Hres. only_entry Hi i. reflexivity.
Defined.

Lemma addTextEdit_reverts_witness :
  let t := TextEdit.mk "edit-1" "block-7" "p[0]" "A" None "B" None 100 in
  let prev : list (PendingEdit Z) := [Text t] in
  let edit := TextEdit.mkArg "block-7" "p[0]" "B" None "A" None in
  let w := Build_Stamp "edit-2" 200 201 in
  addTextEdit w edit prev = [].
Proof.
  intros t prev edit w.
  destruct (proj1 (@addTextEdit_reverts_or_updates Z) w edit prev t)
    as (i & t0 & Hi & _ & _ & _ & Hrev & _).
  - intros s Hs. apply list_elem_of_singleton in Hs. discriminate.
  - apply list_elem_of_here.
  - reflexivity.
  - reflexivity.
  - only_entry Hi i. rewrite Hrev; [reflexivity|].
    split; [reflexivity | discriminate].
Defined.

(** C2, as stated, fails when the call supplies the empty string as
    newHtml: both snapshots are supplied and differ, yet the code takes
    the empty string for a missing snapshot and removes the edit. *)
Lemma addTextEdit_empty_html_counterexample :
  let t := TextEdit.mk "edit-1" "block-7" "p[0]" "A" (Some "<p>A</p>")
             "B" (Some "<p>B</p>") 100 in
  let prev : list (PendingEdit Z) := [Text t] in
  let edit := TextEdit.mkArg "block-7" "p[0]" "A" (Some "<p>A</p>")
                "A" (Some EmptyString) in
  let w := Build_Stamp "edit-2" 200 201 in
  ~ revertsAsSpecified edit t
  /\ addTextEdit w edit prev = []
  /\ addTextEdit w edit prev
     <> [Text (TextEdit.mk "edit-1" "block-7" "p[0]" "A" (Some "<p>A</p>")
                "A" (Some EmptyString) 201)].
Proof.
  split; [|split].
  - intros [_ Hh]. specialize (Hh _ _ eq_refl eq_refl). discriminate.
  - reflexivity.
  - discriminate.
Qed.

Lemma ledger_dedup_witness :
  let w := Build_Stamp "edit-1" 100 101 in
  let add_text := AddTextEdit (num := Z) w
                    (TextEdit.mkArg "block-7" "p[0]" "A" None "B" None) in
  let del := StructureEdit.mkArg delete (Js.Present (Some "block-7"))
               Js.Absent Js.Absent Js.Absent in
  dedup (apply add_text [])
  /\ addStructureEdit (num := Z) w del []
     = [Structure (StructureEdit.mk "edit-1" delete (Some "block-7")
                     None None None 101)].
Proof.
  intros w add_text del. split.
  - apply (proj1 (proj2 (@ledger_dedup_invariant Z _)) add_text []).
    apply (proj1 (@ledger_dedup_invariant Z _)).
  - apply (proj2 (proj2 (proj2 (@ledger_dedup_invariant Z _))) w del []).
    left. reflexivity.
Defined.

Lemma addEquationEdit_revert_witness :
  let q := EquationEdit.mk "edit-1" "block-7" Equation "x^2" "x^3"
             (Some [("x", "red")]) 100 in
  let prev : list (PendingEdit Z) := [EquationE q] in
  let w := Build_Stamp "edit-2" 200 201 in
  addEquationEdit w
    (EquationEdit.mkArg "block-7" Equation "x^2" "x^2" (Some [("x", "blue")]))
    prev = [].
Proof.
  intros q prev w.
  destruct (@addEquationEdit_revert_drops_colorMap Z w "block-7" "x^2"
              Equation prev q) as (i & q0 & Hi & _ & _ & _ & Hres & _).
  - apply list_elem_of_here.
  - reflexivity.
  - reflexivity.
  - rewrite Hres. only_entry Hi i. reflexivity.
Defined.

Lemma addScrubbleNumberEdit_reverts_witness :
  let orig := [(min, VNumber 0%Z); (max, VNumber 10%Z)] in
  let n := ScrubbleNumberEdit.mk "edit-1" "block-7" "scrubble-block-7-10"
             orig [(min, VNumber 0%Z); (max, VNumber 20%Z)] 100 in
  let prev : list (PendingEdit Z) := [ScrubbleNumber n] in
  let w := Build_Stamp "edit-2" 200 201 in
  addScrubbleNumberEdit w
    (ScrubbleNumberEdit.mkArg "block-7" "scrubble-block-7-10" orig orig) prev
  = [].
Proof.
  intros orig n prev w.
  destruct (@addScrubbleNumberEdit_reverts_on_equal_json Z _ w "block-7"
              "scrubble-block-7-10" orig orig prev n)
    as (i & n0 & Hi & _ & _ & _ & Hres & _).
  - apply list_elem_of_here.
  - reflexivity.
  - reflexivity.
  - only_entry Hi i. rewrite Hres; reflexivity.
Defined.

(** C4, as stated, fails when the new props object lists the same
    properties in another order: the two objects are deeply equal, yet
    their JSON serialisations differ and the edit is kept. *)
Lemma addScrubbleNumberEdit_order_counterexample :
  let orig := [(min, VNumber 0%Z); (max, VNumber 10%Z)] in
  let newProps := [(max, VNumber 10%Z); (min, VNumber 0%Z)] in
  let n := ScrubbleNumberEdit.mk "edit-1" "block-7" "scrubble-block-7-10"
             orig [(min, VNumber 0%Z); (max, VNumber 20%Z)] 100 in
  let prev : list (PendingEdit Z) := [ScrubbleNumber n] in
  let w := Build_Stamp "edit-2" 200 201 in
  deepEqual newProps (ScrubbleNumberEdit.originalProps n)
  /\ addScrubbleNumberEdit w
       (ScrubbleNumberEdit.mkArg "block-7" "scrubble-block-7-10" orig newProps)
       prev
     = [ScrubbleNumber
          (ScrubbleNumberEdit.mk "edit-1" "block-7" "scrubble-block-7-10"
             orig newProps 201)].
Proof.
  split.
  - intros k. destruct k; reflexivity.
  - reflexivity.
Qed.

(** ** The modal's validation boundary *)

Section ModalClaims.
Context {num : Type} `{JsNumber num}.

Lemma validate_false_iff (m : ModalState num) :
  snd (validate m) = false <-> invalid m.
Proof.
  unfold validate, invalid.
  destruct (num_ge _ _); [simpl; tauto|].
  destruct (num_le _ _); [simpl; tauto|].
  destruct (num_lt _ _); [simpl; tauto|].
  destruct (num_gt _ _); simpl; [tauto|].
  split; [discriminate|]. intros [?|[?|[?|?]]]; discriminate.
Qed.

Lemma validate_false_error (m : ModalState num) :
  snd (validate m) = false -> exists msg, m_error (fst (validate m)) = Some msg.
Proof.
  unfold validate.
  destruct (num_ge _ _); [simpl; eauto|].
  destruct (num_le _ _); [simpl; eauto|].
  destruct (_ || _); simpl; [eauto | discriminate].
Qed.

Lemma handleSave_validate (m : ModalState num) :
  fst (handleSave m) = fst (validate m)
  /\ (snd (validate m) = false -> snd (handleSave m) = None)
  /\ (snd (validate m) = true -> snd (handleSave m) <> None).
Proof.
  unfold handleSave.
  destruct (validate m) as [m' [|]]; simpl;
    repeat split; intros; try reflexivity; discriminate.
Qed.

(** C8. Validation atomicity: a save attempt with min >= max, or
    step <= 0, or the default value below min or above max is refused:
    an error message is set, [saveScrubbleNumberEdit] is not reached,
    [addScrubbleNumberEdit] is not called, and the provider's state,
    the ledger with it, is what it was.  Conversely a save attempt
    that calls [addScrubbleNumberEdit] or changes the ledger has passed
    all three checks. *)
Theorem invalid_save_is_refused :
  (forall (w : Stamp) (m : ModalState num) (st : Editing num),
      invalid m ->
      (exists msg, m_error (fst (saveAttempt w m st)) = Some msg)
      /\ snd (handleSave m) = None
      /\ saveAttempt_calls m st = []
      /\ snd (saveAttempt w m st) = st)
  /\ (forall (w : Stamp) (m : ModalState num) (st : Editing num),
        saveAttempt_calls m st <> []
        \/ pendingEdits (snd (saveAttempt w m st)) <> pendingEdits st ->
        num_ge (m_min m) (m_max m) = false
        /\ num_le (m_step m) num_zero = false
        /\ num_lt (m_defaultValue m) (m_min m) = false
        /\ num_gt (m_defaultValue m) (m_max m) = false).
Proof.
  assert (Hrefuse : forall w m st, invalid m ->
            (exists msg, m_error (fst (saveAttempt w m st)) = Some msg)
            /\ snd (handleSave m) = None
            /\ saveAttempt_calls m st = []
            /\ snd (saveAttempt w m st) = st).
  { intros w m st Hinv. apply validate_false_iff in Hinv.
    destruct (handleSave_validate m) as (Hfst & Hnone & _).
    specialize (Hnone Hinv).
    destruct (validate_false_error m Hinv) as [msg Hmsg].
    unfold saveAttempt, saveAttempt_calls.
    destruct (handleSave m) as [m' call]. simpl in *. subst.
    repeat split; eauto. }
  split; [exact Hrefuse|].
  intros w m st Hchg.
  assert (Hv : ~ invalid m).
  { intros Hinv. destruct (Hrefuse w m st Hinv) as (_ & _ & Hc & Hs).
    destruct Hchg as [Hchg|Hchg]; [by apply Hchg|].
    apply Hchg. by rewrite Hs. }
  unfold invalid in Hv.
  destruct (num_ge _ _), (num_le _ _), (num_lt _ _), (num_gt _ _);
    try (exfalso; apply Hv; tauto).
  auto.
Qed.

End ModalClaims.

Lemma invalid_save_witness :
  let m := {| m_varName := "count"; m_defaultValue := 5%Z; m_min := 10%Z;
              m_max := 10%Z; m_step := 1%Z; m_error := None |} in
  let st := {| pendingEdits := @nil (PendingEdit Z);
               editingScrubbleNumber :=
                 Some (Build_Focus [(min, VNumber 0%Z); (max, VNumber 100%Z)]
                         "block-7" "scrubble-block-7-10") |} in
  let w := Build_Stamp "edit-1" 100 101 in
  m_error (fst (saveAttempt w m st)) = Some "Min must be less than max"
  /\ saveAttempt_calls m st = []
  /\ snd (saveAttempt w m st) = st.
Proof.
  intros m st w.
  destruct (proj1 (@invalid_save_is_refused Z _) w m st) as (_ & _ & Hc & Hs).
  - left. reflexivity.
  - split; [reflexivity|]. split; assumption.
Defined.

(** ** Strings *)

Lemma append_nil_r (s : string) : s +:+ EmptyString = s.
Proof. induction s as [|c s IH]; simpl; [reflexivity | by rewrite IH]. Qed.

Lemma append_assoc (a b c : string) : (a +:+ b) +:+ c = a +:+ b +:+ c.
Proof. induction a as [|x a IH]; simpl; [reflexivity | by rewrite IH]. Qed.

Lemma append_length (a b : string) :
  String.length (a +:+ b) = String.length a + String.length b.
Proof. induction a as [|x a IH]; simpl; [reflexivity | by rewrite IH]. Qed.

Lemma startsWith_spec (p s : string) :
  Str.startsWith p s = true <-> exists b, s = p +:+ b.
Proof.
  revert s. induction p as [|a p IH]; intros s; simpl.
  - split; eauto.
  - destruct s as [|b s].
    + split; [discriminate | intros [r Hr]; discriminate].
    + rewrite andb_true_iff, Ascii.eqb_eq, IH. split.
      * intros [-> [r ->]]. eauto.
      * intros [r [= -> ->]]. eauto.
Qed.

Lemma includes_spec (s q : string) :
  Str.includes s q = true <-> isSubstring q s.
Proof.
  unfold isSubstring. induction s as [|c s IH]; simpl.
  - rewrite orb_false_r, startsWith_spec. split.
    + intros [b Hb]. exists EmptyString, b. exact Hb.
    + intros (a & b & Hab). destruct a; [eauto | discriminate].
  - rewrite orb_true_iff, startsWith_spec, IH. split.
    + intros [[b Hb] | (a & b & Hab)].
      * exists EmptyString, b. exact Hb.
      * exists (String c a), b. simpl. by rewrite Hab.
    + intros (a & b & Hab). destruct a as [|x a]; simpl in Hab.
      * left. eauto.
      * right. injection Hab as -> ->. eauto.
Qed.

(** ** The command filter *)

Lemma filter_sublist {A} (f : A -> bool) (l : list A) :
  sublist (List.filter f l) l.
Proof.
  induction l as [|x l IH]; simpl; [constructor|].
  destruct (f x); by constructor.
Qed.

(** Every keyword of the registry is written in lower case. *)
Lemma keywords_lower (cmd : SlashCommand.t) (kw : string) :
  cmd ∈ slashCommands -> kw ∈ SlashCommand.keywords cmd ->
  Str.toLowerCase kw = kw.
Proof.
  intros Hc Hk.
  assert (Hall : forallb (fun c => forallb (fun k => String.eqb (Str.toLowerCase k) k)
                                     (SlashCommand.keywords c)) slashCommands = true)
    by reflexivity.
  rewrite forallb_forall in Hall. apply list_elem_of_In in Hc.
  specialize (Hall cmd Hc). rewrite forallb_forall in Hall.
  apply String.eqb_eq. apply Hall. by apply list_elem_of_In.
Qed.

Lemma commandMatches_spec (query : string) (cmd : SlashCommand.t) :
  cmd ∈ slashCommands ->
  commandMatches query cmd = true <-> matchesQuery query cmd.
Proof.
  intros Hc. unfold commandMatches, matchesQuery.
  rewrite !orb_true_iff, !includes_spec, existsb_exists. split.
  - intros [[Hl|Hd]|(kw & Hkw & Hi)]; auto.
    right. right. exists kw. apply list_elem_of_In in Hkw.
    rewrite (keywords_lower cmd kw Hc Hkw). split; [done|].
    by apply includes_spec.
  - intros [Hl|[Hd|(kw & Hkw & Hi)]]; auto.
    right. exists kw. rewrite (keywords_lower cmd kw Hc Hkw) in Hi.
    split; [by apply list_elem_of_In | by apply includes_spec].
Qed.

(** C6. Command filter: for every query the filter returns exactly the
    registered commands whose lower-cased label, description or some
    keyword contains the lower-cased query as a substring, in registry
    order (the result is a subsequence of the registry).  The empty
    query returns the whole registry, and the query head returns the
    three heading commands h1, h2, h3 in that order and nothing else. *)
Theorem filteredCommands_spec :
  (forall (query : string) (cmd : SlashCommand.t),
      cmd ∈ filteredCommands query
      <-> cmd ∈ slashCommands /\ matchesQuery query cmd)
  /\ (forall query : string, sublist (filteredCommands query) slashCommands)
  /\ filteredCommands EmptyString = slashCommands
  /\ List.map SlashCommand.id (filteredCommands "head") = [h1; h2; h3]
  /\ forall query : string,
       filteredCommands (Str.toLowerCase query) = filteredCommands query.
Proof.
  split; [|split; [|split; [|split]]].
  - intros query cmd. unfold filteredCommands.
    rewrite !list_elem_of_In, filter_In.
    split; intros [Hc Hm]; (split; [done|]);
      apply commandMatches_spec; auto; by apply list_elem_of_In.
  - intros query. apply filter_sublist.
  - reflexivity.
  - reflexivity.
  - intros query. unfold filteredCommands, commandMatches.
    assert (Hidem : forall s, Str.toLowerCase (Str.toLowerCase s) = Str.toLowerCase s).
    { induction s as [|c s IH]; simpl; [reflexivity|]. rewrite IH. f_equal.
      assert (Hc : forallb (fun n => let c := ascii_of_nat n in
                              Ascii.eqb (Str.lower_char (Str.lower_char c))
                                        (Str.lower_char c))
                     (seq 0 256) = true) by (vm_compute; reflexivity).
      rewrite forallb_forall in Hc.
      specialize (Hc (nat_of_ascii c)). rewrite ascii_nat_embedding in Hc.
      apply Ascii.eqb_eq. apply Hc. apply in_seq.
      pose proof (nat_ascii_bounded c). lia. }
    by rewrite Hidem.
Qed.

(** ** The slash trigger *)

Lemma stripTrailingNewlines_spec (text : string) :
  exists nl, text = stripTrailingNewlines text +:+ nl
             /\ allNewlines nl
             /\ ~ endsWithNewline (stripTrailingNewlines text).
Proof.
  induction text as [|c text (nl & Htext & Hnl & Hend)]; simpl.
  - exists EmptyString. repeat split.
    + intros j x Hx. destruct j; discriminate.
    + intros (s' & x & Hs & _). destruct s'; discriminate.
  - destruct (stripTrailingNewlines text) as [|a r] eqn:E.
    + simpl in Htext. subst text. destruct (isNewline c) eqn:Hc.
      * exists (String c nl). repeat split.
        -- intros [|j] x Hx; simpl in Hx; [congruence | eauto].
        -- intros (s' & x & Hs & _). destruct s'; discriminate.
      * exists nl. repeat split; auto.
        intros (s' & x & Hs & Hx). destruct s' as [|y s']; simpl in Hs.
        -- congruence.
        -- destruct s'; discriminate.
    + exists nl. repeat split; auto.
      * simpl. by rewrite Htext at 1.
      * intros (s' & x & Hs & Hx). destruct s' as [|y s']; simpl in Hs.
        -- discriminate.
        -- apply Hend. exists s', x. split; [congruence | done].
Qed.

Lemma lastIndexOf_from_spec (c : ascii) (s : string) (i : Z) :
  (0 <= i)%Z ->
  (Str.lastIndexOf_from i c s = (-1)%Z /\ lacks c s)
  \/ exists p, Str.lastIndexOf_from i c s = (i + Z.of_nat p)%Z /\ lastAt c s p.
Proof.
  revert i. induction s as [|b s IH]; intros i Hi; simpl.
  - left. split; [reflexivity|]. intros j. destruct j; discriminate.
  - destruct (IH (i + 1)%Z ltac:(lia)) as [[Hr Hl] | (p & Hr & Hget & Hlast)].
    + rewrite Hr. simpl. destruct (Ascii.eqb b c) eqn:Hb.
      * right. exists 0. apply Ascii.eqb_eq in Hb as ->.
        split; [f_equal; lia|]. split; [reflexivity|].
        intros [|j] Hj; [lia|]. simpl. apply Hl.
      * left. split; [reflexivity|]. intros [|j]; simpl; [|apply Hl].
        intros [= ->]. by rewrite Ascii.eqb_refl in Hb.
    + right. exists (S p). rewrite Hr.
      destruct (_ =? _)%Z eqn:E; [apply Z.eqb_eq in E; lia|].
      split; [lia|]. split; [exact Hget|].
      intros [|j] Hj; [lia|]. simpl. apply Hlast. lia.
Qed.

Lemma lastAt_unique (c : ascii) (s : string) (p p' : nat) :
  lastAt c s p -> lastAt c s p' -> p = p'.
Proof.
  intros [Hp Hlast] [Hp' Hlast'].
  destruct (lt_eq_lt_dec p p') as [[Hlt|Heq]|Hgt]; auto.
  - exfalso. by apply (Hlast p').
  - exfalso. by apply (Hlast' p).
Qed.

Lemma includes_char (s : string) (c : ascii) :
  Str.includes s (String c EmptyString) = false <-> lacks c s.
Proof.
  unfold lacks. induction s as [|b s IH]; simpl.
  - split; [|reflexivity]. intros _ j. destruct j; discriminate.
  - rewrite andb_true_r, orb_false_iff, IH. split.
    + intros [Hb Hs] [|j]; simpl; [|apply Hs].
      intros [= ->]. by rewrite Ascii.eqb_refl in Hb.
    + intros Hall. split.
      * destruct (Ascii.eqb c b) eqn:E; [|reflexivity].
        apply Ascii.eqb_eq in E as ->. by destruct (Hall 0).
      * intros j. apply (Hall (S j)).
Qed.

(** C7. Slash-trigger transition.  After a buffer change the handler
    works on b, the text with its trailing line feeds and carriage
    returns stripped.  When b is empty the menu is closed, the query
    and the offset are cleared, and a selected block variant is cleared
    with the default placeholder restored.  Otherwise the menu is open
    with query Q and offset p exactly when p is the index of the last
    slash of b and Q, the text after that slash, holds no space; in
    every other case the menu is closed, the query empty and the offset
    cleared.  The selected variant is untouched when b is not empty. *)
Theorem handleInput_transition :
  forall (s : SectionInput) (el : Paragraph),
    contentRef s = Some el ->
    let b := stripTrailingNewlines (innerText el) in
    let s' := handleInput s in
    (exists nl, innerText el = b +:+ nl /\ allNewlines nl /\ ~ endsWithNewline b)
    /\ (b = EmptyString ->
        showSlashMenu s' = false /\ slashQuery s' = EmptyString
        /\ slashPosition s' = (-1)%Z /\ selectedBlockType s' = None
        /\ (selectedBlockType s <> None ->
            contentRef s' = Some {| innerText := innerText el;
                                    dataPlaceholder := placeholder s |})
        /\ (selectedBlockType s = None -> contentRef s' = contentRef s))
    /\ (b <> EmptyString ->
        (forall (p : nat) (Q : string),
            showSlashMenu s' = true /\ slashQuery s' = Q
            /\ slashPosition s' = Z.of_nat p
            <-> lastAt slash b p /\ Q = Str.drop (S p) b /\ lacks space Q)
        /\ ((~ exists p, lastAt slash b p /\ lacks space (Str.drop (S p) b)) ->
            showSlashMenu s' = false /\ slashQuery s' = EmptyString
            /\ slashPosition s' = (-1)%Z)
        /\ selectedBlockType s' = selectedBlockType s
        /\ contentRef s' = contentRef s).
Proof.
  intros s el Hel b s'. split; [apply stripTrailingNewlines_spec|].
  subst s'. unfold handleInput. rewrite Hel. fold b. split.
  - intros ->. simpl.
    destruct (selectedBlockType s) eqn:Hsel; simpl; rewrite ?Hel; repeat split;
      try congruence; auto.
  - intros Hb.
    assert (Ht : Js.str_truthy b = true) by (destruct b; [congruence | reflexivity]).
    rewrite Ht. cbn [negb].
    unfold Str.lastIndexOf, Str.substring.
    destruct (lastIndexOf_from_spec slash b 0 ltac:(lia))
      as [[Hr Hl] | (p0 & Hr & Hlast)]; rewrite Hr.
    + (* no slash in the buffer *)
      simpl. split; [|split; [|split]]; try first [reflexivity | exact Hel].
      * intros p Q. split.
        -- intros (Hopen & _). discriminate.
        -- intros ([Hget _] & _). by destruct (Hl p).
      * intros _. repeat split; reflexivity.
    + replace (0 + Z.of_nat p0 =? -1)%Z with false
        by (symmetry; apply Z.eqb_neq; lia).
      cbn [negb].
      replace (Z.to_nat (0 + Z.of_nat p0 + 1)) with (S p0) by lia.
      destruct (Str.includes (Str.drop (S p0) b) (String space EmptyString)) eqn:Hsp;
        cbn [negb].
      * (* a space after the last slash *)
        assert (Hnot : ~ lacks space (Str.drop (S p0) b)).
        { intros Hlk. apply includes_char in Hlk. congruence. }
        simpl. split; [|split; [|split]]; try first [reflexivity | exact Hel].
        -- intros p Q. split.
           ++ intros (Hopen & _). discriminate.
           ++ intros (Hp & -> & HQ).
              rewrite (lastAt_unique _ _ _ _ Hp Hlast) in HQ. contradiction.
        -- intros _. repeat split; reflexivity.
      * (* the menu opens *)
        apply includes_char in Hsp.
        simpl. split; [|split; [|split]]; try first [reflexivity | exact Hel].
        -- intros p Q. split.
           ++ intros (_ & HQ & Hp). assert (p = p0) by lia. subst. auto.
           ++ intros (Hp & -> & _). rewrite (lastAt_unique _ _ _ _ Hp Hlast).
              repeat split; auto.
        -- intros Hnone. exfalso. apply Hnone. eauto.
Qed.

Lemma handleInput_witness :
  let el := {| innerText := "Hello /hea" +:+ String (ascii_of_nat 10) EmptyString;
               dataPlaceholder := "Heading 1" |} in
  let s := {| placeholder := "Type here"; contentRef := Some el;
              showSlashMenu := false; slashQuery := EmptyString;
              selectedBlockType := Some h1; slashPosition := (-1)%Z |} in
  showSlashMenu (handleInput s) = true
  /\ slashQuery (handleInput s) = "hea"
  /\ slashPosition (handleInput s) = 6%Z.
Proof.
  intros el s.
  pose proof (handleInput_transition s el eq_refl) as Ht.
  cbv zeta in Ht. destruct Ht as (_ & _ & Hopen).
  destruct Hopen as (Hiff & _); [discriminate|].
  apply (Hiff 6 "hea"). split; [split|split].
  - reflexivity.
  - intros j Hj. do 7 (destruct j as [|j]; [lia|]).
    do 4 (destruct j as [|j]; [discriminate|]). discriminate.
  - reflexivity.
  - intros j. do 3 (destruct j as [|j]; [discriminate|]). discriminate.
Defined.

(** ** Prefixes, [take], [drop] and [join] *)

Lemma take_drop (n : nat) (s : string) : Str.take n s +:+ Str.drop n s = s.
Proof.
  revert s. induction n as [|n IH]; intros [|c s]; simpl; try reflexivity.
  by rewrite IH.
Qed.

Lemma drop_app (a b : string) : Str.drop (String.length a) (a +:+ b) = b.
Proof. induction a as [|c a IH]; simpl; auto. Qed.

Lemma take_app (a b : string) : Str.take (String.length a) (a +:+ b) = a.
Proof. induction a as [|c a IH]; simpl; [by destruct b | by rewrite IH]. Qed.

Lemma drop_length (n : nat) (s : string) :
  String.length (Str.drop n s) = String.length s - n.
Proof.
  revert s. induction n as [|n IH]; intros [|c s]; simpl; auto; lia.
Qed.

Lemma take_all (n : nat) (s : string) :
  String.length s <= n -> Str.take n s = s.
Proof.
  revert s. induction n as [|n IH]; intros [|c s]; simpl; auto; try lia.
  intros Hn. rewrite IH; [reflexivity | lia].
Qed.

Lemma take_take_drop (n m : nat) (s : string) :
  Str.take n s +:+ Str.take m (Str.drop n s) = Str.take (n + m) s.
Proof.
  revert s. induction n as [|n IH]; intros s; simpl; [reflexivity|].
  destruct s as [|c s]; simpl; [by destruct m | by rewrite IH].
Qed.

Lemma length_zero (s : string) : String.length s = 0 -> s = EmptyString.
Proof. destruct s; [reflexivity | discriminate]. Qed.

Lemma join_app (l1 l2 : list string) :
  Str.join (l1 ++ l2) = Str.join l1 +:+ Str.join l2.
Proof.
  induction l1 as [|s l1 IH]; simpl; [reflexivity|].
  by rewrite IH, append_assoc.
Qed.

Lemma stripPrefix_spec (p s r : string) :
  stripPrefix p s = Some r <-> s = p +:+ r.
Proof.
  revert s. induction p as [|a p IH]; intros s; simpl.
  - split; congruence.
  - destruct s as [|b s]; [split; discriminate|].
    destruct (Ascii.eqb a b) eqn:E.
    + apply Ascii.eqb_eq in E as ->. rewrite IH. split; congruence.
    + split; [discriminate|]. intros [= -> _]. by rewrite Ascii.eqb_refl in E.
Qed.

Lemma isSubstring_app_l (q a s : string) : isSubstring q s -> isSubstring q (a +:+ s).
Proof.
  intros (x & y & ->). exists (a +:+ x), y. by rewrite append_assoc.
Qed.

Lemma isSubstring_app_r (q s b : string) : isSubstring q s -> isSubstring q (s +:+ b).
Proof.
  intros (x & y & ->). exists x, (y +:+ b). by rewrite !append_assoc.
Qed.

(** ** The marker pattern: what it matches *)

Lemma spanNotBrace_spec (s i r : string) :
  spanNotBrace s = (i, r) ->
  s = i +:+ r /\ lacks rbrace i.
Proof.
  revert i r. induction s as [|c s IH]; intros i r; simpl.
  - intros [= <- <-]. split; [reflexivity|]. intros j. destruct j; discriminate.
  - destruct (Ascii.eqb c rbrace) eqn:E.
    + intros [= <- <-]. split; [reflexivity|]. intros j. destruct j; discriminate.
    + destruct (spanNotBrace s) as [i' r'] eqn:Es. intros [= <- <-].
      destruct (IH i' r' eq_refl) as [-> Hl]. split; [reflexivity|].
      intros [|j]; simpl; [|apply Hl].
      intros [= ->]. by rewrite Ascii.eqb_refl in E.
Qed.

Lemma spanNotBrace_app (i r : string) :
  lacks rbrace i -> spanNotBrace (i +:+ String rbrace r) = (i, String rbrace r).
Proof.
  induction i as [|c i IH]; intros Hl; simpl.
  - reflexivity.
  - destruct (Ascii.eqb c rbrace) eqn:E.
    + apply Ascii.eqb_eq in E as ->. by destruct (Hl 0).
    + rewrite IH; [reflexivity|]. intros j. apply (Hl (S j)).
Qed.

Lemma matchId_sound (s uid r : string) :
  matchId s = Some (uid, r) ->
  s = uid +:+ "}}" +:+ r /\ uid <> EmptyString /\ lacks rbrace uid.
Proof.
  unfold matchId. destruct (spanNotBrace s) as [i r0] eqn:Es.
  apply spanNotBrace_spec in Es as [-> Hl].
  destruct i as [|c i]; cbn [Js.str_truthy]; [discriminate|].
  destruct (stripPrefix "}}" r0) as [r1|] eqn:Ep; cbn [option_map]; [|discriminate].
  intros [= <- <-]. apply stripPrefix_spec in Ep as ->.
  split; [reflexivity|]. split; [discriminate | exact Hl].
Qed.

Lemma matchId_complete (uid r : string) :
  uid <> EmptyString -> lacks rbrace uid ->
  matchId (uid +:+ "}}" +:+ r) = Some (uid, r).
Proof.
  intros Hne Hl. unfold matchId.
  change ("}}" +:+ r) with (String rbrace (String rbrace r)).
  rewrite spanNotBrace_app by exact Hl.
  destruct uid; [congruence|]. simpl. reflexivity.
Qed.

Lemma matchKind_sound (kinds : list string) (s k uid r : string) :
  matchKind kinds s = Some (k, uid, r) ->
  k ∈ kinds /\ s = k +:+ ":" +:+ uid +:+ "}}" +:+ r
  /\ uid <> EmptyString /\ lacks rbrace uid.
Proof.
  induction kinds as [|k0 kinds IH]; simpl; [discriminate|].
  destruct (stripPrefix (k0 +:+ ":") s) as [r0|] eqn:Ep.
  - destruct (matchId r0) as [[uid0 r1]|] eqn:Em.
    + intros [= <- <- <-]. apply stripPrefix_spec in Ep as ->.
      apply matchId_sound in Em as (-> & Hne & Hl).
      split; [constructor|]. rewrite append_assoc. auto.
    + intros Hk. destruct (IH Hk) as (Hin & Hs). split; [by constructor | done].
  - intros Hk. destruct (IH Hk) as (Hin & Hs). split; [by constructor | done].
Qed.

Lemma matchMarker_sound (s k uid r : string) :
  matchMarker s = Some (k, uid, r) ->
  k ∈ inlineKinds /\ s = marker k uid +:+ r
  /\ uid <> EmptyString /\ lacks rbrace uid.
Proof.
  unfold matchMarker. destruct (stripPrefix "{{" s) as [r0|] eqn:Ep; [|discriminate].
  intros Hk. apply stripPrefix_spec in Ep as ->.
  apply matchKind_sound in Hk as (Hin & -> & Hne & Hl).
  split; [done|]. split; [|done].
  unfold marker. by rewrite !append_assoc.
Qed.

Lemma matchMarker_complete (k uid r : string) :
  k ∈ inlineKinds -> uid <> EmptyString -> lacks rbrace uid ->
  matchMarker (marker k uid +:+ r) = Some (k, uid, r).
Proof.
  intros Hin Hne Hl. unfold marker. rewrite !append_assoc.
  pose proof (matchId_complete uid r Hne Hl) as Hid.
  unfold inlineKinds in Hin.
  cbn [String.append] in Hid.
  repeat (apply elem_of_cons in Hin as [-> | Hin]);
    [ | | | by apply elem_of_nil in Hin ];
    unfold matchMarker, inlineKinds;
    cbn [stripPrefix Ascii.eqb String.append Bool.eqb matchKind];
    by rewrite Hid.
Qed.

(** ** The search for the leftmost marker *)

Lemma marker_length (k uid : string) :
  String.length (marker k uid) = 5 + String.length k + String.length uid.
Proof.
  unfold marker. rewrite !append_length. simpl. lia.
Qed.

Lemma search_sound (s : string) (i : nat) (m : Match) :
  search s i = Some m ->
  exists a r,
    s = a +:+ whole m +:+ r
    /\ index m = i + String.length a
    /\ componentType m ∈ inlineKinds
    /\ uniqueId m <> EmptyString
    /\ lacks rbrace (uniqueId m)
    /\ whole m = marker (componentType m) (uniqueId m).
Proof.
  revert i. induction s as [|c s IH]; intros i.
  - simpl. discriminate.
  - cbn [search]. destruct (matchMarker (String c s)) as [[[k uid] r]|] eqn:Em.
    + intros [= <-]. apply matchMarker_sound in Em as (Hin & Hs & Hne & Hl).
      exists EmptyString, r. simpl. repeat split; auto.
    + intros Hm. destruct (IH _ Hm) as (a & r & -> & Hi & Hrest).
      exists (String c a), r. simpl. split; [reflexivity|]. split; [lia | exact Hrest].
Qed.

Lemma search_found (s k uid r : string) (i : nat) :
  matchMarker s = Some (k, uid, r) ->
  search s i = Some {| index := i; whole := marker k uid;
                       componentType := k; uniqueId := uid |}.
Proof. intros Hm. destruct s; cbn [search]; by rewrite Hm. Qed.

Lemma search_complete (a k uid b : string) (i : nat) :
  k ∈ inlineKinds -> uid <> EmptyString -> lacks rbrace uid ->
  search (a +:+ marker k uid +:+ b) i <> None.
Proof.
  intros Hin Hne Hl. revert i. induction a as [|c a IH]; intros i.
  - cbn [String.append].
    by rewrite (search_found _ _ _ _ i (matchMarker_complete k uid b Hin Hne Hl)).
  - cbn [String.append search].
    destruct (matchMarker _) as [[[k' uid'] r']|]; [discriminate | apply IH].
Qed.

Lemma search_none_no_token (s : string) :
  search s 0 = None <-> ~ containsToken s.
Proof.
  split.
  - intros Hs (t & (k & uid & Hin & Hne & Hl & ->) & (a & b & ->)).
    by apply (search_complete a k uid b 0 Hin Hne Hl).
  - intros Hno. destruct (search s 0) as [m|] eqn:E; [|reflexivity].
    exfalso. apply Hno.
    destruct (search_sound _ _ _ E) as (a & r & -> & _ & Hin & Hne & Hl & Hw).
    exists (whole m). split; [|by exists a, r].
    exists (componentType m), (uniqueId m). auto.
Qed.

Lemma exec_search (content : string) (lastIndex : nat) :
  lastIndex <= String.length content ->
  exec content lastIndex = search (Str.drop lastIndex content) lastIndex.
Proof.
  intros Hle. unfold exec.
  destruct (Nat.leb lastIndex (String.length content)) eqn:E; [reflexivity|].
  apply Nat.leb_gt in E. lia.
Qed.

(** A match found from [lastIndex] on: the text between, the match,
    and what remains. *)
Lemma exec_sound (content : string) (lastIndex : nat) (m : Match) :
  lastIndex <= String.length content ->
  exec content lastIndex = Some m ->
  exists a r,
    Str.drop lastIndex content = a +:+ whole m +:+ r
    /\ index m = lastIndex + String.length a
    /\ index m + String.length (whole m) <= String.length content
    /\ 0 < String.length (whole m)
    /\ Str.slice content lastIndex (index m) = a
    /\ componentType m ∈ inlineKinds
    /\ uniqueId m <> EmptyString
    /\ lacks rbrace (uniqueId m)
    /\ whole m = marker (componentType m) (uniqueId m).
Proof.
  intros Hle He. rewrite exec_search in He by exact Hle.
  destruct (search_sound _ _ _ He) as (a & r & Hd & Hi & Hin & Hne & Hl & Hw).
  exists a, r. split; [exact Hd|]. split; [exact Hi|].
  pose proof (drop_length lastIndex content) as Hlen.
  rewrite Hd, !append_length in Hlen.
  split; [lia|]. split; [rewrite Hw, marker_length; lia|].
  split; [|auto].
  unfold Str.slice. rewrite Hd, Hi.
  replace (lastIndex + String.length a - lastIndex) with (String.length a) by lia.
  apply take_app.
Qed.

Lemma component_text (m : Match) :
  componentType m ∈ inlineKinds ->
  whole m = marker (componentType m) (uniqueId m) ->
  partText (component m) = whole m
  /\ partWidget (component m) = Some (componentType m, uniqueId m).
Proof.
  intros Hin Hw. rewrite Hw. unfold component, inlineKinds in *.
  repeat (apply elem_of_cons in Hin as [-> | Hin]);
    [ | | | by apply elem_of_nil in Hin ]; simpl; auto.
Qed.

(** ** The parsing loop *)

(** What the loop keeps true: the parts built so far spell out the
    content up to [lastIndex]. *)
Lemma parseLoop_spells (fuel : nat) (content : string) (lastIndex : nat)
    (parts : list Part) :
  lastIndex <= String.length content ->
  Str.join (List.map partText parts) = Str.take lastIndex content ->
  fst (parseLoop fuel content lastIndex parts) <= String.length content
  /\ Str.join (List.map partText (snd (parseLoop fuel content lastIndex parts)))
     = Str.take (fst (parseLoop fuel content lastIndex parts)) content.
Proof.
  revert lastIndex parts. induction fuel as [|fuel IH]; intros li parts Hle Hj.
  - simpl. auto.
  - cbn [parseLoop]. destruct (exec content li) as [m|] eqn:He; [|simpl; auto].
    destruct (exec_sound _ _ _ Hle He)
      as (a & r & Hd & Hi & Hend & _ & Hsl & Hin & _ & _ & Hw).
    destruct (component_text m Hin Hw) as [Hct _].
    apply IH; [exact Hend|].
    rewrite map_app, join_app. cbn [List.map Str.join]. rewrite Hct, append_nil_r.
    assert (Hp : Str.join (List.map partText
                   (if Nat.ltb li (index m)
                    then parts ++ [Literal (Str.slice content li (index m))]
                    else parts))
                 = Str.take li content +:+ a).
    { destruct (Nat.ltb li (index m)) eqn:El.
      - rewrite map_app, join_app. cbn [List.map Str.join partText].
        by rewrite Hj, Hsl, append_nil_r.
      - apply Nat.ltb_ge in El. assert (Ha : String.length a = 0) by lia.
        apply length_zero in Ha. by rewrite Ha, Hj, append_nil_r. }
    rewrite Hp, Hi, append_assoc.
    rewrite <- Nat.add_assoc, <- take_take_drop, Hd.
    f_equal. rewrite <- append_length, <- append_assoc. symmetry. apply take_app.
Qed.

(** More fuel than the content is long changes nothing. *)
Lemma parseLoop_fuel (fuel extra : nat) (content : string) (lastIndex : nat)
    (parts : list Part) :
  lastIndex <= String.length content ->
  String.length content - lastIndex < fuel ->
  parseLoop (fuel + extra) content lastIndex parts
  = parseLoop fuel content lastIndex parts.
Proof.
  revert lastIndex parts. induction fuel as [|fuel IH]; intros li parts Hle Hf.
  - lia.
  - cbn [Nat.add parseLoop]. destruct (exec content li) as [m|] eqn:He; [|reflexivity].
    destruct (exec_sound _ _ _ Hle He) as (a & r & _ & Hi & Hend & Hpos & _).
    apply IH; [exact Hend | lia].
Qed.

(** C10. Decoding preserves the content: the literal segments of
    [parseContentWithInlineComponents s], each taken verbatim, and the
    token of each widget part, from its kind and its id, spell out s
    when put one after the other; a string that contains no well-formed
    token of a registered kind decodes to the single literal segment s.
    The loop has run to its end: more turns yield the same parts. *)
Theorem parse_preserves_content :
  forall s : string,
    Str.join (List.map partText (parseContentWithInlineComponents s)) = s
    /\ (~ containsToken s -> parseContentWithInlineComponents s = [Literal s])
    /\ (forall extra : nat,
          parseLoop (S (String.length s) + extra) s 0 []
          = parseLoop (S (String.length s)) s 0 []).
Proof.
  intros s. split; [|split].
  - unfold parseContentWithInlineComponents.
    destruct (parseLoop_spells (S (String.length s)) s 0 [] (Nat.le_0_l _) eq_refl)
      as [Hle Hj].
    destruct (parseLoop _ s 0 []) as [li parts]. cbn [fst snd] in *.
    destruct (Nat.ltb li (String.length s)) eqn:El.
    + assert (Hall : Str.join (List.map partText
                       (parts ++ [Literal (Str.drop li s)])) = s).
      { rewrite map_app, join_app. cbn [List.map Str.join partText].
        by rewrite Hj, append_nil_r, take_drop. }
      destruct (parts ++ [Literal (Str.drop li s)]) eqn:Ep; [|exact Hall].
      simpl. apply append_nil_r.
    + apply Nat.ltb_ge in El. rewrite take_all in Hj by exact El.
      destruct parts; [simpl; apply append_nil_r | exact Hj].
  - intros Hno. apply search_none_no_token in Hno.
    unfold parseContentWithInlineComponents. cbn [parseLoop].
    rewrite exec_search by lia. cbn [Str.drop]. rewrite Hno.
    destruct (Nat.ltb 0 (String.length s)); reflexivity.
  - intros extra. apply parseLoop_fuel; lia.
Qed.

Lemma parse_plain_witness :
  parseContentWithInlineComponents "plain {{foo:bar}} text"
  = [Literal "plain {{foo:bar}} text"].
Proof.
  apply (proj1 (proj2 (parse_preserves_content _))).
  apply search_none_no_token. reflexivity.
Defined.

(** ** Trimming around a token *)

Lemma trimStart_app (pre x : string) (c : ascii) :
  Str.isWhiteSpace c = false ->
  Str.trimStart (pre +:+ String c x) = Str.trimStart pre +:+ String c x.
Proof.
  intros Hc. induction pre as [|d pre IH]; simpl.
  - by rewrite Hc.
  - destruct (Str.isWhiteSpace d); [exact IH | reflexivity].
Qed.

Lemma trimEnd_app (y post : string) (c : ascii) :
  Str.isWhiteSpace c = false ->
  Str.trimEnd (y +:+ String c post) = y +:+ String c (Str.trimEnd post).
Proof.
  intros Hc. induction y as [|d y IH].
  - cbn [String.append Str.trimEnd]. rewrite Hc. by destruct (Str.trimEnd post).
  - cbn [String.append Str.trimEnd]. rewrite IH. by destruct y.
Qed.

Lemma trimStart_suffix (s : string) : exists w, s = w +:+ Str.trimStart s.
Proof.
  induction s as [|c s [w Hw]]; simpl.
  - by exists EmptyString.
  - destruct (Str.isWhiteSpace c).
    + exists (String c w). simpl. by rewrite <- Hw.
    + by exists EmptyString.
Qed.

Lemma trimEnd_prefix (s : string) : exists w, s = Str.trimEnd s +:+ w.
Proof.
  induction s as [|c s [w Hw]]; simpl.
  - by exists EmptyString.
  - destruct (Str.trimEnd s) as [|d r] eqn:E.
    + destruct (Str.isWhiteSpace c).
      * exists (String c s). reflexivity.
      * exists s. reflexivity.
    + exists w. simpl. by rewrite Hw at 1.
Qed.

Lemma marker_app (k uid post : string) :
  marker k uid +:+ post = "{{" +:+ k +:+ ":" +:+ uid +:+ "}}" +:+ post.
Proof. unfold marker. rewrite !append_assoc. reflexivity. Qed.

Lemma trim_marker (pre post k uid : string) :
  Str.trim (pre +:+ marker k uid +:+ post)
  = Str.trimStart pre +:+ marker k uid +:+ Str.trimEnd post.
Proof.
  unfold Str.trim. rewrite !marker_app.
  change ("{{" +:+ k +:+ ":" +:+ uid +:+ "}}" +:+ post)
    with (String "{" ("{" +:+ k +:+ ":" +:+ uid +:+ "}}" +:+ post)).
  rewrite trimStart_app by reflexivity.
  set (a := Str.trimStart pre).
  replace (a +:+ String "{" ("{" +:+ k +:+ ":" +:+ uid +:+ "}}" +:+ post))
    with ((a +:+ "{{" +:+ k +:+ ":" +:+ uid +:+ "}") +:+ String "}" post)
    by (rewrite !append_assoc; reflexivity).
  rewrite trimEnd_app by reflexivity.
  rewrite !append_assoc. reflexivity.
Qed.

(** ** Text without token openings *)

Lemma noOpener_app (a b : string) : noOpener (a +:+ b) -> noOpener a /\ noOpener b.
Proof.
  intros Hno. split; intros k Hk Hsub; apply (Hno k Hk).
  - by apply isSubstring_app_r.
  - by apply isSubstring_app_l.
Qed.

Lemma matchMarker_opener (s k uid r : string) :
  matchMarker s = Some (k, uid, r) ->
  k ∈ inlineKinds /\ Str.startsWith ("{{" +:+ k +:+ ":") s = true.
Proof.
  intros Hm. apply matchMarker_sound in Hm as (Hin & -> & _).
  split; [done|]. apply startsWith_spec.
  exists (uid +:+ "}}" +:+ r). unfold marker. by rewrite !append_assoc.
Qed.

Lemma startsWith_app_cases (o a rest : string) :
  Str.startsWith o (a +:+ rest) = true ->
  Str.startsWith o a = true
  \/ (String.length a < String.length o
      /\ Str.startsWith (Str.drop (String.length a) o) rest = true).
Proof.
  revert a. induction o as [|x o IH]; intros a; [by left|].
  destruct a as [|y a]; cbn [String.append].
  - intros Hs. right. split; [simpl; lia | exact Hs].
  - cbn [Str.startsWith]. rewrite andb_true_iff. intros [Hxy Ho].
    destruct (IH a Ho) as [Hl | [Hlen Hr]].
    + left. by rewrite Hxy.
    + right. split; [simpl; lia | exact Hr].
Qed.

(** A proper suffix of a token opening is not how a token begins. *)
Lemma opener_straddle (k x : string) (n : nat) :
  k ∈ inlineKinds -> 0 < n -> n < String.length ("{{" +:+ k +:+ ":") ->
  Str.startsWith (Str.drop n ("{{" +:+ k +:+ ":")) ("{{" +:+ x) = false.
Proof.
  intros Hin. unfold inlineKinds in Hin.
  repeat (apply elem_of_cons in Hin as [-> | Hin]);
    [ | | | by apply elem_of_nil in Hin ];
    intros H0 Hn; simpl in Hn;
    do 24 (destruct n as [|n]; [first [lia | reflexivity]|]); lia.
Qed.

Lemma matchMarker_before_token (c : ascii) (a x : string) :
  noOpener (String c a) ->
  matchMarker (String c a +:+ "{{" +:+ x) = None.
Proof.
  intros Hno.
  destruct (matchMarker _) as [[[k uid] r]|] eqn:Em; [|reflexivity].
  exfalso. apply matchMarker_opener in Em as [Hin Hs].
  apply startsWith_app_cases in Hs as [Hs | [Hlen Hs]].
  - apply (Hno k Hin). apply startsWith_spec in Hs as [b Hb].
    exists EmptyString, b. exact Hb.
  - rewrite opener_straddle in Hs; [discriminate | exact Hin | simpl; lia | exact Hlen].
Qed.

Lemma search_skip (a x : string) (i : nat) :
  noOpener a ->
  search (a +:+ "{{" +:+ x) i = search ("{{" +:+ x) (i + String.length a).
Proof.
  revert i. induction a as [|c a IH]; intros i Hno.
  - cbn [String.append String.length]. by rewrite Nat.add_0_r.
  - change (search (String c a +:+ "{{" +:+ x) i)
      with (match matchMarker (String c a +:+ "{{" +:+ x) with
            | Some (k, uid, _) =>
                Some {| index := i; whole := marker k uid;
                        componentType := k; uniqueId := uid |}
            | None => search (a +:+ "{{" +:+ x) (S i)
            end).
    rewrite (matchMarker_before_token c a x Hno).
    rewrite IH.
    + f_equal. simpl. lia.
    + apply (noOpener_app (String c EmptyString) a Hno).
Qed.

Lemma search_none_any_index (s : string) (i j : nat) :
  search s i = None -> search s j = None.
Proof.
  revert i j. induction s as [|c s IH]; intros i j; [reflexivity|].
  cbn [search]. destruct (matchMarker (String c s)) as [[[k uid] r]|];
    [discriminate | apply IH].
Qed.

Lemma search_no_token (s : string) (i : nat) :
  ~ containsToken s -> search s i = None.
Proof.
  intros Hno. apply (search_none_any_index s 0 i).
  by apply search_none_no_token.
Qed.

Lemma containsToken_app_r (s w : string) :
  containsToken s -> containsToken (s +:+ w).
Proof.
  intros (t & Ht & Hsub). exists t. split; [done | by apply isSubstring_app_r].
Qed.

(** ** One marker between two literal texts *)

Lemma lit_nonempty (s : string) :
  lit s = if Nat.ltb 0 (String.length s) then [Literal s] else [].
Proof. by destruct s. Qed.

Lemma parse_single_marker (a b k uid : string) :
  k ∈ inlineKinds -> uid <> EmptyString -> lacks rbrace uid ->
  noOpener a -> ~ containsToken b ->
  parseContentWithInlineComponents (a +:+ marker k uid +:+ b)
  = lit a
    ++ [component {| index := String.length a; whole := marker k uid;
                     componentType := k; uniqueId := uid |}]
    ++ lit b.
Proof.
  intros Hin Hne Hl Ha Hb.
  set (content := a +:+ marker k uid +:+ b).
  set (m := {| index := String.length a; whole := marker k uid;
               componentType := k; uniqueId := uid |}).
  assert (Hlen : String.length content
                 = String.length a + String.length (marker k uid) + String.length b).
  { unfold content. rewrite !append_length. lia. }
  pose proof (marker_length k uid) as Hml.
  (* the first turn finds the marker *)
  assert (He1 : exec content 0 = Some m).
  { rewrite exec_search by lia. cbn [Str.drop]. unfold content.
    rewrite marker_app. rewrite search_skip by exact Ha.
    rewrite <- marker_app.
    by rewrite (search_found _ _ _ _ (0 + String.length a)
                  (matchMarker_complete k uid b Hin Hne Hl)). }
  (* the second turn finds nothing *)
  assert (He2 : exec content (String.length a + String.length (marker k uid)) = None).
  { rewrite exec_search by lia.
    replace (Str.drop _ content) with b; [by apply search_no_token|].
    unfold content. rewrite <- append_length, <- append_assoc.
    symmetry. apply drop_app. }
  assert (Hs : Str.slice content 0 (String.length a) = a).
  { unfold Str.slice. cbn [Str.drop]. rewrite Nat.sub_0_r. apply take_app. }
  assert (Hd : Str.drop (String.length a + String.length (marker k uid)) content = b).
  { unfold content. rewrite <- append_length, <- append_assoc. apply drop_app. }
  unfold parseContentWithInlineComponents.
  destruct (String.length content) as [|n] eqn:En; [lia|].
  cbn [parseLoop]. rewrite He1. cbn [index whole m]. rewrite He2, Hs, Hd.
  rewrite !lit_nonempty.
  replace (Nat.ltb (String.length a + String.length (marker k uid)) (S n))
    with (Nat.ltb 0 (String.length b)).
  2:{ destruct (Nat.ltb 0 (String.length b)) eqn:E1; symmetry.
      - apply Nat.ltb_lt in E1. apply Nat.ltb_lt. lia.
      - apply Nat.ltb_ge in E1. apply Nat.ltb_ge. lia. }
  destruct (Nat.ltb 0 (String.length a)), (Nat.ltb 0 (String.length b)); reflexivity.
Qed.

Lemma registered_kind_truthy (k : string) :
  k ∈ inlineKinds -> Js.str_truthy k = true.
Proof.
  intros Hin. unfold inlineKinds in Hin.
  repeat (apply elem_of_cons in Hin as [-> | Hin]); try reflexivity.
  by apply elem_of_nil in Hin.
Qed.

Lemma processNode_regular (ct cid : option string) (children : list Node) :
  Js.opt_truthy ct && Js.opt_truthy cid = false ->
  processNode (ElementNode ct cid children)
  = Str.join (List.map processNode children).
Proof.
  destruct ct as [ct|], cid as [cid|]; cbn [processNode Js.opt_truthy]; try reflexivity.
  by intros ->.
Qed.

Lemma holdsMarker_text (K I : string) (nodes : list Node) (pre post : string) :
  Js.str_truthy K = true -> Js.str_truthy I = true ->
  holdsMarker K I nodes pre post ->
  Str.join (List.map processNode nodes) = pre +:+ marker K I +:+ post.
Proof.
  intros HK HI Hh.
  induction Hh as [before kids after
                  | before ct cid children after pre post Hreg Hh IH];
    rewrite map_app, join_app; cbn [List.map Str.join].
  - cbn [processNode]. by rewrite HK, HI.
  - rewrite (processNode_regular _ _ _ Hreg), IH. by rewrite !append_assoc.
Qed.

(** ** The first token of a content *)

Lemma app_prefix_split (x y u v : string) :
  x +:+ y = u +:+ v -> String.length u <= String.length x ->
  exists z, x = u +:+ z /\ v = z +:+ y.
Proof.
  revert x. induction u as [|c u IH]; intros x Heq Hle.
  - exists x. split; [reflexivity | by symmetry].
  - destruct x as [|d x]; [simpl in Hle; lia|].
    cbn [String.append] in Heq. injection Heq as -> Heq.
    destruct (IH x Heq) as (z & -> & ->); [simpl in Hle; lia|].
    exists z. by split.
Qed.

Lemma app_last_split (u y z : string) (c : ascii) :
  u +:+ String c EmptyString = y +:+ z -> z <> EmptyString ->
  exists z', z = z' +:+ String c EmptyString.
Proof.
  revert u. induction y as [|d y IH]; intros u Heq Hz.
  - exists u. by symmetry.
  - destruct u as [|e u]; cbn [String.append] in Heq.
    + injection Heq as _ Heq. by destruct y, z.
    + injection Heq as _ Heq. by apply (IH u).
Qed.

Lemma marker_ends (k uid : string) :
  marker k uid = ("{{" +:+ k +:+ ":" +:+ uid +:+ "}") +:+ "}".
Proof. unfold marker. by rewrite !append_assoc. Qed.

(** The search passes over a text at no place of which the pattern
    matches. *)
Lemma search_skip_to (a x : string) (i : nat) :
  (forall a1 b, a = a1 +:+ b -> b <> EmptyString ->
                matchMarker (b +:+ x) = None) ->
  search (a +:+ x) i = search x (i + String.length a).
Proof.
  revert i. induction a as [|c a IH]; intros i Hno.
  - cbn [String.append String.length]. by rewrite Nat.add_0_r.
  - change (search (String c a +:+ x) i)
      with (match matchMarker (String c a +:+ x) with
            | Some (k, uid, _) =>
                Some {| index := i; whole := marker k uid;
                        componentType := k; uniqueId := uid |}
            | None => search (a +:+ x) (S i)
            end).
    rewrite (Hno EmptyString (String c a) eq_refl) by discriminate.
    rewrite IH.
    + f_equal. simpl. lia.
    + intros a1 b -> Hb. by apply (Hno (String c a1) b).
Qed.

(** The search stops at a well-formed token or before it. *)
Lemma search_leftmost (a t r : string) (i : nat) :
  wellFormedToken t ->
  exists m, search (a +:+ t +:+ r) i = Some m /\ index m <= i + String.length a.
Proof.
  intros (k & uid & Hin & Hne & Hl & ->). revert i.
  induction a as [|c a IH]; intros i.
  - cbn [String.append].
    rewrite (search_found _ _ _ _ i (matchMarker_complete k uid r Hin Hne Hl)).
    eexists. split; [reflexivity|]. simpl. lia.
  - cbn [String.append search].
    destruct (matchMarker _) as [[[k' uid'] r']|].
    + eexists. split; [reflexivity|]. simpl. lia.
    + destruct (IH (S i)) as (m & Hm & Hi). exists m. split; [exact Hm|].
      simpl. lia.
Qed.

(** The loop only appends. *)
Lemma parseLoop_extends (fuel : nat) (content : string) (lastIndex : nat)
    (parts : list Part) :
  exists more, snd (parseLoop fuel content lastIndex parts) = parts ++ more.
Proof.
  revert lastIndex parts. induction fuel as [|fuel IH]; intros li parts.
  - exists []. by rewrite app_nil_r.
  - cbn [parseLoop]. destruct (exec content li) as [m|];
      [|exists []; by rewrite app_nil_r].
    destruct (IH (index m + String.length (whole m))
                ((if Nat.ltb li (index m)
                  then parts ++ [Literal (Str.slice content li (index m))]
                  else parts) ++ [component m])) as [more Hmore].
    rewrite Hmore. destruct (Nat.ltb li (index m)); rewrite <- ?app_assoc; eauto.
Qed.

(** The decoded parts begin with the text before the first match, when
    there is some, and the widget of that match. *)
Lemma parse_first (content : string) (m : Match) :
  search content 0 = Some m ->
  exists rest,
    parseContentWithInlineComponents content
    = lit (Str.take (index m) content) ++ component m :: rest.
Proof.
  intros Hs.
  destruct (search_sound _ _ _ Hs) as (a & r & Hc & Hi & _).
  cbn [Nat.add] in Hi.
  assert (Ht : Str.take (index m) content = a).
  { rewrite Hc, Hi. apply take_app. }
  unfold parseContentWithInlineComponents. cbn [parseLoop].
  rewrite exec_search by lia. cbn [Str.drop]. rewrite Hs.
  unfold Str.slice. cbn [Str.drop]. rewrite Nat.sub_0_r, Ht.
  assert (Hp : (if Nat.ltb 0 (index m) then [] ++ [Literal a] else []) = lit a).
  { rewrite Hi. by destruct a. }
  rewrite Hp.
  destruct (parseLoop_extends (String.length content) content
              (index m + String.length (whole m)) (lit a ++ [component m]))
    as [more Hmore].
  destruct (parseLoop _ content _ (lit a ++ [component m])) as [li parts].
  cbn [snd] in Hmore. subst parts.
  exists (more ++ if Nat.ltb li (String.length content)
                  then [Literal (Str.drop li content)] else []).
  destruct (Nat.ltb li (String.length content));
    rewrite <- ?app_assoc; cbn [app]; rewrite ?app_nil_r;
    by destruct (lit a).
Qed.

(** One marker between two texts, when the pattern matches at no place
    of the text before it and the text after it holds no token. *)
Lemma parse_marker_between (a b k uid : string) :
  k ∈ inlineKinds -> uid <> EmptyString -> lacks rbrace uid ->
  (forall a1 x, a = a1 +:+ x -> x <> EmptyString ->
                matchMarker (x +:+ marker k uid +:+ b) = None) ->
  ~ containsToken b ->
  parseContentWithInlineComponents (a +:+ marker k uid +:+ b)
  = lit a
    ++ [component {| index := String.length a; whole := marker k uid;
                     componentType := k; uniqueId := uid |}]
    ++ lit b.
Proof.
  intros Hin Hne Hl Ha Hb.
  set (content := a +:+ marker k uid +:+ b).
  set (m := {| index := String.length a; whole := marker k uid;
               componentType := k; uniqueId := uid |}).
  assert (Hlen : String.length content
                 = String.length a + String.length (marker k uid) + String.length b).
  { unfold content. rewrite !append_length. lia. }
  pose proof (marker_length k uid) as Hml.
  assert (He1 : exec content 0 = Some m).
  { rewrite exec_search by lia. cbn [Str.drop]. unfold content.
    rewrite search_skip_to by exact Ha.
    by rewrite (search_found _ _ _ _ (0 + String.length a)
                  (matchMarker_complete k uid b Hin Hne Hl)). }
  assert (He2 : exec content (String.length a + String.length (marker k uid)) = None).
  { rewrite exec_search by lia.
    replace (Str.drop _ content) with b; [by apply search_no_token|].
    unfold content. rewrite <- append_length, <- append_assoc.
    symmetry. apply drop_app. }
  assert (Hs : Str.slice content 0 (String.length a) = a).
  { unfold Str.slice. cbn [Str.drop]. rewrite Nat.sub_0_r. apply take_app. }
  assert (Hd : Str.drop (String.length a + String.length (marker k uid)) content = b).
  { unfold content. rewrite <- append_length, <- append_assoc. apply drop_app. }
  unfold parseContentWithInlineComponents.
  destruct (String.length content) as [|n] eqn:En; [lia|].
  cbn [parseLoop]. rewrite He1. cbn [index whole m]. rewrite He2, Hs, Hd.
  rewrite !lit_nonempty.
  replace (Nat.ltb (String.length a + String.length (marker k uid)) (S n))
    with (Nat.ltb 0 (String.length b)).
  2:{ destruct (Nat.ltb 0 (String.length b)) eqn:E1; symmetry.
      - apply Nat.ltb_lt in E1. apply Nat.ltb_lt. lia.
      - apply Nat.ltb_ge in E1. apply Nat.ltb_ge. lia. }
  destruct (Nat.ltb 0 (String.length a)), (Nat.ltb 0 (String.length b)); reflexivity.
Qed.

(** A token that begins in a text begins after the white space that
    opens the text, and ends before the white space that closes what
    follows. *)
Lemma token_within_trim (pre mid post a t r : string) :
  wellFormedToken t ->
  pre +:+ mid +:+ post = a +:+ t +:+ r ->
  String.length a < String.length pre ->
  exists a' r',
    Str.trimStart pre +:+ mid +:+ Str.trimEnd post = a' +:+ t +:+ r'
    /\ String.length a' < String.length (Str.trimStart pre).
Proof.
  intros (k & uid & Hin & Hne & Hl & ->) Heq Hlt.
  destruct (app_prefix_split pre (mid +:+ post) a (marker k uid +:+ r) Heq)
    as (z & Hpre & Hz); [lia|].
  destruct z as [|c z].
  { rewrite Hpre, append_length in Hlt. simpl in Hlt. lia. }
  assert (Hc : c = "{"%char).
  { unfold marker in Hz. cbn [String.append] in Hz. by injection Hz as <- _. }
  subst c.
  assert (Hpre' : Str.trimStart pre = Str.trimStart a +:+ String "{" z).
  { rewrite Hpre. by apply trimStart_app. }
  destruct (trimEnd_prefix post) as [w2 Hw2].
  set (y := String "{" z +:+ mid +:+ Str.trimEnd post).
  assert (Hy : marker k uid +:+ r = y +:+ w2).
  { rewrite Hz. unfold y. rewrite !append_assoc. by rewrite <- Hw2. }
  assert (Hin_y : exists r', y = marker k uid +:+ r').
  { destruct (Nat.le_gt_cases (String.length (marker k uid)) (String.length y))
      as [Hle|Hgt].
    - destruct (app_prefix_split y w2 (marker k uid) r (eq_sym Hy) Hle)
        as (z2 & Hz2 & _). by exists z2.
    - exfalso.
      destruct (app_prefix_split (marker k uid) r y w2 Hy) as (z3 & Ht & Hw); [lia|].
      assert (Hz3 : z3 <> EmptyString).
      { intros ->. rewrite Ht, append_nil_r in Hgt. lia. }
      rewrite marker_ends in Ht.
      destruct (app_last_split _ _ _ _ Ht Hz3) as [z4 ->].
      pose proof (trimEnd_app (Str.trimEnd post +:+ z4) r "}" eq_refl) as Htrim.
      rewrite append_assoc in Hw. cbn [String.append] in Hw.
      rewrite append_assoc, <- Hw, <- Hw2 in Htrim.
      apply (f_equal String.length) in Htrim.
      rewrite !append_length in Htrim. simpl in Htrim. lia. }
  destruct Hin_y as [r' Hr'].
  exists (Str.trimStart a), r'. split.
  - rewrite Hpre', append_assoc. fold y. by rewrite Hr'.
  - rewrite Hpre', append_length. simpl. lia.
Qed.

Lemma component_widget (m : Match) (s : string) :
  componentType m ∈ inlineKinds ->
  whole m = marker (componentType m) (uniqueId m) ->
  component m <> Literal s.
Proof.
  intros Hin Hw Heq. destruct (component_text m Hin Hw) as [_ Hp].
  rewrite Heq in Hp. discriminate.
Qed.

(** C5 (amended). Marker round trip: for every registered inline kind
    K and every instance id I that is not empty and holds no closing
    brace, take content that holds one widget marker of kind K and id
    I, where no well-formed token begins in the text before the marker
    and the text after it holds no well-formed token.  Decoding its
    encoding yields the text before the marker without its leading
    white space (left out when empty), then exactly one widget, of kind
    K and id I, then the text after the marker without its trailing
    white space (left out when empty): nothing of the token is left in
    the literal segments.  The condition on the text before the marker
    is the weakest one: when a well-formed token does begin there, the
    decoding is not of this form. *)
Theorem marker_round_trip :
  forall (K I : string) (ct cid : option string) (childNodes : list Node)
         (pre post : string),
    K ∈ inlineKinds -> I <> EmptyString -> lacks rbrace I ->
    holdsMarker K I childNodes pre post ->
    ~ containsToken post ->
    noTokenBegins pre (marker K I +:+ post)
    <-> exists w : Part,
          parseContentWithInlineComponents
            (extractContentWithMarkers (ElementNode ct cid childNodes))
          = lit (Str.trimStart pre) ++ [w] ++ lit (Str.trimEnd post)
          /\ partWidget w = Some (K, I).
Proof.
  intros K I ct cid childNodes pre post Hin Hne Hl Hh Hpost.
  assert (Henc : extractContentWithMarkers (ElementNode ct cid childNodes)
                 = Str.trimStart pre +:+ marker K I +:+ Str.trimEnd post).
  { cbn [extractContentWithMarkers].
    rewrite (holdsMarker_text K I childNodes pre post); [apply trim_marker | | | exact Hh].
    - by apply registered_kind_truthy.
    - by destruct I. }
  rewrite Henc.
  destruct (trimStart_suffix pre) as [w1 Hw1].
  destruct (trimEnd_prefix post) as [w2 Hw2].
  assert (Hb : ~ containsToken (Str.trimEnd post)).
  { intros Hc. apply Hpost. rewrite Hw2. by apply containsToken_app_r. }
  split.
  - intros Hpre.
    assert (Ha : forall a1 x, Str.trimStart pre = a1 +:+ x -> x <> EmptyString ->
                   matchMarker (x +:+ marker K I +:+ Str.trimEnd post) = None).
    { intros a1 x Hsplit Hx.
      destruct (matchMarker _) as [[[k uid] r]|] eqn:Em; [|reflexivity].
      exfalso. apply matchMarker_sound in Em as (Hk & Hs & Hu & Hlu).
      assert (Hle : String.length pre <= String.length (w1 +:+ a1)).
      { apply (Hpre (w1 +:+ a1) (marker k uid) (r +:+ w2)).
        - exists k, uid. auto.
        - rewrite Hw1 at 1. rewrite Hw2 at 1. rewrite Hsplit.
          rewrite !append_assoc. rewrite <- (append_assoc (marker k uid)), <- Hs.
          by rewrite !append_assoc. }
      rewrite Hw1, Hsplit, !append_length in Hle.
      destruct x; [done | simpl in Hle; lia]. }
    rewrite (parse_marker_between _ _ K I Hin Hne Hl Ha Hb).
    eexists. split; [reflexivity|].
    by apply component_text.
  - intros (w & Hparse & Hw) a t r Ht Heq.
    destruct (Nat.le_gt_cases (String.length pre) (String.length a)) as [Hle|Hgt];
      [exact Hle|].
    exfalso.
    destruct (token_within_trim pre (marker K I) post a t r Ht Heq Hgt)
      as (a' & r' & Heq' & Hlt').
    destruct (search_leftmost a' t r' 0 Ht) as (m & Hm & Hi).
    rewrite <- Heq' in Hm. cbn [Nat.add] in Hi.
    destruct (parse_first _ _ Hm) as [rest Hfirst].
    destruct (search_sound _ _ _ Hm) as (a0 & r0 & Hc0 & Hi0 & Hk0 & _ & _ & Hw0).
    cbn [Nat.add] in Hi0.
    assert (Ht0 : Str.take (index m)
                    (Str.trimStart pre +:+ marker K I +:+ Str.trimEnd post) = a0).
    { rewrite Hc0, Hi0. apply take_app. }
    rewrite Ht0, Hparse in Hfirst.
    destruct (Str.trimStart pre) as [|c p] eqn:Ep; [simpl in Hlt'; lia|].
    cbn [lit app] in Hfirst.
    destruct a0 as [|c0 a0]; cbn [lit app] in Hfirst.
    + injection Hfirst as Hfirst _. symmetry in Hfirst.
      by apply component_widget in Hfirst.
    + injection Hfirst as _ Ha0 _. subst a0. simpl in Hi0, Hlt'. lia.
Qed.

(** A text that holds no opening brace pair followed by a kind name. *)
Ltac no_opener :=
  let k := fresh "k" in
  let Hk := fresh "Hk" in
  let Hsub := fresh "Hsub" in
  intros k Hk Hsub; apply includes_spec in Hsub; unfold inlineKinds in Hk;
  repeat (apply elem_of_cons in Hk as [-> | Hk]);
  [ discriminate | discriminate | discriminate | by apply elem_of_nil in Hk ].

(** Whether a token begins in a text can be read off the search. *)
Lemma noTokenBegins_search (pre next : string) :
  match search (pre +:+ next) 0 with
  | Some m => Nat.leb (String.length pre) (index m)
  | None => true
  end = true ->
  noTokenBegins pre next.
Proof.
  intros Hs a t r Ht Heq.
  destruct (search_leftmost a t r 0 Ht) as (m & Hm & Hi).
  rewrite Heq, Hm in Hs. apply Nat.leb_le in Hs. cbn [Nat.add] in Hi. lia.
Qed.

Lemma marker_round_trip_witness :
  let widget :=
    ElementNode (Some "inlineScrubbleNumber") (Some "n-1") [TextNode "10"] in
  let bold := ElementNode None None [TextNode "Total: "; widget] in
  exists w : Part,
    parseContentWithInlineComponents
      (extractContentWithMarkers
         (ElementNode None None
            [TextNode "  {{inlineDropdown:a} has "; bold; TextNode " apples  "]))
    = [Literal "{{inlineDropdown:a} has Total: "; w; Literal " apples"]
    /\ partWidget w = Some ("inlineScrubbleNumber", "n-1").
Proof.
  intros widget bold.
  apply (proj1 (marker_round_trip "inlineScrubbleNumber" "n-1" None None
                  [TextNode "  {{inlineDropdown:a} has "; bold; TextNode " apples  "]
                  "  {{inlineDropdown:a} has Total: " " apples  "
                  ltac:(unfold inlineKinds; apply list_elem_of_here)
                  ltac:(discriminate)
                  ltac:(intros j; do 3 (destruct j as [|j]; [discriminate|]);
                        discriminate)
                  ltac:(apply (marker_inside _ _ [TextNode "  {{inlineDropdown:a} has "]
                                 None None [TextNode "Total: "; widget]
                                 [TextNode " apples  "] "Total: " EmptyString eq_refl);
                        apply (marker_here _ _ [TextNode "Total: "] [TextNode "10"] []))
                  ltac:(apply search_none_no_token; reflexivity))).
  apply noTokenBegins_search. reflexivity.
Defined.

(** C5, as stated, fails in two ways.  The encoding is trimmed, so a
    space that follows the marker at the end of the content (the
    editor inserts one after every widget) is not preserved; and an
    unterminated token opening in the text before the marker swallows
    the marker, so that the one widget decoded has another kind and
    another id. *)
Lemma marker_round_trip_counterexample :
  let spaced :=
    ElementNode None None
      [TextNode "Total: ";
       ElementNode (Some "inlineScrubbleNumber") (Some "n-1") [TextNode "10"];
       TextNode " "] in
  let opened :=
    ElementNode None None
      [TextNode "{{inlineDropdown:x";
       ElementNode (Some "inlineTextInput") (Some "t1") []] in
  parseContentWithInlineComponents (extractContentWithMarkers spaced)
  = [Literal "Total: "; InlineScrubbleNumberEl "n-1" "var_n-1" 10 0 100]
  /\ omap partWidget
       (parseContentWithInlineComponents (extractContentWithMarkers opened))
     = [("inlineDropdown", "x{{inlineTextInput:t1")].
Proof. split; reflexivity. Qed.

(** * Further properties *)

(** ** The last entry of a ledger *)

Lemma findIndex_snoc {A} (p : A -> bool) (l : list A) (x : A) :
  Js.findIndex p (l ++ [x])
  = match Js.findIndex p l with
    | Some i => Some i
    | None => if p x then Some (length l) else None
    end.
Proof.
  induction l as [|a l IH]; simpl.
  - by destruct (p x).
  - destruct (p a); [reflexivity|]. rewrite IH.
    destruct (Js.findIndex p l); [reflexivity|]. by destruct (p x).
Qed.

Lemma delete_snoc {A} (l : list A) (x : A) : base.delete (length l) (l ++ [x]) = l.
Proof. induction l as [|a l IH]; simpl; [reflexivity | by rewrite IH]. Qed.

Lemma insert_snoc {A} (l : list A) (x y : A) :
  <[length l := y]> (l ++ [x]) = l ++ [y].
Proof. induction l as [|a l IH]; simpl; [reflexivity | by rewrite IH]. Qed.

Lemma lookup_snoc {A} (l : list A) (x : A) : (l ++ [x]) !! length l = Some x.
Proof. induction l as [|a l IH]; simpl; [reflexivity | exact IH]. Qed.

(** ** Identifiers, removal, and how the add operations compose *)

Section LedgerMore.
Context {num : Type} `{JsNumber num}.

Implicit Types (l prev : list (PendingEdit num)) (e : PendingEdit num).

Lemma uniqueIds_NoDup l : uniqueIds l <-> NoDup (omap (fun e => Some (edit_id e)) l).
Proof. apply atMostOne_NoDup. Qed.

Lemma uniqueIds_snoc l e :
  (forall x, x ∈ l -> edit_id x <> edit_id e) -> uniqueIds l -> uniqueIds (l ++ [e]).
Proof.
  intros Hfresh. rewrite !uniqueIds_NoDup. apply NoDup_omap_snoc_fresh.
  intros k [= <-] x Hx [= Hk]. by apply (Hfresh x Hx).
Qed.

Lemma uniqueIds_insert l i e e' :
  l !! i = Some e -> edit_id e' = edit_id e -> uniqueIds l -> uniqueIds (<[i := e']> l).
Proof.
  intros Hi Hid. rewrite !uniqueIds_NoDup.
  rewrite (omap_insert_same _ l i e e' Hi); [done | by rewrite Hid].
Qed.

Lemma uniqueIds_delete l i : uniqueIds l -> uniqueIds (base.delete i l).
Proof. rewrite !uniqueIds_NoDup. apply NoDup_omap_delete. Qed.

Lemma apply_uniqueIds :
  forall (o : Op num) prev,
    uniqueIds prev -> freshFor o prev -> uniqueIds (apply o prev).
Proof.
  intros o prev Hu Hfresh. destruct o as [w edit|w edit|w edit|w edit|id|]; simpl in *.
  - unfold addTextEdit.
    destruct (Js.findIndex (isStructureAdd _) prev) as [i|] eqn:Hs.
    + destruct (found_structure _ _ _ Hs) as (s & Hi & _). rewrite Hi.
      by apply (uniqueIds_insert prev i (Structure s)).
    + destruct (Js.findIndex (isTextFor _ _) prev) as [i|] eqn:Ht.
      * destruct (found_text _ _ _ _ Ht) as (t & Hi & _). rewrite Hi.
        destruct (isReverted edit t); [by apply uniqueIds_delete|].
        by apply (uniqueIds_insert prev i (Text t)).
      * by apply uniqueIds_snoc.
  - unfold addEquationEdit.
    destruct (Js.findIndex (isEquationFor _ _) prev) as [i|] eqn:Ht.
    + destruct (found_equation _ _ _ _ Ht) as (q & Hi & _). rewrite Hi.
      destruct (String.eqb _ _); [by apply uniqueIds_delete|].
      by apply (uniqueIds_insert prev i (EquationE q)).
    + by apply uniqueIds_snoc.
  - unfold addScrubbleNumberEdit.
    destruct (Js.findIndex (isScrubbleFor _ _) prev) as [i|] eqn:Ht.
    + destruct (found_scrubble _ _ _ _ Ht) as (n & Hi & _). rewrite Hi.
      destruct (String.eqb _ _); [by apply uniqueIds_delete|].
      by apply (uniqueIds_insert prev i (ScrubbleNumber n)).
    + by apply uniqueIds_snoc.
  - unfold addStructureEdit.
    destruct (Action_eqb _ add); [|by apply uniqueIds_snoc].
    destruct (Js.findIndex (isStructureAdd _) prev) as [i|] eqn:Hs;
      [|by apply uniqueIds_snoc].
    destruct (found_structure _ _ _ Hs) as (s & Hi & _). rewrite Hi.
    by apply (uniqueIds_insert prev i (Structure s)).
  - apply uniqueIds_NoDup. apply NoDup_omap_filter. by apply uniqueIds_NoDup.
  - apply uniqueIds_NoDup. constructor.
Qed.

Lemma insert_same_id l i e e' :
  l !! i = Some e -> edit_id e' = edit_id e ->
  edit_id <$> <[i := e']> l = edit_id <$> l.
Proof.
  intros Hi Hid. rewrite list_fmap_insert, Hid. apply list_insert_id.
  by rewrite list_lookup_fmap, Hi.
Qed.

Lemma ids_delete l i (x : string) :
  x ∈ edit_id <$> base.delete i l -> x ∈ edit_id <$> l.
Proof.
  intros (e & -> & He)%list_elem_of_fmap. apply list_elem_of_fmap. exists e.
  split; [reflexivity|]. by apply list_elem_of_delete_inv in He.
Qed.

(** The ids of the ledger after an operation were in the ledger before
    it or are the one the operation was handed. *)
Lemma apply_ids (o : Op num) prev (x : string) :
  x ∈ edit_id <$> apply o prev ->
  x ∈ edit_id <$> prev \/ x ∈ stampIds [o].
Proof.
  assert (Hsnoc : forall e, x ∈ edit_id <$> (prev ++ [e]) ->
                            x ∈ edit_id <$> prev \/ x = edit_id e).
  { intros e. rewrite fmap_app, elem_of_app. intros [?|Hx]; [by left | right].
    by apply list_elem_of_singleton in Hx. }
  destruct o as [w edit|w edit|w edit|w edit|id|]; cbn [apply stampIds omap list_omap].
  - unfold addTextEdit.
    destruct (Js.findIndex (isStructureAdd _) prev) as [i|] eqn:Hs.
    + destruct (found_structure _ _ _ Hs) as (s & Hi & _). rewrite Hi.
      rewrite (insert_same_id prev i (Structure s)); [by left | done | done].
    + destruct (Js.findIndex (isTextFor _ _) prev) as [i|] eqn:Ht.
      * destruct (found_text _ _ _ _ Ht) as (t & Hi & _). rewrite Hi.
        destruct (isReverted edit t); [left; by eapply ids_delete|].
        rewrite (insert_same_id prev i (Text t)); [by left | done | done].
      * intros [? | ->]%Hsnoc; [by left | right; constructor].
  - unfold addEquationEdit.
    destruct (Js.findIndex (isEquationFor _ _) prev) as [i|] eqn:Ht.
    + destruct (found_equation _ _ _ _ Ht) as (q & Hi & _). rewrite Hi.
      destruct (String.eqb _ _); [left; by eapply ids_delete|].
      rewrite (insert_same_id prev i (EquationE q)); [by left | done | done].
    + intros [? | ->]%Hsnoc; [by left | right; constructor].
  - unfold addScrubbleNumberEdit.
    destruct (Js.findIndex (isScrubbleFor _ _) prev) as [i|] eqn:Ht.
    + destruct (found_scrubble _ _ _ _ Ht) as (n & Hi & _). rewrite Hi.
      destruct (String.eqb _ _); [left; by eapply ids_delete|].
      rewrite (insert_same_id prev i (ScrubbleNumber n)); [by left | done | done].
    + intros [? | ->]%Hsnoc; [by left | right; constructor].
  - unfold addStructureEdit.
    destruct (Action_eqb _ add);
      [|intros [? | ->]%Hsnoc; [by left | right; constructor]].
    destruct (Js.findIndex (isStructureAdd _) prev) as [i|] eqn:Hs;
      [|intros [? | ->]%Hsnoc; [by left | right; constructor]].
    destruct (found_structure _ _ _ Hs) as (s & Hi & _). rewrite Hi.
    rewrite (insert_same_id prev i (Structure s)); [by left | done | done].
  - unfold removeEdit. intros (e & -> & He)%list_elem_of_fmap. left.
    apply list_elem_of_fmap. exists e. split; [reflexivity|].
    apply list_elem_of_In, filter_In in He as [He _]. by apply list_elem_of_In.
  - unfold clearAllEdits. by intros ?%elem_of_nil.
Qed.

Lemma stampIds_cons (o : Op num) (ops : list (Op num)) :
  stampIds (o :: ops) = stampIds [o] ++ stampIds ops.
Proof. unfold stampIds. cbn [omap list_omap]. by destruct o. Qed.

Lemma freshFor_stamp (o : Op num) prev :
  (forall x, x ∈ edit_id <$> prev -> x ∉ stampIds [o]) -> freshFor o prev.
Proof.
  intros Hno. destruct o as [w edit|w edit|w edit|w edit|id|]; cbn [freshFor];
    try exact I; intros e He Heq;
    apply (Hno (edit_id e)); try (rewrite Heq; constructor);
    apply list_elem_of_fmap; by exists e.
Qed.

Lemma run_from_ids (ops : list (Op num)) :
  forall prev,
    uniqueIds prev -> NoDup (stampIds ops) ->
    (forall x, x ∈ edit_id <$> prev -> x ∉ stampIds ops) ->
    uniqueIds (fold_left (fun l o => apply o l) ops prev)
    /\ forall x, x ∈ edit_id <$> fold_left (fun l o => apply o l) ops prev ->
                 x ∈ edit_id <$> prev \/ x ∈ stampIds ops.
Proof.
  induction ops as [|o ops IH]; intros prev Hu Hnd Hfresh; cbn [fold_left].
  - split; [exact Hu | by left].
  - rewrite stampIds_cons in Hnd, Hfresh. apply NoDup_app in Hnd as (_ & Hdisj & Hnd).
    destruct (IH (apply o prev)) as [Hu' Hids].
    + apply apply_uniqueIds; [exact Hu|]. apply freshFor_stamp.
      intros x Hx Ho. apply (Hfresh x Hx). apply elem_of_app. by left.
    + exact Hnd.
    + intros x [Hx|Hx]%apply_ids.
      * intros Hin. apply (Hfresh x Hx). apply elem_of_app. by right.
      * by apply Hdisj.
    + split; [exact Hu'|]. intros x [[Hx|Hx]%apply_ids|Hx]%Hids;
        rewrite stampIds_cons, elem_of_app; auto.
Qed.

(** X1. Identifiers stay unique.  When no two entries of the ledger
    share an id, and the id that [generateId()] hands to an add
    operation is not yet in the ledger, no two entries share an id
    after the operation: an entry updated in place keeps its id, only
    an appended entry takes the new one.  Hence over every sequence of
    operations whose generated ids are pairwise distinct, no two
    entries of the ledger share an id, and every id in the ledger is
    one that was generated for an add operation of the sequence. *)
Theorem ledger_ids_stay_unique :
  (forall (o : Op num) prev,
      uniqueIds prev -> freshFor o prev -> uniqueIds (apply o prev))
  /\ (forall ops : list (Op num),
        NoDup (stampIds ops) ->
        uniqueIds (run ops)
        /\ forall e, e ∈ run ops -> edit_id e ∈ stampIds ops).
Proof.
  split; [exact apply_uniqueIds|].
  intros ops Hnd. destruct (run_from_ids ops [] ) as [Hu Hids].
  - apply uniqueIds_NoDup. constructor.
  - exact Hnd.
  - by intros x ?%elem_of_nil.
  - split; [exact Hu|]. intros e He.
    destruct (Hids (edit_id e)) as [?%elem_of_nil|Hx]; [|done|exact Hx].
    apply list_elem_of_fmap. by exists e.
Qed.

Lemma filter_all {A} (f : A -> bool) (l : list A) :
  (forall x, x ∈ l -> f x = true) -> List.filter f l = l.
Proof.
  induction l as [|a l IH]; intros Hall; simpl; [reflexivity|].
  rewrite (Hall a) by constructor. rewrite IH; [reflexivity|].
  intros x Hx. apply Hall. by constructor.
Qed.

(** X2. [removeEdit id] drops the entries whose id is [id] and keeps
    the others in their order; when no entry has the id the ledger is
    unchanged; and when ids are unique it removes exactly the one entry
    that has the id. *)
Theorem removeEdit_drops_the_entry :
  forall (id : string) prev,
    (forall e, e ∈ removeEdit id prev <-> e ∈ prev /\ edit_id e <> id)
    /\ sublist (removeEdit id prev) prev
    /\ ((forall e, e ∈ prev -> edit_id e <> id) -> removeEdit id prev = prev)
    /\ (uniqueIds prev ->
        forall i e, prev !! i = Some e -> edit_id e = id ->
                    removeEdit id prev = base.delete i prev).
Proof.
  intros id prev. unfold removeEdit. split; [|split; [|split]].
  - intros e. rewrite !list_elem_of_In, filter_In, negb_true_iff.
    split; intros [He Hid]; (split; [done|]).
    + intros <-. by rewrite String.eqb_refl in Hid.
    + by apply String.eqb_neq.
  - apply filter_sublist.
  - intros Hno. apply filter_all. intros x Hx.
    apply negb_true_iff, String.eqb_neq. by apply Hno.
  - intros Hu. induction prev as [|a l IH]; intros i e Hi Hid; [done|].
    assert (Hl : uniqueIds l).
    { intros i1 i2 e1 e2 k H1 H2 Hk1 Hk2.
      assert (S i1 = S i2) by (eapply Hu; eauto). lia. }
    destruct i as [|i]; simpl in Hi.
    + injection Hi as ->. simpl. rewrite Hid, String.eqb_refl. simpl.
      apply filter_all. intros x Hx. apply negb_true_iff, String.eqb_neq.
      intros Hx'. apply list_elem_of_lookup in Hx as [j Hj].
      assert (S j = 0) by (eapply (Hu (S j) 0 x e id); eauto; simpl; congruence).
      lia.
    + simpl. destruct (String.eqb (edit_id a) id) eqn:Ea; simpl.
      * apply String.eqb_eq in Ea.
        assert (0 = S i) by (eapply (Hu 0 (S i) a e id); eauto; simpl; congruence).
        lia.
      * f_equal. by apply (IH Hl i e).
Qed.

End LedgerMore.

Section LedgerCompose.
Context {num : Type} `{JsNumber num}.

Implicit Types (l prev : list (PendingEdit num)) (e : PendingEdit num).

Lemma findIndex_absent {K} (p : PendingEdit num -> bool)
    (key : PendingEdit num -> option K) (k : K) l :
  (forall e, p e = true <-> key e = Some k) ->
  (forall e, e ∈ l -> key e <> Some k) ->
  Js.findIndex p l = None.
Proof.
  intros Hp Hno. apply findIndex_None. intros x Hx.
  destruct (p x) eqn:E; [|reflexivity].
  apply Hp in E. by destruct (Hno x Hx).
Qed.

(** X3. Add, then revert: on a ledger with no pending Structure-add
    edit for the section and no Text edit for the key, [addTextEdit]
    from text A to text B followed by [addTextEdit] back to A gives the
    ledger back exactly as it was, provided the HTML of the second call
    and the HTML captured by the first are equal whenever both are
    supplied and not empty. *)
Theorem addTextEdit_then_revert :
  forall (w1 w2 : Stamp) (sid path A B orig2 : string)
         (oh nh oh2 nh2 : option string) prev,
    (forall s, Structure s ∈ prev -> StructureEdit.action s = add ->
               StructureEdit.sectionId s <> Some sid) ->
    (forall t, Text t ∈ prev ->
               ~ (TextEdit.sectionId t = sid /\ TextEdit.elementPath t = path)) ->
    (Js.opt_truthy nh2 = true -> Js.opt_truthy oh = true -> nh2 = oh) ->
    addTextEdit w2 (TextEdit.mkArg sid path orig2 oh2 A nh2)
      (addTextEdit w1 (TextEdit.mkArg sid path A oh B nh) prev)
    = prev.
Proof.
  intros w1 w2 sid path A B orig2 oh nh oh2 nh2 prev Hno Hnt Hhtml.
  pose proof (no_structure_add _ _ Hno) as Hs.
  assert (Ht : Js.findIndex (isTextFor sid path) prev = None).
  { apply (findIndex_absent _ textKey (sid, path)).
    - intros e. apply isTextFor_key.
    - intros e He Hk. destruct e as [t| | |]; simpl in Hk; try discriminate.
      injection Hk as Hs' Hp'. by apply (Hnt t He). }
  unfold addTextEdit at 2. cbn [TextEdit.a_sectionId TextEdit.a_elementPath].
  rewrite Hs, Ht.
  unfold addTextEdit. cbn [TextEdit.a_sectionId TextEdit.a_elementPath].
  rewrite !findIndex_snoc, Hs, Ht. simpl.
  rewrite !String.eqb_refl. simpl. rewrite lookup_snoc.
  assert (Hr : isReverted (TextEdit.mkArg sid path orig2 oh2 A nh2)
                 (TextEdit.mk (newId w1) sid path A oh B nh (callTime w1)) = true).
  { apply isReverted_reverts. split; [reflexivity|]. simpl.
    intros h h' -> -> Hh Hh'.
    assert (E : Some h = Some h') by (apply Hhtml; by destruct h, h').
    congruence. }
  simpl in Hr. rewrite Hr. apply delete_snoc.
Qed.

(** X4. The latest value wins: on such a ledger two [addTextEdit]
    calls for the same key, the second with a text other than the
    original, leave one entry for the key, appended at the end: it has
    the id and the original snapshot of the first call and the new text
    and HTML of the second. *)
Theorem addTextEdit_latest_wins :
  forall (w1 w2 : Stamp) (sid path A B C orig2 : string)
         (oh nh oh2 nh2 : option string) prev,
    (forall s, Structure s ∈ prev -> StructureEdit.action s = add ->
               StructureEdit.sectionId s <> Some sid) ->
    (forall t, Text t ∈ prev ->
               ~ (TextEdit.sectionId t = sid /\ TextEdit.elementPath t = path)) ->
    C <> A ->
    addTextEdit w2 (TextEdit.mkArg sid path orig2 oh2 C nh2)
      (addTextEdit w1 (TextEdit.mkArg sid path A oh B nh) prev)
    = prev ++ [Text (TextEdit.mk (newId w1) sid path A oh C nh2 (updateTime w2))].
Proof.
  intros w1 w2 sid path A B C orig2 oh nh oh2 nh2 prev Hno Hnt Hne.
  pose proof (no_structure_add _ _ Hno) as Hs.
  assert (Ht : Js.findIndex (isTextFor sid path) prev = None).
  { apply (findIndex_absent _ textKey (sid, path)).
    - intros e. apply isTextFor_key.
    - intros e He Hk. destruct e as [t| | |]; simpl in Hk; try discriminate.
      injection Hk as Hs' Hp'. by apply (Hnt t He). }
  unfold addTextEdit at 2. cbn [TextEdit.a_sectionId TextEdit.a_elementPath].
  rewrite Hs, Ht.
  unfold addTextEdit. cbn [TextEdit.a_sectionId TextEdit.a_elementPath].
  rewrite !findIndex_snoc, Hs, Ht. simpl.
  rewrite !String.eqb_refl. simpl. rewrite lookup_snoc.
  unfold isReverted. simpl.
  apply String.eqb_neq in Hne. rewrite Hne. simpl.
  apply insert_snoc.
Qed.

(** X5. Add, then revert, for equations and for scrubble numbers: on
    a ledger with no edit for the key, [addEquationEdit] from the
    original latex to another followed by [addEquationEdit] for the
    same original back to it gives the ledger back; and so does
    [addScrubbleNumberEdit] followed by [addScrubbleNumberEdit] whose
    new props are the props captured as original by the first. *)
Theorem equation_and_scrubble_then_revert :
  (forall (w1 w2 : Stamp) (sid latex latex' : string) (ct ct2 : ComponentType)
          (cm cm2 : option (list (string * string))) prev,
      (forall q, EquationE q ∈ prev ->
                 ~ (EquationEdit.sectionId q = sid
                    /\ EquationEdit.originalLatex q = latex)) ->
      addEquationEdit w2 (EquationEdit.mkArg sid ct2 latex latex cm2)
        (addEquationEdit w1 (EquationEdit.mkArg sid ct latex latex' cm) prev)
      = prev)
  /\ (forall (w1 w2 : Stamp) (sid path : string)
            (p q orig2 : ScrubbleNumberProps num) prev,
        (forall n, ScrubbleNumber n ∈ prev ->
                   ~ (ScrubbleNumberEdit.sectionId n = sid
                      /\ ScrubbleNumberEdit.elementPath n = path)) ->
        addScrubbleNumberEdit w2 (ScrubbleNumberEdit.mkArg sid path orig2 p)
          (addScrubbleNumberEdit w1 (ScrubbleNumberEdit.mkArg sid path p q) prev)
        = prev).
Proof.
  split.
  - intros w1 w2 sid latex latex' ct ct2 cm cm2 prev Hnq.
    assert (Hq : Js.findIndex (isEquationFor sid latex) prev = None).
    { apply (findIndex_absent _ equationKey (sid, latex)).
      - intros e. apply isEquationFor_key.
      - intros e He Hk. destruct e as [|q| |]; simpl in Hk; try discriminate.
        injection Hk as Hs' Hp'. by apply (Hnq q He). }
    unfold addEquationEdit at 2.
    cbn [EquationEdit.a_sectionId EquationEdit.a_originalLatex]. rewrite Hq.
    unfold addEquationEdit.
    cbn [EquationEdit.a_sectionId EquationEdit.a_originalLatex].
    rewrite findIndex_snoc, Hq. simpl. rewrite !String.eqb_refl. simpl.
    rewrite lookup_snoc. simpl. rewrite String.eqb_refl. apply delete_snoc.
  - intros w1 w2 sid path p q orig2 prev Hnn.
    assert (Hn : Js.findIndex (isScrubbleFor sid path) prev = None).
    { apply (findIndex_absent _ scrubbleKey (sid, path)).
      - intros e. apply isScrubbleFor_key.
      - intros e He Hk. destruct e as [| |n|]; simpl in Hk; try discriminate.
        injection Hk as Hs' Hp'. by apply (Hnn n He). }
    unfold addScrubbleNumberEdit at 2.
    cbn [ScrubbleNumberEdit.a_sectionId ScrubbleNumberEdit.a_elementPath]. rewrite Hn.
    unfold addScrubbleNumberEdit.
    cbn [ScrubbleNumberEdit.a_sectionId ScrubbleNumberEdit.a_elementPath
         ScrubbleNumberEdit.a_newProps ScrubbleNumberEdit.a_originalProps].
    rewrite findIndex_snoc, Hn.
    cbn [isScrubbleFor ScrubbleNumberEdit.sectionId ScrubbleNumberEdit.elementPath].
    rewrite !String.eqb_refl. cbn [andb]. rewrite lookup_snoc.
    cbn [ScrubbleNumberEdit.originalProps]. rewrite String.eqb_refl.
    apply delete_snoc.
Qed.

(** X6. Two structure adds for one section merge: on a ledger with no
    pending Structure-add edit for the section, [addStructureEdit] with
    action add followed by [addStructureEdit] with action add for the
    same section leaves one entry for it, appended at the end.  It has
    the id of the first call and the timestamp of the second; each
    optional property is the second call's when the second call writes
    it (also when it writes [undefined]) and the first call's
    otherwise. *)
Theorem addStructureEdit_add_merges :
  forall (w1 w2 : Stamp) (sid : option string)
         (sids1 sids2 : Js.field (list string)) (c1 c2 b1 b2 : Js.field string) prev,
    (forall s, Structure s ∈ prev -> StructureEdit.action s = add ->
               StructureEdit.sectionId s <> sid) ->
    addStructureEdit w2 (StructureEdit.mkArg add (Js.Present sid) sids2 c2 b2)
      (addStructureEdit w1 (StructureEdit.mkArg add (Js.Present sid) sids1 c1 b1) prev)
    = prev ++ [Structure
                 (StructureEdit.mk (newId w1) add sid
                    (Js.spread (Js.read sids1) sids2)
                    (Js.spread (Js.read c1) c2)
                    (Js.spread (Js.read b1) b2)
                    (updateTime w2))].
Proof.
  intros w1 w2 sid sids1 sids2 c1 c2 b1 b2 prev Hno.
  pose proof (no_structure_add _ _ Hno) as Hs.
  unfold addStructureEdit at 2. cbn [StructureEdit.a_action Action_eqb].
  cbn [StructureEdit.a_sectionId Js.read]. rewrite Hs.
  unfold addStructureEdit. cbn [StructureEdit.a_action Action_eqb].
  cbn [StructureEdit.a_sectionId Js.read].
  rewrite findIndex_snoc, Hs.
  assert (Hk : isStructureAdd (num := num) sid
                 (Structure (newStructure w1
                    (StructureEdit.mkArg add (Js.Present sid) sids1 c1 b1))) = true).
  { apply isStructureAdd_key. reflexivity. }
  rewrite Hk, lookup_snoc. apply insert_snoc.
Qed.

End LedgerCompose.

(** ** What the widget and the modals see of the ledger *)

Lemma find_rev_unique {A} (p : A -> bool) (l : list A) (i : nat) (x : A) :
  l !! i = Some x -> p x = true ->
  (forall j y, l !! j = Some y -> p y = true -> j = i) ->
  List.find p (List.rev l) = Some x.
Proof.
  revert i x. induction l as [|a l IH] using rev_ind; intros i x Hi Hp Hu; [done|].
  rewrite rev_unit. simpl. destruct (p a) eqn:Hpa.
  - assert (length l = i) by (apply (Hu _ a); [apply lookup_snoc | done]).
    subst i. rewrite lookup_snoc in Hi. congruence.
  - assert (Hlt : i < length l).
    { pose proof (lookup_lt_Some _ _ _ Hi) as Hb. rewrite length_app in Hb.
      simpl in Hb. destruct (decide (i = length l)) as [->|]; [|lia].
      rewrite lookup_snoc in Hi. congruence. }
    apply (IH i x).
    + by rewrite lookup_app_l in Hi.
    + exact Hp.
    + intros j y Hj Hy. apply (Hu j y); [|done].
      rewrite lookup_app_l; [done | by apply lookup_lt_Some in Hj].
Qed.

Lemma find_rev_none {A} (p : A -> bool) (l : list A) :
  (forall x, x ∈ l -> p x = false) -> List.find p (List.rev l) = None.
Proof.
  intros Hall. destruct (List.find p (List.rev l)) as [x|] eqn:E; [|reflexivity].
  apply find_some in E as [Hin Hp]. apply in_rev, list_elem_of_In in Hin.
  rewrite (Hall x Hin) in Hp. discriminate.
Qed.

Section LedgerViews.
Context {num : Type} `{JsNumber num}.

Implicit Types (l prev : list (PendingEdit num)) (e : PendingEdit num).

Lemma scrubble_absent (sid path : string) l :
  (forall n, ScrubbleNumber n ∈ l ->
             ~ (ScrubbleNumberEdit.sectionId n = sid
                /\ ScrubbleNumberEdit.elementPath n = path)) ->
  Js.findIndex (isScrubbleFor sid path) l = None.
Proof.
  intros Hnn. apply findIndex_None. intros x Hx.
  destruct (isScrubbleFor sid path x) eqn:E; [|reflexivity].
  apply isScrubbleFor_key in E.
  destruct x as [| |n|]; simpl in E; try discriminate.
  injection E as Hs Hp. by destruct (Hnn n Hx).
Qed.

(** Under the dedup invariant the callback of one key holds of one
    index only. *)
Lemma scrubble_one_index (sid path : string) l i j x y :
  dedup l -> l !! i = Some x -> l !! j = Some y ->
  isScrubbleFor sid path x = true -> isScrubbleFor sid path y = true -> j = i.
Proof.
  intros (_ & _ & Hone & _) Hi Hj Hx Hy.
  apply isScrubbleFor_key in Hx. apply isScrubbleFor_key in Hy.
  by apply (Hone j i y x (sid, path)).
Qed.

(** X7. What the widget shows after a save: on a deduplicated ledger,
    after [addScrubbleNumberEdit] for the widget's identity the
    [pendingEdit] memo of an editable widget is the new entry when the
    key had none, the entry with the new props in place of the old when
    the key had one and the props differ from its captured original in
    their JSON form, and [null] when they agree (the edit was
    reverted). *)
Theorem pendingEdit_after_addScrubbleNumberEdit :
  forall (w : Stamp) (sid path : string) (orig np : ScrubbleNumberProps num)
         (isEditing canEdit : bool) prev,
    dedup prev -> isEditing || canEdit = true ->
    let next := addScrubbleNumberEdit w
                  (ScrubbleNumberEdit.mkArg sid path orig np) prev in
    ((forall n, ScrubbleNumber n ∈ prev ->
                ~ (ScrubbleNumberEdit.sectionId n = sid
                   /\ ScrubbleNumberEdit.elementPath n = path)) ->
     pendingEdit isEditing canEdit (Some (sid, path)) next
     = Some (ScrubbleNumber
               (ScrubbleNumberEdit.mk (newId w) sid path orig np (callTime w))))
    /\ (forall n, ScrubbleNumber n ∈ prev ->
                  ScrubbleNumberEdit.sectionId n = sid ->
                  ScrubbleNumberEdit.elementPath n = path ->
                  (JSON.stringify np
                   <> JSON.stringify (ScrubbleNumberEdit.originalProps n) ->
                   pendingEdit isEditing canEdit (Some (sid, path)) next
                   = Some (ScrubbleNumber
                             (ScrubbleNumberEdit.mk (ScrubbleNumberEdit.id n) sid path
                                (ScrubbleNumberEdit.originalProps n) np
                                (updateTime w))))
                  /\ (JSON.stringify np
                      = JSON.stringify (ScrubbleNumberEdit.originalProps n) ->
                      pendingEdit isEditing canEdit (Some (sid, path)) next = None)).
Proof.
  intros w sid path orig np isEditing canEdit prev Hd Hmode next.
  assert (Hguard : negb isEditing && negb canEdit = false)
    by (destruct isEditing, canEdit; simpl in *; congruence).
  pose proof (addScrubbleNumberEdit_dedup w
                (ScrubbleNumberEdit.mkArg sid path orig np) prev Hd) as Hd'.
  fold next in Hd'. unfold pendingEdit. rewrite Hguard. split.
  - intros Hnn. apply scrubble_absent in Hnn.
    assert (Hnext : next = prev ++ [ScrubbleNumber
              (ScrubbleNumberEdit.mk (newId w) sid path orig np (callTime w))]).
    { unfold next, addScrubbleNumberEdit.
      cbn [ScrubbleNumberEdit.a_sectionId ScrubbleNumberEdit.a_elementPath].
      by rewrite Hnn. }
    apply (find_rev_unique _ next (length prev)).
    + rewrite Hnext. apply lookup_snoc.
    + simpl. by rewrite !String.eqb_refl.
    + intros j y Hj Hy. apply (scrubble_one_index sid path next _ _
        (ScrubbleNumber (ScrubbleNumberEdit.mk (newId w) sid path orig np (callTime w)))
        y Hd'); auto.
      * rewrite Hnext. apply lookup_snoc.
      * simpl. by rewrite !String.eqb_refl.
  - intros n Hin Hsid Hpath.
    destruct (findIndex_found (isScrubbleFor sid path) prev (ScrubbleNumber n) Hin)
      as [i Hf].
    { apply isScrubbleFor_key. simpl. by rewrite Hsid, Hpath. }
    destruct (found_scrubble _ _ _ _ Hf) as (n0 & Hi & Hsid0 & Hpath0).
    assert (n0 = n) as ->.
    { destruct Hd as (_ & _ & Hone & _).
      assert (ScrubbleNumber n0 = ScrubbleNumber n) as [= ->]; [|done].
      apply (atMostOne_elem scrubbleKey prev i (ScrubbleNumber n0)
               (ScrubbleNumber n) (sid, path)); auto; simpl; congruence. }
    split.
    + intros Hne.
      assert (Hnext : next = <[i := ScrubbleNumber
                (ScrubbleNumberEdit.mk (ScrubbleNumberEdit.id n) sid path
                   (ScrubbleNumberEdit.originalProps n) np (updateTime w))]> prev).
      { unfold next, addScrubbleNumberEdit.
        cbn [ScrubbleNumberEdit.a_sectionId ScrubbleNumberEdit.a_elementPath
             ScrubbleNumberEdit.a_newProps].
        rewrite Hf, Hi. destruct (String.eqb _ _) eqn:E.
        - apply String.eqb_eq in E. contradiction.
        - unfold reprops. by rewrite Hsid, Hpath. }
      assert (Hlook : next !! i = Some (ScrubbleNumber
                (ScrubbleNumberEdit.mk (ScrubbleNumberEdit.id n) sid path
                   (ScrubbleNumberEdit.originalProps n) np (updateTime w)))).
      { rewrite Hnext. apply list_lookup_insert_eq. by apply lookup_lt_Some in Hi. }
      apply (find_rev_unique _ next i); [exact Hlook | |].
      * simpl. by rewrite !String.eqb_refl.
      * intros j y Hj Hy.
        apply (scrubble_one_index sid path next _ _ _ y Hd' Hlook Hj); auto.
        simpl. by rewrite !String.eqb_refl.
    + intros Heq.
      assert (Hnext : next = base.delete i prev).
      { unfold next, addScrubbleNumberEdit.
        cbn [ScrubbleNumberEdit.a_sectionId ScrubbleNumberEdit.a_elementPath
             ScrubbleNumberEdit.a_newProps].
        rewrite Hf, Hi. apply String.eqb_eq in Heq. by rewrite Heq. }
      apply find_rev_none. intros x Hx. rewrite Hnext in Hx.
      destruct (isScrubbleFor sid path x) eqn:E; [|reflexivity]. exfalso.
      apply list_elem_of_lookup in Hx as [j Hj].
      assert (Hj' : exists j', j' <> i /\ prev !! j' = Some x).
      { destruct (decide (j < i)).
        - exists j. split; [lia|]. by rewrite list_lookup_delete_lt in Hj.
        - exists (Datatypes.S j). split; [lia|].
          rewrite list_lookup_delete_ge in Hj; [done | lia]. }
      destruct Hj' as (j' & Hne & Hj'). apply Hne.
      apply (scrubble_one_index sid path prev i j' (ScrubbleNumber n) x Hd Hi Hj'); auto.
      simpl. by rewrite Hsid, Hpath, !String.eqb_refl.
Qed.

(** A new entry for a key without one, and the call that takes it
    back. *)
Lemma addScrubbleNumberEdit_fresh (w : Stamp) (sid path : string)
    (p q : ScrubbleNumberProps num) l :
  Js.findIndex (isScrubbleFor sid path) l = None ->
  addScrubbleNumberEdit w (ScrubbleNumberEdit.mkArg sid path p q) l
  = l ++ [ScrubbleNumber (ScrubbleNumberEdit.mk (newId w) sid path p q (callTime w))].
Proof.
  intros Hn. unfold addScrubbleNumberEdit.
  cbn [ScrubbleNumberEdit.a_sectionId ScrubbleNumberEdit.a_elementPath].
  by rewrite Hn.
Qed.

Lemma addScrubbleNumberEdit_back (w : Stamp) (sid path id : string) (ts : Z)
    (p q orig2 : ScrubbleNumberProps num) l :
  Js.findIndex (isScrubbleFor sid path) l = None ->
  addScrubbleNumberEdit w (ScrubbleNumberEdit.mkArg sid path orig2 p)
    (l ++ [ScrubbleNumber (ScrubbleNumberEdit.mk id sid path p q ts)])
  = l.
Proof.
  intros Hn. unfold addScrubbleNumberEdit.
  cbn [ScrubbleNumberEdit.a_sectionId ScrubbleNumberEdit.a_elementPath
       ScrubbleNumberEdit.a_newProps].
  rewrite findIndex_snoc, Hn.
  cbn [isScrubbleFor ScrubbleNumberEdit.sectionId ScrubbleNumberEdit.elementPath].
  rewrite !String.eqb_refl. cbn [andb]. rewrite lookup_snoc.
  cbn [ScrubbleNumberEdit.originalProps]. rewrite String.eqb_refl.
  apply delete_snoc.
Qed.

(** X8. The scrubble-number modal.  Saving with no editor open changes
    nothing.  Opening the editor on props and saving the same props
    records nothing and closes the editor.  And on a ledger with no
    edit for the widget, opening on p, saving q (which differs from p
    in JSON form), then opening on q and saving p again gives the
    ledger back and leaves the editor closed. *)
Theorem scrubble_modal_round_trip :
  (forall (w : Stamp) (p : ScrubbleNumberProps num) (st : Editing num),
      editingScrubbleNumber st = None -> saveScrubbleNumberEdit w p st = st)
  /\ (forall (w : Stamp) (sid path : string) (p : ScrubbleNumberProps num)
            (st : Editing num),
        saveScrubbleNumberEdit w p (openScrubbleNumberEditor p sid path st)
        = closeScrubbleNumberEditor st)
  /\ (forall (w1 w2 : Stamp) (sid path : string) (p q : ScrubbleNumberProps num)
            (st : Editing num),
        (forall n, ScrubbleNumber n ∈ pendingEdits st ->
                   ~ (ScrubbleNumberEdit.sectionId n = sid
                      /\ ScrubbleNumberEdit.elementPath n = path)) ->
        JSON.stringify q <> JSON.stringify p ->
        saveScrubbleNumberEdit w2 p
          (openScrubbleNumberEditor q sid path
             (saveScrubbleNumberEdit w1 q
                (openScrubbleNumberEditor p sid path st)))
        = closeScrubbleNumberEditor st).
Proof.
  split; [|split].
  - intros w p st Hnone. unfold saveScrubbleNumberEdit. by rewrite Hnone.
  - intros w sid path p st.
    unfold saveScrubbleNumberEdit, saveScrubbleNumberEdit_call,
      openScrubbleNumberEditor, closeScrubbleNumberEditor.
    cbn [editingScrubbleNumber pendingEdits focusProps]. by rewrite String.eqb_refl.
  - intros w1 w2 sid path p q st Hnn Hne. apply scrubble_absent in Hnn.
    assert (Hqp : String.eqb (JSON.stringify q) (JSON.stringify p) = false)
      by by apply String.eqb_neq.
    assert (Hpq : String.eqb (JSON.stringify p) (JSON.stringify q) = false)
      by (apply String.eqb_neq; congruence).
    unfold saveScrubbleNumberEdit, saveScrubbleNumberEdit_call,
      openScrubbleNumberEditor, closeScrubbleNumberEditor.
    cbn [editingScrubbleNumber pendingEdits focusProps focusSectionId
         focusElementPath negb].
    rewrite Hqp, Hpq. cbn [negb]. f_equal.
    rewrite (addScrubbleNumberEdit_fresh w1 sid path p q _ Hnn).
    by apply addScrubbleNumberEdit_back.
Qed.

End LedgerViews.

(** ** The equation modal *)

Section EquationModalProofs.
Context {num : Type}.

Implicit Types (l prev : list (PendingEdit num)) (st : EquationEditing num).

Lemma colorMapChanged_same (cm : option (list (string * string))) :
  colorMapChanged cm cm = false.
Proof.
  destruct cm as [m|]; [|reflexivity]. unfold colorMapChanged. simpl.
  by rewrite String.eqb_refl.
Qed.

Lemma equation_absent (sid latex : string) l :
  (forall q, EquationE q ∈ l ->
             ~ (EquationEdit.sectionId q = sid
                /\ EquationEdit.originalLatex q = latex)) ->
  Js.findIndex (isEquationFor sid latex) l = None.
Proof.
  intros Hnn. apply findIndex_None. intros x Hx.
  destruct (isEquationFor sid latex x) eqn:E; [|reflexivity].
  apply isEquationFor_key in E.
  destruct x as [|q| |]; simpl in E; try discriminate.
  injection E as Hs Hp. by destruct (Hnn q Hx).
Qed.

(** X9. Saving what was opened.  [saveEquationEdit] with no editor
    open changes nothing; after [openEquationEditor], saving the LaTeX
    that was opened, with the colour map that was opened or with none,
    leaves the ledger as it was and closes the editor; and whatever is
    saved, the editor is closed afterwards. *)
Theorem saveEquationEdit_unchanged :
  (forall (w : Stamp) (latex : string) (cm : option (list (string * string))) st,
      editingEquation st = None -> saveEquationEdit w latex cm st = st)
  /\ (forall (w : Stamp) (latex sid path : string)
            (cm : option (list (string * string))) st,
        saveEquationEdit w latex cm (openEquationEditor latex cm sid path st)
        = closeEquationEditor st
        /\ saveEquationEdit w latex None (openEquationEditor latex cm sid path st)
           = closeEquationEditor st)
  /\ (forall (w : Stamp) (latex latex' sid path : string)
            (cm cm' : option (list (string * string))) st,
        editingEquation
          (saveEquationEdit w latex' cm' (openEquationEditor latex cm sid path st))
        = None).
Proof.
  split; [|split].
  - intros w latex cm st Hnone. unfold saveEquationEdit. by rewrite Hnone.
  - intros w latex sid path cm st.
    unfold saveEquationEdit, openEquationEditor, closeEquationEditor.
    cbn [editingEquation eqPendingEdits eqLatex eqColorMap].
    rewrite String.eqb_refl, colorMapChanged_same. by split.
  - reflexivity.
Qed.

(** X10. A change of colours alone.  When the editor is open and the
    LaTeX is saved unchanged with a colour map whose JSON form differs
    from the one opened (or none was opened): if the ledger has no
    equation edit for the section and that LaTeX, an edit is appended
    whose new LaTeX equals its original LaTeX and which carries the new
    colour map; but if the ledger has such an edit, that edit is removed
    from the ledger and the new colour map is not recorded. *)
Theorem saveEquationEdit_colour_only :
  forall (w : Stamp) (m : list (string * string)) (f : EquationFocus) st,
    editingEquation st = Some f ->
    colorMapChanged (Some m) (eqColorMap f) = true ->
    let next := eqPendingEdits (saveEquationEdit w (eqLatex f) (Some m) st) in
    ((forall q, EquationE q ∈ eqPendingEdits st ->
                ~ (EquationEdit.sectionId q = eqSectionId f
                   /\ EquationEdit.originalLatex q = eqLatex f)) ->
     next = eqPendingEdits st
            ++ [EquationE (EquationEdit.mk (newId w) (eqSectionId f) Equation
                             (eqLatex f) (eqLatex f) (Some m) (callTime w))])
    /\ (forall q, EquationE q ∈ eqPendingEdits st ->
                  EquationEdit.sectionId q = eqSectionId f ->
                  EquationEdit.originalLatex q = eqLatex f ->
                  exists i q0,
                    eqPendingEdits st !! i = Some (EquationE q0)
                    /\ EquationEdit.sectionId q0 = eqSectionId f
                    /\ EquationEdit.originalLatex q0 = eqLatex f
                    /\ next = base.delete i (eqPendingEdits st)).
Proof.
  intros w m f st Hf Hch next.
  assert (Hnext : next = addEquationEdit w
            (EquationEdit.mkArg (eqSectionId f) Equation (eqLatex f) (eqLatex f)
               (Some m)) (eqPendingEdits st)).
  { unfold next, saveEquationEdit. rewrite Hf. cbn [eqPendingEdits].
    rewrite Hch, orb_true_r. reflexivity. }
  split.
  - intros Hnn. apply equation_absent in Hnn. rewrite Hnext.
    unfold addEquationEdit.
    cbn [EquationEdit.a_sectionId EquationEdit.a_originalLatex].
    by rewrite Hnn.
  - intros q Hin Hsid Hlatex.
    destruct (findIndex_found (isEquationFor (eqSectionId f) (eqLatex f))
                (eqPendingEdits st) (EquationE q) Hin) as [i Hi].
    { simpl. by rewrite Hsid, Hlatex, !String.eqb_refl. }
    destruct (found_equation _ _ _ _ Hi) as (q0 & Hq0 & Hs0 & Hl0).
    exists i, q0. repeat split; auto.
    rewrite Hnext. unfold addEquationEdit.
    cbn [EquationEdit.a_sectionId EquationEdit.a_originalLatex
         EquationEdit.a_newLatex].
    rewrite Hi, Hq0, Hl0. by rewrite String.eqb_refl.
Qed.

End EquationModalProofs.

(** ** The further ledger properties on concrete ledgers *)

Lemma ledger_ids_witness :
  let t := TextEdit.mk "edit-1" "block-7" "p[0]" "A" None "B" None 100 in
  let prev : list (PendingEdit Z) := [Text t] in
  let o := AddEquationEdit (num := Z) (Build_Stamp "edit-2" 200 201)
             (EquationEdit.mkArg "block-7" Equation "x^2" "x^3" None) in
  uniqueIds (apply o prev).
Proof.
  intros t prev o. apply (proj1 (@ledger_ids_stay_unique Z _) o prev).
  - apply uniqueIds_NoDup. simpl. apply NoDup_singleton.
  - simpl. intros e He. apply list_elem_of_singleton in He. subst e.
    simpl. discriminate.
Defined.

Lemma removeEdit_witness :
  let t1 := TextEdit.mk "edit-1" "block-7" "p[0]" "A" None "B" None 100 in
  let q2 := EquationEdit.mk "edit-2" "block-7" Equation "x^2" "x^3" None 200 in
  let prev : list (PendingEdit Z) := [Text t1; EquationE q2] in
  removeEdit "edit-1" prev = base.delete 0 prev.
Proof.
  intros t1 q2 prev.
  destruct (@removeEdit_drops_the_entry Z "edit-1" prev) as (_ & _ & _ & Hone).
  apply (fun Hu => Hone Hu 0 (Text t1) eq_refl eq_refl).
  apply uniqueIds_NoDup. simpl. apply NoDup_cons. split.
  - intros Hin. apply list_elem_of_singleton in Hin. discriminate.
  - apply NoDup_singleton.
Defined.

Lemma addTextEdit_then_revert_witness :
  let q := EquationEdit.mk "edit-1" "block-7" Equation "x^2" "x^3" None 100 in
  let prev : list (PendingEdit Z) := [EquationE q] in
  addTextEdit (Build_Stamp "edit-3" 300 301)
    (TextEdit.mkArg "block-7" "p[0]" "B" (Some "<b>B</b>") "A" None)
    (addTextEdit (Build_Stamp "edit-2" 200 201)
       (TextEdit.mkArg "block-7" "p[0]" "A" (Some "<b>A</b>") "B" (Some "<b>B</b>"))
       prev)
  = prev.
Proof.
  intros q prev. apply (@addTextEdit_then_revert Z).
  - intros s Hs. apply list_elem_of_singleton in Hs. discriminate.
  - intros t Ht. apply list_elem_of_singleton in Ht. discriminate.
  - simpl. discriminate.
Defined.

Lemma addTextEdit_latest_wins_witness :
  let prev : list (PendingEdit Z) := [] in
  addTextEdit (Build_Stamp "edit-3" 300 301)
    (TextEdit.mkArg "block-7" "p[0]" "B" None "C" None)
    (addTextEdit (Build_Stamp "edit-2" 200 201)
       (TextEdit.mkArg "block-7" "p[0]" "A" None "B" None) prev)
  = [Text (TextEdit.mk "edit-2" "block-7" "p[0]" "A" None "C" None 301)].
Proof.
  intros prev.
  apply (@addTextEdit_latest_wins Z (Build_Stamp "edit-2" 200 201)
           (Build_Stamp "edit-3" 300 301) "block-7" "p[0]" "A" "B" "C" "B"
           None None None None []).
  - intros s Hs. by apply elem_of_nil in Hs.
  - intros t Ht. by apply elem_of_nil in Ht.
  - discriminate.
Defined.


Lemma scrubble_then_revert_witness :
  let t := TextEdit.mk "edit-1" "block-7" "p[0]" "A" None "B" None 100 in
  let prev : list (PendingEdit Z) := [Text t] in
  let p : ScrubbleNumberProps Z := [(defaultValue, VNumber 10%Z); (max, VNumber 20%Z)] in
  let q : ScrubbleNumberProps Z := [(defaultValue, VNumber 12%Z); (max, VNumber 20%Z)] in
  addScrubbleNumberEdit (Build_Stamp "edit-3" 300 301)
    (ScrubbleNumberEdit.mkArg "block-7" "scrubble-block-7-n" q p)
    (addScrubbleNumberEdit (Build_Stamp "edit-2" 200 201)
       (ScrubbleNumberEdit.mkArg "block-7" "scrubble-block-7-n" p q) prev)
  = prev.
Proof.
  intros t prev p q.
  apply (proj2 (@equation_and_scrubble_then_revert Z _)).
  intros n Hn. apply list_elem_of_singleton in Hn. discriminate.
Defined.

Lemma addStructureEdit_add_merges_witness :
  let prev : list (PendingEdit Z) := [] in
  addStructureEdit (Build_Stamp "edit-2" 200 201)
    (StructureEdit.mkArg add (Js.Present (Some "block-9")) Js.Absent
       (Js.Present (Some "Title")) (Js.Present (Some "h1")))
    (addStructureEdit (Build_Stamp "edit-1" 100 101)
       (StructureEdit.mkArg add (Js.Present (Some "block-9")) Js.Absent
          (Js.Present (Some EmptyString)) (Js.Present (Some "placeholder")))
       prev)
  = [Structure (StructureEdit.mk "edit-1" add (Some "block-9") None
                  (Some "Title") (Some "h1") 201)].
Proof.
  intros prev.
  apply (@addStructureEdit_add_merges Z (Build_Stamp "edit-1" 100 101)
           (Build_Stamp "edit-2" 200 201) (Some "block-9") Js.Absent Js.Absent
           (Js.Present (Some EmptyString)) (Js.Present (Some "Title"))
           (Js.Present (Some "placeholder")) (Js.Present (Some "h1")) []).
  intros s Hs. by apply elem_of_nil in Hs.
Defined.

Lemma pendingEdit_witness :
  let p : ScrubbleNumberProps Z := [(defaultValue, VNumber 10%Z); (max, VNumber 20%Z)] in
  let q : ScrubbleNumberProps Z := [(defaultValue, VNumber 12%Z); (max, VNumber 20%Z)] in
  let n := ScrubbleNumberEdit.mk "edit-1" "block-7" "scrubble-block-7-n" p q 100 in
  let prev : list (PendingEdit Z) := [ScrubbleNumber n] in
  pendingEdit false true (Some ("block-7", "scrubble-block-7-n"))
    (addScrubbleNumberEdit (Build_Stamp "edit-2" 200 201)
       (ScrubbleNumberEdit.mkArg "block-7" "scrubble-block-7-n" q p) prev)
  = None.
Proof.
  intros p q n prev.
  destruct (@pendingEdit_after_addScrubbleNumberEdit Z _
              (Build_Stamp "edit-2" 200 201) "block-7" "scrubble-block-7-n" q p
              false true prev) as [_ Hsome].
  - apply dedup_NoDup. simpl. repeat split; try apply NoDup_nil_2.
    apply NoDup_singleton.
  - reflexivity.
  - apply (Hsome n); [apply list_elem_of_here | reflexivity | reflexivity
                     | reflexivity].
Defined.

Lemma scrubble_modal_witness :
  let p : ScrubbleNumberProps Z := [(defaultValue, VNumber 10%Z); (max, VNumber 20%Z)] in
  let q : ScrubbleNumberProps Z := [(defaultValue, VNumber 12%Z); (max, VNumber 20%Z)] in
  let st : Editing Z := {| pendingEdits := []; editingScrubbleNumber := None |} in
  saveScrubbleNumberEdit (Build_Stamp "edit-2" 200 201) p
    (openScrubbleNumberEditor q "block-7" "scrubble-block-7-n"
       (saveScrubbleNumberEdit (Build_Stamp "edit-1" 100 101) q
          (openScrubbleNumberEditor p "block-7" "scrubble-block-7-n" st)))
  = st.
Proof.
  intros p q st.
  apply (proj2 (proj2 (@scrubble_modal_round_trip Z _))
           (Build_Stamp "edit-1" 100 101) (Build_Stamp "edit-2" 200 201)
           "block-7" "scrubble-block-7-n" p q st).
  - intros n Hn. by apply elem_of_nil in Hn.
  - vm_compute. discriminate.
Defined.

Lemma saveEquationEdit_colour_witness :
  let f := {| eqLatex := "x^2"; eqColorMap := None;
              eqSectionId := "block-7"; eqElementPath := "eq[0]" |} in
  let st : EquationEditing Z :=
    {| eqPendingEdits := []; editingEquation := Some f |} in
  eqPendingEdits
    (saveEquationEdit (Build_Stamp "edit-1" 100 101) "x^2" (Some [("x", "red")]) st)
  = [EquationE (EquationEdit.mk "edit-1" "block-7" Equation "x^2" "x^2"
                  (Some [("x", "red")]) 100)].
Proof.
  intros f st.
  apply (proj1 (@saveEquationEdit_colour_only Z (Build_Stamp "edit-1" 100 101)
                  [("x", "red")] f st eq_refl eq_refl)).
  intros q Hq. by apply elem_of_nil in Hq.
Defined.

(** ** From the edit button through the modal to the ledger *)

Section EditClickProofs.
Context {num : Type} `{JsNumber num} `{JsLiterals num}.

Lemma validate_true (m : ModalState num) :
  snd (validate m) = true -> validate m = (setError None m, true).
Proof.
  unfold validate.
  destruct (num_ge _ _); [discriminate|].
  destruct (num_le _ _); [discriminate|].
  destruct (_ || _); [discriminate | reflexivity].
Qed.

(** An effective number is a number unless the pending edit holds a
    string in its place. *)
Lemma effective_number (pe : option (PendingEdit num)) (k : ScrubbleKey)
    (own d n : num) :
  numberOr (effective pe k (VNumber own)) d = Some n ->
  effective pe k (VNumber own) = VNumber n.
Proof.
  unfold effective. destruct pe as [[| |e|]|]; simpl; try congruence.
  destruct (getProp k _); simpl; congruence.
Qed.

(** X11. Edit, then save without a change.  The edit button opens the
    modal on the widget's effective props; the modal takes its state
    from them; the save button is pressed with that state and the
    validation passes.  Then, unless the effective variable name is the
    empty string, nothing is recorded: the ledger is as before and the
    editor is closed.  When it is the empty string and the ledger has
    no edit for the widget, an edit is recorded although nothing was
    changed: its original props hold the empty name, its new props hold
    no name. *)
Theorem edit_click_then_save_unchanged :
  forall (w : Stamp) (wd : WidgetProps num) (pe : option (PendingEdit num))
         (sid path : string) (st : Editing num) (m0 m : ModalState num),
    let st1 := handleEditClick wd pe sid path st in
    initModal m0 st1 = Some m ->
    snd (validate m) = true ->
    (getProp varName (effectiveProps wd pe) <> VString EmptyString ->
     saveAttempt w m st1 = (setError None m, closeScrubbleNumberEditor st))
    /\ (getProp varName (effectiveProps wd pe) = VString EmptyString ->
        (forall n, ScrubbleNumber n ∈ pendingEdits st ->
                   ~ (ScrubbleNumberEdit.sectionId n = sid
                      /\ ScrubbleNumberEdit.elementPath n = path)) ->
        pendingEdits (snd (saveAttempt w m st1))
        = pendingEdits st
          ++ [ScrubbleNumber
                (ScrubbleNumberEdit.mk (newId w) sid path
                   (effectiveProps wd pe)
                   [ (varName, VUndefined);
                     (defaultValue, VNumber (m_defaultValue m));
                     (min, VNumber (m_min m));
                     (max, VNumber (m_max m));
                     (step, VNumber (m_step m)) ]
                   (callTime w))]).
Proof.
  intros w wd pe sid path st m0 m st1 Hinit Hval.
  unfold initModal, st1, handleEditClick, openScrubbleNumberEditor in Hinit.
  cbn [editingScrubbleNumber focusProps] in Hinit.
  unfold effectiveProps in Hinit. cbn [getProp ScrubbleKey_eqb] in Hinit.
  destruct (stringOr _ _) as [v|] eqn:Ev; [|discriminate].
  destruct (numberOr _ num_ten) as [d|] eqn:Ed; [|discriminate].
  destruct (numberOr _ num_zero) as [lo|] eqn:Elo; [|discriminate].
  destruct (numberOr _ num_hundred) as [hi|] eqn:Ehi; [|discriminate].
  destruct (numberOr _ num_one) as [s|] eqn:Es; [|discriminate].
  injection Hinit as <-.
  apply effective_number in Ed, Elo, Ehi, Es.
  unfold saveAttempt, handleSave. rewrite (validate_true _ Hval).
  cbn [negb m_varName m_defaultValue m_min m_max m_step].
  unfold st1, handleEditClick, saveScrubbleNumberEdit, saveScrubbleNumberEdit_call,
    openScrubbleNumberEditor, closeScrubbleNumberEditor.
  cbn [editingScrubbleNumber pendingEdits focusProps focusSectionId
       focusElementPath snd].
  unfold effectiveProps. cbn [getProp ScrubbleKey_eqb].
  rewrite Ed, Elo, Ehi, Es.
  set (ev := effective pe varName _) in *.
  split.
  - intros Hne.
    assert (Hsame : (if Js.str_truthy v then VString v else VUndefined) = ev).
    { destruct ev as [|s0|n0]; simpl in Ev; [| |discriminate].
      - by injection Ev as <-.
      - injection Ev as <-. destruct s0; [by destruct Hne | reflexivity]. }
    rewrite Hsame, String.eqb_refl. reflexivity.
  - intros Hempty Hnn. rewrite Hempty in Ev |- *. simpl in Ev.
    injection Ev as <-. cbn [Js.str_truthy].
    apply scrubble_absent in Hnn.
    destruct (String.eqb _ _) eqn:E.
    + apply String.eqb_eq in E. unfold JSON.stringify in E.
      cbn [omap list_omap JSON.member fst snd] in E. discriminate E.
    + cbn [negb]. apply addScrubbleNumberEdit_fresh. exact Hnn.
Qed.

End EditClickProofs.

Lemma edit_click_witness :
  let wd : WidgetProps Z :=
    {| own_varName := Some "count"; own_defaultValue := 10%Z;
       own_min := 0%Z; own_max := 100%Z; own_step := 1%Z |} in
  let st : Editing Z := {| pendingEdits := []; editingScrubbleNumber := None |} in
  let m : ModalState Z :=
    {| m_varName := "count"; m_defaultValue := 10%Z; m_min := 0%Z;
       m_max := 100%Z; m_step := 1%Z; m_error := None |} in
  saveAttempt (Build_Stamp "edit-1" 100 101) m
    (handleEditClick wd None "block-7" "scrubble-block-7-count" st)
  = (m, st).
Proof.
  intros wd st m.
  destruct (@edit_click_then_save_unchanged Z _ _
              (Build_Stamp "edit-1" 100 101) wd None "block-7"
              "scrubble-block-7-count" st m m) as [Hsame _].
  - reflexivity.
  - reflexivity.
  - apply Hsame. discriminate.
Defined.

(** ** The slash-command menu *)

Lemma menuStep_inRange (m : Menu) (e : MenuEvent) :
  selectionInRange m -> selectionInRange (menuStep m e).
Proof.
  unfold selectionInRange. intros [H0 Hr]. destruct e as [key|open query].
  - unfold menuStep, menuKeyDown. destruct (isOpen m); [|by split].
    cbn [negb]. destruct key; cbn [fst setSelectedIndex selectedIndex searchQuery];
      try (by split).
    + destruct (Z.ltb_spec (selectedIndex m)
                  (Z.of_nat (length (filteredCommands (searchQuery m))) - 1));
        [split; [lia | left; lia] | by split].
    + destruct (selectedIndex m >? 0)%Z eqn:E; [|split; [lia | by right]].
      apply Z.gtb_lt in E. split; [lia|]. destruct Hr; [left; lia | lia].
  - unfold menuStep, menuRender. cbn [selectedIndex searchQuery].
    destruct (String.eqb_spec query (searchQuery m)) as [->|_]; [by split|].
    split; [lia | by right].
Qed.

Lemma menuRun_inRange (events : list MenuEvent) (m : Menu) :
  selectionInRange m -> selectionInRange (menuRun events m).
Proof.
  revert m. induction events as [|e events IH]; intros m Hm; [exact Hm|].
  simpl. apply IH. by apply menuStep_inRange.
Qed.

(** X12. The selection stays in range.  Whatever keys are pressed and
    whatever props the parent renders the menu with after it mounted,
    the selected index is never negative and is an index of the
    filtered command list (or 0 when the list is empty).  So on an open
    menu with a non-empty list Enter always selects a command, the one
    at the selected index of the filtered list; and with an empty list
    Enter selects nothing. *)
Theorem menu_selection_in_range :
  forall (open : bool) (query : string) (events : list MenuEvent),
    let m := menuRun events (menuMount open query) in
    let filtered := filteredCommands (searchQuery m) in
    selectionInRange m
    /\ (isOpen m = true -> filtered <> [] ->
        exists cmd, filtered !! Z.to_nat (selectedIndex m) = Some cmd
                    /\ menuKeyDown Enter m = (m, [OnSelect (SlashCommand.id cmd)]))
    /\ (filtered = [] -> snd (menuKeyDown Enter m) = []).
Proof.
  intros open query events m filtered.
  assert (Hin : selectionInRange m).
  { apply menuRun_inRange. split; [simpl; lia | by right]. }
  split; [exact Hin|]. destruct Hin as [H0 Hr]. fold filtered in Hr. split.
  - intros Hopen Hne.
    assert (Hlt : Z.to_nat (selectedIndex m) < length filtered).
    { destruct filtered; [done|]. simpl in *. destruct Hr; lia. }
    destruct (lookup_lt_is_Some_2 _ _ Hlt) as [cmd Hcmd].
    exists cmd. split; [exact Hcmd|].
    unfold menuKeyDown, element_at. rewrite Hopen. cbn [negb].
    fold filtered. destruct (Z.ltb_spec (selectedIndex m) 0); [lia|].
    by rewrite Hcmd.
  - intros Hnil. unfold menuKeyDown, element_at. destruct (isOpen m); [|reflexivity].
    cbn [negb snd]. fold filtered. rewrite Hnil.
    destruct (_ <? _)%Z; [reflexivity|]. by rewrite lookup_nil.
Qed.

(** *** The rows and their indices *)

Lemma filter_none {A} (p : A -> bool) (l : list A) :
  (forall x, x ∈ l -> p x = false) -> List.filter p l = [].
Proof.
  induction l as [|a l IH]; intros Hall; [reflexivity|]. simpl.
  rewrite (Hall a) by constructor. apply IH. intros x Hx. apply Hall. by constructor.
Qed.

Lemma filter_every {A} (p : A -> bool) (l : list A) :
  (forall x, x ∈ l -> p x = true) -> List.filter p l = l.
Proof.
  induction l as [|a l IH]; intros Hall; [reflexivity|]. simpl.
  rewrite (Hall a) by constructor. f_equal. apply IH.
  intros x Hx. apply Hall. by constructor.
Qed.

Lemma elem_of_bool_filter {A} (p : A -> bool) (l : list A) (x : A) :
  x ∈ List.filter p l <-> x ∈ l /\ p x = true.
Proof. by rewrite !list_elem_of_In, filter_In. Qed.

Lemma SlashCommandType_eqb_eq (a b : SlashCommandType) :
  SlashCommandType_eqb a b = true <-> a = b.
Proof. destruct a, b; simpl; split; congruence. Qed.

Lemma NoDup_map_bool_filter {A B} (f : A -> B) (p : A -> bool) (l : list A) :
  NoDup (List.map f l) -> NoDup (List.map f (List.filter p l)).
Proof.
  induction l as [|a l IH]; simpl; [done|].
  intros Hnd. apply NoDup_cons in Hnd as [Hnot Hnd].
  destruct (p a); [|by apply IH]. simpl. apply NoDup_cons. split; [|by apply IH].
  intros Hin. apply Hnot. apply list_elem_of_In, in_map_iff in Hin as (x & <- & Hx).
  apply list_elem_of_In, in_map. apply filter_In in Hx. tauto.
Qed.

(** In a list without two commands of one id, looking a command up by
    its id gives its own index. *)
Lemma findIndex_own_id (l : list SlashCommand.t) (k : nat) (cmd : SlashCommand.t) :
  NoDup (List.map SlashCommand.id l) -> l !! k = Some cmd ->
  Js.findIndex
    (fun c => SlashCommandType_eqb (SlashCommand.id c) (SlashCommand.id cmd)) l
  = Some k.
Proof.
  revert k. induction l as [|a l IH]; intros k Hnd Hk; [done|].
  simpl in Hnd. apply NoDup_cons in Hnd as [Hnot Hnd]. destruct k as [|k]; simpl in *.
  - injection Hk as ->.
    by rewrite (proj2 (SlashCommandType_eqb_eq _ _) eq_refl).
  - destruct (SlashCommandType_eqb (SlashCommand.id a) (SlashCommand.id cmd)) eqn:E.
    + apply SlashCommandType_eqb_eq in E. destruct Hnot. rewrite E.
      apply list_elem_of_In, in_map, list_elem_of_In.
      by apply list_elem_of_lookup_2 in Hk.
    + by rewrite (IH k Hnd Hk).
Qed.

Lemma slashCommands_ids : NoDup (List.map SlashCommand.id slashCommands).
Proof.
  simpl.
  repeat (apply NoDup_cons; split;
          [intros Hin;
           repeat (apply elem_of_cons in Hin as [Hin|Hin]; [discriminate|]);
           by apply elem_of_nil in Hin|]).
  apply NoDup_nil_2.
Qed.

(** The registry lists its block commands before its inline ones, and
    so does every filtered list. *)
Lemma filtered_blocks_first (query : string) :
  exists blocks inlines,
    filteredCommands query = blocks ++ inlines
    /\ (forall c, c ∈ blocks -> SlashCommand.category c = block)
    /\ (forall c, c ∈ inlines -> SlashCommand.category c = inline).
Proof.
  exists (List.filter (commandMatches query) (List.firstn 6 slashCommands)),
         (List.filter (commandMatches query) (List.skipn 6 slashCommands)).
  split; [|split].
  - unfold filteredCommands. rewrite <- List.filter_app. reflexivity.
  - intros c Hc. apply elem_of_bool_filter in Hc as [Hc _]. simpl in Hc.
    repeat (apply elem_of_cons in Hc as [->|Hc]; [reflexivity|]).
    by apply elem_of_nil in Hc.
  - intros c Hc. apply elem_of_bool_filter in Hc as [Hc _]. simpl in Hc.
    repeat (apply elem_of_cons in Hc as [->|Hc]; [reflexivity|]).
    by apply elem_of_nil in Hc.
Qed.

(** X13. The rows of the open menu.  The buttons, rendered as a block
    section followed by an inline section, stand in the order of the
    filtered command list, and the button in row k carries
    [data-index] k.  So the highlighted row is the row at the selected
    index, and ArrowDown and ArrowUp move the highlight by one row. *)
Theorem menuRows_in_order :
  forall (m : Menu),
    isOpen m = true ->
    List.map fst (menuRows m) = filteredCommands (searchQuery m)
    /\ (forall (k : nat) row,
          menuRows m !! k = Some row ->
          snd row = Some k
          /\ (highlighted m row = true <-> selectedIndex m = Z.of_nat k)).
Proof.
  intros m Hopen. unfold menuRows. rewrite Hopen. cbn [negb].
  set (filtered := filteredCommands (searchQuery m)).
  destruct (filtered_blocks_first (searchQuery m))
    as (blocks & inlines & Hsplit & Hb & Hi).
  fold filtered in Hsplit.
  assert (Hrows : sectionRows block filtered ++ sectionRows inline filtered
                  = List.map
                      (fun cmd =>
                         (cmd, Js.findIndex
                                 (fun c => SlashCommandType_eqb (SlashCommand.id c)
                                             (SlashCommand.id cmd)) filtered))
                      filtered).
  { unfold sectionRows. rewrite <- List.map_app. f_equal.
    rewrite Hsplit. rewrite !List.filter_app.
    rewrite (filter_every _ blocks), (filter_none _ inlines),
      (filter_none _ blocks), (filter_every _ inlines).
    - by rewrite app_nil_r.
    - intros x Hx. by rewrite (Hi x Hx).
    - intros x Hx. by rewrite (Hb x Hx).
    - intros x Hx. by rewrite (Hi x Hx).
    - intros x Hx. by rewrite (Hb x Hx). }
  rewrite Hrows. split.
  - rewrite List.map_map. simpl. apply List.map_id.
  - intros k row Hk.
    change (List.map ?f filtered) with (f <$> filtered) in Hk.
    rewrite list_lookup_fmap in Hk.
    destruct (filtered !! k) as [cmd|] eqn:Hcmd; [|discriminate].
    injection Hk as <-. cbn [snd].
    assert (Hidx : Js.findIndex
                     (fun c => SlashCommandType_eqb (SlashCommand.id c)
                                 (SlashCommand.id cmd)) filtered = Some k).
    { apply findIndex_own_id; [|exact Hcmd].
      apply NoDup_map_bool_filter, slashCommands_ids. }
    split; [exact Hidx|]. unfold highlighted. cbn [snd]. rewrite Hidx.
    rewrite Z.eqb_eq. split; congruence.
Qed.

(** ** The section input: keys and the menu's choice *)

Lemma trimEnd_idem (s : string) : Str.trimEnd (Str.trimEnd s) = Str.trimEnd s.
Proof.
  induction s as [|c s IH]; [reflexivity|]. cbn [Str.trimEnd].
  destruct (Str.trimEnd s) as [|d r] eqn:E.
  - destruct (Str.isWhiteSpace c) eqn:Hc; [reflexivity|].
    cbn [Str.trimEnd]. by rewrite Hc.
  - cbn [Str.trimEnd] in IH |- *. by rewrite IH.
Qed.

(** A string that does not begin with white space. *)
Lemma trimStart_head (s : string) :
  match Str.trimStart s with
  | EmptyString => True
  | String c _ => Str.isWhiteSpace c = false
  end.
Proof.
  induction s as [|c s IH]; [exact I|]. cbn [Str.trimStart].
  destruct (Str.isWhiteSpace c) eqn:Hc; [exact IH | exact Hc].
Qed.

Lemma trimEnd_head (s : string) :
  match s with
  | EmptyString => True
  | String c _ => Str.isWhiteSpace c = false
  end ->
  Str.trimStart (Str.trimEnd s) = Str.trimEnd s.
Proof.
  destruct s as [|c s]; [reflexivity|]. intros Hc. cbn [Str.trimEnd].
  destruct (Str.trimEnd s); rewrite ?Hc; cbn [Str.trimStart]; by rewrite Hc.
Qed.

Lemma trim_idem (s : string) : Str.trim (Str.trim s) = Str.trim s.
Proof.
  unfold Str.trim. rewrite (trimEnd_head _ (trimStart_head s)).
  apply trimEnd_idem.
Qed.

Lemma str_truthy_nonempty (s : string) : Js.str_truthy s = true <-> s <> EmptyString.
Proof. destruct s; simpl; split; congruence. Qed.

Lemma closeMenu_text (s : SectionInput) :
  option_map innerText (contentRef (closeMenu s)) = option_map innerText (contentRef s).
Proof. reflexivity. Qed.

Lemma onBackspace_keeps (s : SectionInput) :
  option_map innerText (contentRef (onBackspace s))
  = option_map innerText (contentRef s)
  /\ (showSlashMenu (onBackspace s) = true -> onBackspace s = s).
Proof.
  unfold onBackspace.
  destruct (String.eqb _ "/" || negb (Js.str_truthy _)); [|by split].
  destruct (negb (Js.str_truthy _)); [|by split].
  cbn [closeMenu selectedBlockType].
  destruct (selectedBlockType s); [|by split].
  unfold resetBlockType. cbn [closeMenu contentRef showSlashMenu].
  split; [by destruct (contentRef s) | discriminate].
Qed.

(** X14. [handleKeyDown] of the section input.  It calls [onCommit]
    at most once, and exactly when the key is Enter without Shift, the
    slash menu is closed, the element is mounted and the content read
    off the element is not empty; the value committed is that content
    with the selected block type.  A committed value is never empty and
    has no white space at either end.  While the menu is open the
    arrow keys, Escape and Enter without Shift leave the state as it is,
    commit nothing and prevent the default.  Enter with Shift does
    nothing at all, whether the menu is open or not: the state stays,
    nothing is committed and the default is not prevented.  In all, the
    default is prevented exactly for Enter without Shift, and for the
    arrow keys and Escape while the menu is open.  The handler never
    opens the menu (when the menu is open afterwards, the state is
    unchanged) and never changes the text. *)
Theorem handleKeyDown_commits :
  forall (e : KeyboardEvent.t) (dom : Node) (s : SectionInput),
    let r := handleKeyDown e dom s in
    (forall c, c ∈ commits r <->
               KeyboardEvent.key e = Enter /\ KeyboardEvent.shiftKey e = false
               /\ showSlashMenu s = false /\ contentRef s <> None
               /\ extractContentWithMarkers dom <> EmptyString
               /\ c = {| commitValue := extractContentWithMarkers dom;
                         commitBlockType := selectedBlockType s |})
    /\ length (commits r) <= 1
    /\ (forall c, c ∈ commits r ->
                  commitValue c <> EmptyString
                  /\ Str.trim (commitValue c) = commitValue c)
    /\ (showSlashMenu s = true ->
        KeyboardEvent.key e = ArrowDown \/ KeyboardEvent.key e = ArrowUp
        \/ KeyboardEvent.key e = Escape
        \/ (KeyboardEvent.key e = Enter /\ KeyboardEvent.shiftKey e = false) ->
        r = {| after := s; commits := []; defaultPrevented := true |})
    /\ (KeyboardEvent.key e = Enter -> KeyboardEvent.shiftKey e = true ->
        r = {| after := s; commits := []; defaultPrevented := false |})
    /\ (defaultPrevented r = true <->
        (KeyboardEvent.key e = Enter /\ KeyboardEvent.shiftKey e = false)
        \/ (showSlashMenu s = true
            /\ (KeyboardEvent.key e = ArrowDown \/ KeyboardEvent.key e = ArrowUp
                \/ KeyboardEvent.key e = Escape)))
    /\ (showSlashMenu (after r) = true -> after r = s)
    /\ option_map innerText (contentRef (after r))
       = option_map innerText (contentRef s).
Proof.
  intros [key shift] dom s r.
  assert (Hcontent : Str.trim (extractContentWithMarkers dom)
                     = extractContentWithMarkers dom).
  { destruct dom as [|ct cid kids|]; [reflexivity | | reflexivity].
    cbn [extractContentWithMarkers]. apply trim_idem. }
  assert (Hcommits :
    forall c, c ∈ commits r <->
              key = Enter /\ shift = false
              /\ showSlashMenu s = false /\ contentRef s <> None
              /\ extractContentWithMarkers dom <> EmptyString
              /\ c = {| commitValue := extractContentWithMarkers dom;
                        commitBlockType := selectedBlockType s |}).
  { intros c. subst r. unfold handleKeyDown.
    cbn [KeyboardEvent.key KeyboardEvent.shiftKey]. rewrite Hcontent.
    destruct (showSlashMenu s) eqn:Hm, key, shift, (contentRef s) as [el|] eqn:Hel;
      cbn [andb orb negb Key_eqb commits];
      try (split; [intros Hc; by apply elem_of_nil in Hc
                  | intros (? & ? & ? & ? & ? & ?); congruence]).
    destruct (Js.str_truthy (extractContentWithMarkers dom)) eqn:Ht.
    - apply str_truthy_nonempty in Ht. rewrite list_elem_of_singleton.
      split; [intros ->; repeat split; auto; discriminate | tauto].
    - split; [intros Hc; by apply elem_of_nil in Hc|].
      intros (_ & _ & _ & _ & Hne & _). apply str_truthy_nonempty in Hne. congruence. }
  split; [exact Hcommits|]. split; [|split; [|split; [|split; [|split; [|split]]]]].
  - subst r. unfold handleKeyDown.
    cbn [KeyboardEvent.key KeyboardEvent.shiftKey].
    destruct (showSlashMenu s && _); [simpl; lia|].
    destruct (Key_eqb key Enter && negb shift && showSlashMenu s); [simpl; lia|].
    cbn [commits]. destruct (Key_eqb key Enter && negb shift); [|simpl; lia].
    destruct (contentRef s); [|simpl; lia].
    destruct (Js.str_truthy _); simpl; lia.
  - intros c Hc. apply Hcommits in Hc as (_ & _ & _ & _ & Hne & ->).
    cbn [commitValue]. by split.
  - cbn [KeyboardEvent.key KeyboardEvent.shiftKey]. intros Hm Hkey.
    subst r. unfold handleKeyDown.
    cbn [KeyboardEvent.key KeyboardEvent.shiftKey]. rewrite Hm.
    destruct Hkey as [->|[->|[->|[-> ->]]]]; reflexivity.
  - cbn [KeyboardEvent.key KeyboardEvent.shiftKey]. intros -> ->.
    subst r. unfold handleKeyDown.
    cbn [KeyboardEvent.key KeyboardEvent.shiftKey Key_eqb orb andb negb].
    by rewrite andb_false_r.
  - cbn [KeyboardEvent.key KeyboardEvent.shiftKey].
    subst r. unfold handleKeyDown.
    cbn [KeyboardEvent.key KeyboardEvent.shiftKey].
    destruct (showSlashMenu s), key, shift;
      cbn [Key_eqb orb andb negb defaultPrevented];
      (split; [intros Hp; first [discriminate Hp | by left | right; split; auto]
              | intros [[Hk Hsh]|[Hm [Hk|[Hk|Hk]]]];
                first [reflexivity | discriminate]]).
  - subst r. unfold handleKeyDown.
    cbn [KeyboardEvent.key KeyboardEvent.shiftKey].
    destruct (showSlashMenu s && _); [reflexivity|].
    destruct (Key_eqb key Enter && negb shift && showSlashMenu s); [reflexivity|].
    cbn [after]. destruct key; cbn [Key_eqb]; try reflexivity.
    + discriminate.
    + apply onBackspace_keeps.
  - subst r. unfold handleKeyDown.
    cbn [KeyboardEvent.key KeyboardEvent.shiftKey].
    destruct (showSlashMenu s && _); [reflexivity|].
    destruct (Key_eqb key Enter && negb shift && showSlashMenu s); [reflexivity|].
    cbn [after]. destruct key; cbn [Key_eqb]; try reflexivity.
    apply onBackspace_keeps.
Qed.


Lemma lastIndexOf_from_lacks (c : ascii) (s : string) (i : Z) :
  lacks c s -> Str.lastIndexOf_from i c s = (-1)%Z.
Proof.
  revert i. induction s as [|b s IH]; intros i Hl; [reflexivity|].
  cbn [Str.lastIndexOf_from]. rewrite IH by (intros j; apply (Hl (S j))).
  cbn [Z.eqb]. destruct (Ascii.eqb b c) eqn:E; [|reflexivity].
  apply Ascii.eqb_eq in E as ->. by destruct (Hl 0).
Qed.

Lemma lastIndexOf_from_app (c : ascii) (s t : string) (i : Z) :
  lacks c t ->
  Str.lastIndexOf_from i c (s +:+ t) = Str.lastIndexOf_from i c s.
Proof.
  intros Hl. revert i. induction s as [|b s IH]; intros i.
  - cbn [String.append Str.lastIndexOf_from]. by apply lastIndexOf_from_lacks.
  - cbn [String.append Str.lastIndexOf_from]. by rewrite IH.
Qed.

Lemma allNewlines_lacks_slash (nl : string) : allNewlines nl -> lacks slash nl.
Proof. intros Hall j Hj. by pose proof (Hall j slash Hj). Qed.

Lemma get_split (s : string) (p : nat) (c : ascii) :
  String.get p s = Some c -> s = Str.take p s +:+ String c (Str.drop (S p) s).
Proof.
  revert p. induction s as [|b s IH]; intros p Hp; [by destruct p|].
  destruct p as [|p]; simpl in *.
  - by injection Hp as ->.
  - f_equal. by apply IH.
Qed.

Lemma get_drop (s : string) (n j : nat) :
  String.get j (Str.drop n s) = String.get (n + j) s.
Proof.
  revert s. induction n as [|n IH]; intros s; [reflexivity|].
  destruct s as [|b s]; simpl; [by destruct j | apply IH].
Qed.

Lemma take_app_le (s t : string) (p : nat) :
  p <= String.length s -> Str.take p (s +:+ t) = Str.take p s.
Proof.
  revert s. induction p as [|p IH]; intros s Hp; [by destruct s|].
  destruct s as [|b s]; simpl in *; [lia|]. f_equal. apply IH. lia.
Qed.

Lemma get_length (s : string) (p : nat) (c : ascii) :
  String.get p s = Some c -> p < String.length s.
Proof.
  revert p. induction s as [|b s IH]; intros p Hp; [by destruct p|].
  destruct p as [|p]; simpl in *; [lia|]. apply IH in Hp. lia.
Qed.

(** The state in which [handleInput] leaves the menu open. *)
Lemma handleInput_open (s : SectionInput) (el : Paragraph) :
  contentRef s = Some el ->
  showSlashMenu (handleInput s) = true ->
  exists p,
    lastAt slash (stripTrailingNewlines (innerText el)) p
    /\ handleInput s
       = {| placeholder := placeholder s; contentRef := Some el;
            showSlashMenu := true;
            slashQuery := Str.drop (S p) (stripTrailingNewlines (innerText el));
            selectedBlockType := selectedBlockType s;
            slashPosition := Z.of_nat p |}.
Proof.
  intros Hel. unfold handleInput. rewrite Hel.
  set (b := stripTrailingNewlines (innerText el)).
  destruct (Js.str_truthy b); cbn [negb];
    [|destruct (selectedBlockType s); discriminate].
  unfold Str.lastIndexOf.
  destruct (lastIndexOf_from_spec slash b 0 ltac:(lia))
    as [[Hr _] | (p & Hr & Hat)]; rewrite Hr; [discriminate|].
  replace (0 + Z.of_nat p =? -1)%Z with false by (symmetry; apply Z.eqb_neq; lia).
  cbn [negb]. unfold Str.substring.
  replace (Z.to_nat (0 + Z.of_nat p + 1)) with (S p) by lia.
  destruct (Str.includes _ _); cbn [negb]; [discriminate|].
  intros _. exists p. split; [exact Hat | reflexivity].
Qed.

(** X15. The menu's choice after a slash.  When [handleInput] has
    opened the menu, the text of the element is [kept], a slash, the
    query (which holds no slash) and trailing line breaks, and the
    recorded offset is the length of [kept].  [handleSlashCommandSelect]
    then closes the menu and clears the query and the offset; for a
    block command it leaves [kept] as the text, selects the block type,
    and commits at once (the value "---") only for the divider; for an
    inline command the element that the insertion is made into starts
    from [kept], and the block type is left as it was. *)
Theorem select_after_slash :
  forall (commandType : SlashCommandType) (inserted : string -> Paragraph)
         (s : SectionInput) (el : Paragraph),
    contentRef s = Some el ->
    let s1 := handleInput s in
    showSlashMenu s1 = true ->
    let r := handleSlashCommandSelect commandType inserted s1 in
    exists kept nl,
      innerText el = kept +:+ "/" +:+ slashQuery s1 +:+ nl
      /\ allNewlines nl /\ lacks slash (slashQuery s1)
      /\ slashPosition s1 = Z.of_nat (String.length kept)
      /\ showSlashMenu (fst r) = false /\ slashQuery (fst r) = EmptyString
      /\ slashPosition (fst r) = (-1)%Z
      /\ (isInlineCommand commandType = false ->
          option_map innerText (contentRef (fst r)) = Some kept
          /\ selectedBlockType (fst r) = Some commandType
          /\ snd r = if SlashCommandType_eqb commandType divider
                     then [{| commitValue := "---";
                              commitBlockType := Some divider |}]
                     else [])
      /\ (isInlineCommand commandType = true ->
          contentRef (fst r) = Some (inserted kept)
          /\ selectedBlockType (fst r) = selectedBlockType s
          /\ snd r = []).
Proof.
  intros t inserted s el Hel s1 Hopen r.
  destruct (stripTrailingNewlines_spec (innerText el)) as (nl & Htext & Hnl & _).
  set (b := stripTrailingNewlines (innerText el)) in *.
  destruct (handleInput_open s el Hel Hopen) as (p & [Hget Hlast] & Hs1).
  fold b in Hget, Hlast, Hs1.
  pose proof (get_length _ _ _ Hget) as Hp.
  assert (Hidx : Str.lastIndexOf (innerText el) slash = Z.of_nat p).
  { unfold Str.lastIndexOf. rewrite Htext.
    rewrite lastIndexOf_from_app by by apply allNewlines_lacks_slash.
    destruct (lastIndexOf_from_spec slash b 0 ltac:(lia))
      as [[_ Hl] | (p' & Hr & Hat)]; [by destruct (Hl p)|].
    rewrite Hr. f_equal.
    rewrite (lastAt_unique slash b p' p Hat); [lia | by split]. }
  assert (Hkept : (if (Z.of_nat p >? 0)%Z
                   then Str.take (Z.to_nat (Z.of_nat p)) (innerText el)
                   else EmptyString) = Str.take p b).
  { destruct p as [|p]; [by destruct b|].
    replace (Z.of_nat (S p) >? 0)%Z with true by (symmetry; apply Z.gtb_lt; lia).
    rewrite Nat2Z.id, Htext. apply take_app_le. lia. }
  exists (Str.take p b), nl.
  assert (Hlen : String.length (Str.take p b) = p).
  { clear -Hp. revert p Hp. induction b as [|c b IH]; intros p Hp; simpl in *; [lia|].
    destruct p as [|p]; simpl; [reflexivity|]. f_equal. apply IH. lia. }
  subst r s1. rewrite Hs1. unfold handleSlashCommandSelect.
  cbn [contentRef slashQuery slashPosition placeholder selectedBlockType].
  rewrite Hidx, Hkept, Hlen.
  split; [|split; [exact Hnl|split; [|split; [reflexivity|]]]].
  - rewrite Htext at 1. rewrite (get_split b p slash Hget) at 1.
    by rewrite !append_assoc.
  - intros j Hj. rewrite get_drop in Hj. apply (Hlast (S p + j)); [lia | exact Hj].
  - destruct (isInlineCommand t) eqn:Hinl; cbn [fst snd showSlashMenu slashQuery
      slashPosition contentRef selectedBlockType option_map innerText];
      repeat split; try discriminate; reflexivity.
Qed.

(** ** Content with markers, decoded *)

Lemma parseLoop_none (fuel : nat) (content : string) (lastIndex : nat)
    (parts : list Part) :
  exec content lastIndex = None ->
  parseLoop fuel content lastIndex parts = (lastIndex, parts).
Proof. intros He. destruct fuel; cbn [parseLoop]; [reflexivity | by rewrite He]. Qed.

Lemma parse_no_match (content : string) :
  search content 0 = None ->
  parseContentWithInlineComponents content = [Literal content].
Proof.
  intros Hs. unfold parseContentWithInlineComponents.
  rewrite parseLoop_none by (rewrite exec_search by lia; exact Hs).
  cbn [Str.drop]. by destruct (Nat.ltb 0 (String.length content)).
Qed.

Lemma parseLoop_good (fuel : nat) (content : string) (lastIndex : nat)
    (parts : list Part) :
  lastIndex <= String.length content ->
  Forall goodPart parts ->
  fst (parseLoop fuel content lastIndex parts) <= String.length content
  /\ Forall goodPart (snd (parseLoop fuel content lastIndex parts)).
Proof.
  revert lastIndex parts. induction fuel as [|fuel IH]; intros li parts Hle Hg.
  - by split.
  - cbn [parseLoop]. destruct (exec content li) as [m|] eqn:He; [|by split].
    destruct (exec_sound _ _ _ Hle He)
      as (a & r & _ & Hi & Hend & _ & Hsl & Hin & Hne & Hl & Hw).
    apply IH; [exact Hend|].
    apply Forall_app. split.
    + destruct (Nat.ltb li (index m)) eqn:E; [|exact Hg].
      apply Forall_app. split; [exact Hg|]. apply Forall_singleton.
      cbn [goodPart]. rewrite Hsl. apply Nat.ltb_lt in E.
      intros ->. simpl in Hi. lia.
    + apply Forall_singleton.
      destruct (component_text m Hin Hw) as [_ Hpw].
      destruct (component m) eqn:Ec; cbn [goodPart]; [discriminate Hpw| | |];
        exists (componentType m), (uniqueId m); auto.
Qed.

(** X17. [hasInlineComponents] and the parser agree.  The test holds
    exactly when the content contains a well-formed token of a
    registered kind, and exactly when the parser yields a widget; when
    it fails the parser yields the content as its one literal part, so
    the children rendered by [handleCommitSection] are the parser's
    parts in either case.  For content that is not empty, every part
    the parser yields is a literal that is not empty or a widget of a
    registered kind with a key that is not empty and holds no closing
    brace. *)
Theorem hasInlineComponents_spec :
  forall content : string,
    (hasInlineComponents content = true <-> containsToken content)
    /\ (hasInlineComponents content = true <->
        exists p, p ∈ parseContentWithInlineComponents content
                  /\ partWidget p <> None)
    /\ parsedContent content = parseContentWithInlineComponents content
    /\ (content <> EmptyString ->
        Forall goodPart (parseContentWithInlineComponents content)).
Proof.
  intros content.
  assert (Hfalse : hasInlineComponents content = false ->
                   parseContentWithInlineComponents content = [Literal content]).
  { unfold hasInlineComponents. destruct (search content 0) eqn:E; [discriminate|].
    intros _. by apply parse_no_match. }
  split; [|split; [|split]].
  - unfold hasInlineComponents. pose proof (search_none_no_token content) as Hn.
    destruct (search content 0) as [m|] eqn:Es.
    + split; [intros _|reflexivity].
      destruct (search_sound _ _ _ Es) as (a & r & -> & _ & Hin & Hne & Hl & Hw).
      exists (whole m). split; [|by exists a, r].
      exists (componentType m), (uniqueId m). auto.
    + split; [discriminate|]. intros Hc. by destruct (proj1 Hn eq_refl).
  - split.
    + unfold hasInlineComponents. destruct (search content 0) as [m|] eqn:Es;
        [intros _ | discriminate].
      assert (He : exec content 0 = Some m) by (rewrite exec_search by lia; exact Es).
      destruct (exec_sound _ _ _ (Nat.le_0_l _) He)
        as (a & r & _ & _ & _ & _ & _ & Hin & _ & _ & Hw).
      destruct (component_text m Hin Hw) as [_ Hpw].
      exists (component m). split; [|by rewrite Hpw].
      unfold parseContentWithInlineComponents. cbn [parseLoop]. rewrite He.
      destruct (parseLoop_extends (String.length content) content
                  (index m + String.length (whole m))
                  ((if Nat.ltb 0 (index m)
                    then [] ++ [Literal (Str.slice content 0 (index m))]
                    else []) ++ [component m])) as [more Hmore].
      destruct (parseLoop _ _ _ _) as [li parts]. cbn [snd] in Hmore. subst parts.
      set (front := if Nat.ltb 0 (index m) then _ else _).
      assert (Hin' : component m ∈ (front ++ [component m]) ++ more).
      { apply elem_of_app. left. apply elem_of_app. right. constructor. }
      destruct (Nat.ltb li (String.length content)).
      * destruct (((front ++ [component m]) ++ more) ++ _) eqn:E.
        -- by destruct front.
        -- rewrite <- E. apply elem_of_app. by left.
      * destruct ((front ++ [component m]) ++ more) eqn:E; [by destruct front|].
        exact Hin'.
    + intros (p & Hp & Hw). destruct (hasInlineComponents content) eqn:E; [done|].
      rewrite (Hfalse eq_refl) in Hp. apply list_elem_of_singleton in Hp. by subst p.
  - unfold parsedContent. destruct (hasInlineComponents content) eqn:E;
      [reflexivity | by rewrite Hfalse].
  - intros Hne. unfold parseContentWithInlineComponents.
    destruct (parseLoop_good (S (String.length content)) content 0 []
                (Nat.le_0_l _) (Forall_nil_2 _)) as [Hle Hg].
    destruct (parseLoop _ _ _ _) as [li parts]. cbn [fst snd] in *.
    assert (Hall : Forall goodPart
              (if Nat.ltb li (String.length content)
               then parts ++ [Literal (Str.drop li content)] else parts)).
    { destruct (Nat.ltb li (String.length content)) eqn:E; [|exact Hg].
      apply Forall_app. split; [exact Hg|]. apply Forall_singleton.
      cbn [goodPart]. intros Hd. apply Nat.ltb_lt in E.
      pose proof (drop_length li content) as Hlen. rewrite Hd in Hlen.
      simpl in Hlen. lia. }
    destruct (if Nat.ltb li (String.length content) then _ else _); [|exact Hall].
    by apply Forall_singleton.
Qed.


(** *** Any number of markers *)

Lemma spell_tail (segments : list (string * string * string)) (tail : string) :
  spell segments tail = spell segments EmptyString +:+ tail.
Proof.
  induction segments as [|[[a k] i] rest IH]; cbn [spell]; [reflexivity|].
  by rewrite IH, !append_assoc.
Qed.

Lemma drop_tail (body tail : string) :
  Str.drop (String.length (body +:+ tail) - String.length tail) (body +:+ tail) = tail.
Proof.
  rewrite append_length.
  replace (String.length body + String.length tail - String.length tail)
    with (String.length body) by lia.
  apply drop_app.
Qed.

(** The loop on content that is a prefix already read, then texts and
    markers in turn, then a tail without a token. *)
Lemma parseLoop_segments (segments : list (string * string * string)) :
  forall (pre tail : string) (parts : list Part) (fuel : nat),
    Forall segmentOk segments -> ~ containsToken tail ->
    String.length (spell segments tail) < fuel ->
    parseLoop fuel (pre +:+ spell segments tail) (String.length pre) parts
    = (String.length (pre +:+ spell segments tail) - String.length tail,
       parts ++ spelledParts segments).
Proof.
  induction segments as [|[[a k] i] rest IH]; intros pre tail parts fuel Hok Htail Hfuel.
  - cbn [spell spelledParts] in *. rewrite app_nil_r.
    rewrite parseLoop_none.
    + f_equal. rewrite append_length. lia.
    + rewrite exec_search by (rewrite append_length; lia).
      rewrite drop_app. by apply search_no_token.
  - apply Forall_cons in Hok as [(Ha & Hk & Hi & Hl) Hok].
    cbn [spell spelledParts] in *.
    destruct fuel as [|fuel]; [lia|]. cbn [parseLoop].
    set (rest' := spell rest tail) in *.
    assert (He : exec (pre +:+ a +:+ marker k i +:+ rest') (String.length pre)
                 = Some {| index := String.length pre + String.length a;
                           whole := marker k i;
                           componentType := k; uniqueId := i |}).
    { rewrite exec_search by (rewrite append_length; lia).
      rewrite drop_app, marker_app, search_skip by exact Ha.
      rewrite <- marker_app.
      apply (search_found _ k i rest'). by apply matchMarker_complete. }
    rewrite He. cbn [index whole].
    assert (Hslice : Str.slice (pre +:+ a +:+ marker k i +:+ rest')
                       (String.length pre) (String.length pre + String.length a) = a).
    { unfold Str.slice. rewrite drop_app.
      replace (String.length pre + String.length a - String.length pre)
        with (String.length a) by lia.
      apply take_app. }
    rewrite Hslice.
    replace (if Nat.ltb (String.length pre) (String.length pre + String.length a)
             then parts ++ [Literal a] else parts)
      with (parts ++ lit a).
    2:{ rewrite lit_nonempty. destruct a; simpl.
        - rewrite Nat.add_0_r, Nat.ltb_irrefl. by rewrite app_nil_r.
        - replace (Nat.ltb _ _) with true; [reflexivity|].
          symmetry. apply Nat.ltb_lt. lia. }
    specialize (IH (pre +:+ a +:+ marker k i) tail
                  ((parts ++ lit a)
                   ++ [component {| index := String.length pre + String.length a;
                                    whole := marker k i;
                                    componentType := k; uniqueId := i |}])
                  fuel Hok Htail).
    rewrite !append_assoc in IH. fold rest' in IH.
    rewrite !append_length in IH. rewrite Nat.add_assoc in IH.
    rewrite IH.
    + f_equal.
      * by rewrite !append_length.
      * rewrite <- !app_assoc. reflexivity.
    + rewrite !append_length in Hfuel. pose proof (marker_length k i). lia.
Qed.

Lemma segmentNodes_text (segments : list (string * string * string))
    (kids : list Node) (tail : string) :
  Forall segmentOk segments ->
  Str.join (List.map processNode (segmentNodes segments kids tail))
  = spell segments tail.
Proof.
  induction 1 as [|[[a k] i] rest (_ & Hk & Hi & _) _ IH];
    cbn [segmentNodes List.map Str.join spell processNode].
  - apply append_nil_r.
  - rewrite (registered_kind_truthy k Hk).
    replace (Js.str_truthy i) with true by by destruct i.
    cbn [andb]. by rewrite IH.
Qed.

(** Content with a marker ends its last marker with a closing brace. *)
Lemma spell_last_brace (segments : list (string * string * string)) :
  segments <> [] ->
  exists body, forall tail, spell segments tail = body +:+ String "}" tail.
Proof.
  induction segments as [|[[a k] i] rest IH]; [done|]. intros _.
  destruct rest as [|seg rest].
  - exists (a +:+ "{{" +:+ k +:+ ":" +:+ i +:+ "}"). intros tail.
    cbn [spell]. unfold marker. rewrite !append_assoc. reflexivity.
  - destruct (IH ltac:(discriminate)) as [body Hbody].
    exists (a +:+ marker k i +:+ body). intros tail.
    change (spell ((a, k, i) :: seg :: rest) tail)
      with (a +:+ marker k i +:+ spell (seg :: rest) tail).
    by rewrite Hbody, !append_assoc.
Qed.

Lemma trim_spell (segments : list (string * string * string)) (tail : string) :
  segments <> [] ->
  Str.trim (spell segments tail) = spell (trimFirst segments) (Str.trimEnd tail).
Proof.
  intros Hne. unfold Str.trim.
  assert (Hstart : Str.trimStart (spell segments tail)
                   = spell (trimFirst segments) tail).
  { destruct segments as [|[[a k] i] rest]; [done|]. cbn [spell trimFirst].
    rewrite !marker_app.
    change ("{{" +:+ k +:+ ":" +:+ i +:+ "}}" +:+ spell rest tail)
      with (String "{" ("{" +:+ k +:+ ":" +:+ i +:+ "}}" +:+ spell rest tail)).
    by rewrite trimStart_app. }
  rewrite Hstart.
  destruct (spell_last_brace (trimFirst segments)) as [body Hbody].
  { by destruct segments as [|[[a k] i] rest]. }
  rewrite !Hbody. by apply trimEnd_app.
Qed.

(** X18. Decoding any number of markers.  Content written as texts
    and markers in turn, at least one marker, where every marker has a
    registered kind and an id that is not empty and holds no closing
    brace, no text before a marker holds the opening of a token, and
    the text after the last marker holds no token, decodes to exactly
    these texts and widgets in their order: each text that is not empty
    as one literal part, each marker as the widget of its kind and
    id.  And an element whose child nodes are such texts and widget
    elements in turn is encoded and decoded into these texts and
    widgets, the first text without its leading and the last without
    its trailing white space. *)
Theorem parse_many_markers :
  forall (segments : list (string * string * string)) (tail : string),
    segments <> [] ->
    Forall segmentOk segments -> ~ containsToken tail ->
    parseContentWithInlineComponents (spell segments tail)
    = spelledParts segments ++ lit tail
    /\ forall (ct cid : option string) (kids : list Node),
         parseContentWithInlineComponents
           (extractContentWithMarkers
              (ElementNode ct cid (segmentNodes segments kids tail)))
         = spelledParts (trimFirst segments) ++ lit (Str.trimEnd tail).
Proof.
  assert (Hdecode : forall (segments : list (string * string * string)) (tail : string),
             segments <> [] ->
             Forall segmentOk segments -> ~ containsToken tail ->
             parseContentWithInlineComponents (spell segments tail)
             = spelledParts segments ++ lit tail).
  { intros segments tail Hne Hok Htail.
    unfold parseContentWithInlineComponents.
    pose proof (parseLoop_segments segments EmptyString tail []
                  (S (String.length (spell segments tail))) Hok Htail
                  ltac:(lia)) as Hloop.
    cbn [String.append String.length app] in Hloop. rewrite Hloop.
    assert (Hdrop : Str.drop (String.length (spell segments tail) - String.length tail)
                      (spell segments tail) = tail).
    { rewrite (spell_tail segments tail). apply drop_tail. }
    assert (Hlt : Nat.ltb (String.length (spell segments tail) - String.length tail)
                    (String.length (spell segments tail))
                  = Nat.ltb 0 (String.length tail)).
    { rewrite (spell_tail segments tail), append_length.
      destruct (Nat.ltb 0 (String.length tail)) eqn:E.
      - apply Nat.ltb_lt in E. apply Nat.ltb_lt. lia.
      - apply Nat.ltb_ge in E. apply Nat.ltb_ge. lia. }
    rewrite Hdrop, Hlt, lit_nonempty.
    destruct (Nat.ltb 0 (String.length tail)); rewrite ?app_nil_r;
      destruct segments as [|[[a k] i] rest]; try done;
      cbn [spelledParts]; by destruct (lit a). }
  intros segments tail Hne Hok Htail. split; [by apply Hdecode|].
  intros ct cid kids. cbn [extractContentWithMarkers].
  rewrite (segmentNodes_text segments kids tail Hok), (trim_spell _ _ Hne).
  apply Hdecode.
  - by destruct segments as [|[[a k] i] rest].
  - destruct segments as [|[[a k] i] rest]; [done|].
    apply Forall_cons in Hok as [(Ha & Hk & Hi & Hl) Hok].
    cbn [trimFirst]. apply Forall_cons. split; [|exact Hok].
    split; [|by repeat split].
    destruct (trimStart_suffix a) as [w1 Hw1].
    rewrite Hw1 in Ha. by apply noOpener_app in Ha as [_ ?].
  - destruct (trimEnd_prefix tail) as [w2 Hw2].
    intros Hc. apply Htail. rewrite Hw2. by apply containsToken_app_r.
Qed.


(** *** The placeholder of an inline command *)

Lemma lacks_app (c : ascii) (a b : string) :
  lacks c a -> lacks c b -> lacks c (a +:+ b).
Proof.
  intros Ha Hb. induction a as [|x a IH]; [exact Hb|].
  intros [|j]; cbn [String.append String.get].
  - apply (Ha 0).
  - apply IH. intros j'. apply (Ha (S j')).
Qed.

Lemma string_of_uint_lacks_rbrace (d : Decimal.uint) :
  lacks rbrace (NilEmpty.string_of_uint d).
Proof.
  induction d as [|d IH|d IH|d IH|d IH|d IH|d IH|d IH|d IH|d IH|d IH];
    intros [|j]; cbn [NilEmpty.string_of_uint String.get];
    first [discriminate | apply IH].
Qed.

Lemma typeName_registered (commandType : SlashCommandType) :
  isInlineCommand commandType = true <-> typeName commandType ∈ inlineKinds.
Proof.
  unfold inlineKinds. split.
  - destruct commandType; try discriminate; intros _; cbn [typeName];
      repeat first [apply list_elem_of_here | apply list_elem_of_further].
  - intros Hin.
    repeat (apply elem_of_cons in Hin as [Hin|Hin];
            [by destruct commandType|]).
    by apply elem_of_nil in Hin.
Qed.

(** X16. From the menu's inline choice to the widget.  The command
    types that [isInlineCommand] accepts are exactly the kinds that the
    marker pattern of the lesson view knows.  And the placeholder that
    [handleSlashCommandSelect] builds for an inline command, with the
    id made of the command type and the clock, is encoded by the
    section input and decoded by the lesson view as one widget of that
    command type with that id: the id so made is never empty and never
    holds a closing brace.  The texts around it are kept as in the
    single-marker round trip. *)
Theorem inline_choice_round_trip :
  (forall commandType,
      isInlineCommand commandType = true <-> typeName commandType ∈ inlineKinds)
  /\ (forall (commandType : SlashCommandType) (now : N) (ct cid : option string)
            (before kids after : list Node),
        isInlineCommand commandType = true ->
        let pre := Str.join (List.map processNode before) in
        let post := Str.join (List.map processNode after) in
        noOpener pre -> ~ containsToken post ->
        exists w : Part,
          parseContentWithInlineComponents
            (extractContentWithMarkers
               (ElementNode ct cid
                  (before ++ placeholderSpan commandType now kids :: after)))
          = lit (Str.trimStart pre) ++ [w] ++ lit (Str.trimEnd post)
          /\ partWidget w
             = Some (typeName commandType,
                     typeName commandType +:+ "-" +:+ decimal now)).
Proof.
  split; [exact typeName_registered|].
  intros t now ct cid before kids after Hinl pre post Hpre Hpost.
  set (K := typeName t). set (I := K +:+ "-" +:+ decimal now).
  assert (Hin : K ∈ inlineKinds) by by apply typeName_registered.
  assert (Hne : I <> EmptyString) by (unfold I, K; by destruct t).
  assert (Hl : lacks rbrace I).
  { unfold I. apply lacks_app; [|apply lacks_app].
    - apply includes_char. unfold K. by destruct t.
    - by apply includes_char.
    - apply string_of_uint_lacks_rbrace. }
  assert (Henc : extractContentWithMarkers
                   (ElementNode ct cid (before ++ placeholderSpan t now kids :: after))
                 = Str.trimStart pre +:+ marker K I +:+ Str.trimEnd post).
  { cbn [extractContentWithMarkers]. unfold placeholderSpan. fold K I.
    rewrite (holdsMarker_text K I _ pre post); [apply trim_marker | | |].
    - by apply registered_kind_truthy.
    - by destruct I.
    - apply marker_here. }
  rewrite Henc.
  destruct (trimStart_suffix pre) as [w1 Hw1].
  destruct (trimEnd_prefix post) as [w2 Hw2].
  assert (Ha : noOpener (Str.trimStart pre)).
  { rewrite Hw1 in Hpre. by apply noOpener_app in Hpre as [_ ?]. }
  assert (Hb : ~ containsToken (Str.trimEnd post)).
  { intros Hc. apply Hpost. rewrite Hw2. by apply containsToken_app_r. }
  rewrite (parse_single_marker _ _ K I Hin Hne Hl Ha Hb).
  eexists. split; [reflexivity|].
  by apply component_text.
Qed.

(** ** The menu, the section input and the decoder on concrete inputs *)

Lemma menuRows_witness :
  let m := {| isOpen := true; searchQuery := "head"; selectedIndex := 1%Z |} in
  List.map fst (menuRows m) = filteredCommands "head".
Proof.
  intros m. apply (proj1 (menuRows_in_order m eq_refl)).
Defined.

Lemma select_after_slash_witness :
  let el := {| innerText := "Title /h1"; dataPlaceholder := "Type '/' for commands" |} in
  let s := {| placeholder := "Type '/' for commands"; contentRef := Some el;
              showSlashMenu := false; slashQuery := EmptyString;
              selectedBlockType := None; slashPosition := (-1)%Z |} in
  exists kept nl,
    innerText el = kept +:+ "/" +:+ slashQuery (handleInput s) +:+ nl
    /\ option_map innerText
         (contentRef (fst (handleSlashCommandSelect h1 (fun _ => el) (handleInput s))))
       = Some kept.
Proof.
  intros el s.
  destruct (select_after_slash h1 (fun _ => el) s el eq_refl eq_refl)
    as (kept & nl & Htext & _ & _ & _ & _ & _ & _ & Hblock & _).
  exists kept, nl. split; [exact Htext|]. by apply Hblock.
Defined.

Lemma inline_choice_witness :
  exists w : Part,
    parseContentWithInlineComponents
      (extractContentWithMarkers
         (ElementNode None None
            [TextNode "Pick ";
             placeholderSpan inlineDropdown 1700000000000 [TextNode "???"];
             TextNode " "]))
    = [Literal "Pick "; w]
    /\ partWidget w = Some ("inlineDropdown", "inlineDropdown-1700000000000").
Proof.
  apply (proj2 inline_choice_round_trip inlineDropdown 1700000000000%N None None
           [TextNode "Pick "] [TextNode "???"] [TextNode " "] eq_refl).
  - no_opener.
  - apply search_none_no_token. reflexivity.
Defined.

Lemma parse_many_markers_witness :
  parseContentWithInlineComponents
    "Take {{inlineScrubbleNumber:n-1}} of {{inlineDropdown:d-2}}."
  = [Literal "Take "; widget "inlineScrubbleNumber" "n-1";
     Literal " of "; widget "inlineDropdown" "d-2"; Literal "."].
Proof.
  apply (fun Hne Hok Hno =>
           proj1 (parse_many_markers
                    [("Take ", "inlineScrubbleNumber", "n-1");
                     (" of ", "inlineDropdown", "d-2")] "." Hne Hok Hno)).
  - discriminate.
  - repeat apply Forall_cons_2; [| |apply Forall_nil_2];
      (split; [no_opener|]);
      (split; [unfold inlineKinds;
               repeat first [apply list_elem_of_here | apply list_elem_of_further]|]);
      (split; [discriminate|]); by apply includes_char.
  - apply search_none_no_token. reflexivity.
Defined.

(** ** Trees of elements *)

Lemma RNode_forall_ind (P : RNode -> Prop) :
  (forall key id dataBlockId children,
      Forall P children -> P (RElement key id dataBlockId children)) ->
  (forall s, P (RText s)) -> P REmpty ->
  forall node, P node.
Proof.
  intros He Ht Hn. fix IH 1. intros [k id d children|s|].
  - apply He. induction children as [|c cs IHcs]; constructor;
      [apply IH | exact IHcs].
  - apply Ht.
  - exact Hn.
Qed.

Lemma fold_found {A} (f : A -> bool) (l : list A) (found : bool) :
  List.fold_left (fun found x => if negb found && f x then true else found) l found
  = found || existsb f l.
Proof.
  revert found. induction l as [|x l IH]; intros found; simpl.
  - by rewrite orb_false_r.
  - rewrite IH. by destruct found, (f x).
Qed.

Lemma hasElementId_children (k id d : option string) (children : list RNode)
    (t : string) :
  hasElementId (RElement k id d children) t
  = Js.opt_eqb id (Some t) || existsb (fun c => hasElementId c t) children.
Proof.
  cbn [hasElementId]. rewrite fold_found. by destruct (Js.opt_eqb id (Some t)).
Qed.

Lemma firstTruthy_cons (v : option string) (l : list (option string)) :
  firstTruthy (v :: l) = if Js.opt_truthy v then v else firstTruthy l.
Proof. unfold firstTruthy. simpl. by destruct (Js.opt_truthy v). Qed.

Lemma firstTruthy_app (a b : list (option string)) :
  firstTruthy (a ++ b)
  = if Js.opt_truthy (firstTruthy a) then firstTruthy a else firstTruthy b.
Proof.
  induction a as [|v a IH]; [reflexivity|].
  rewrite <- app_comm_cons, !firstTruthy_cons.
  destruct (Js.opt_truthy v) eqn:E; [by rewrite E | exact IH].
Qed.

Lemma firstTruthy_truthy (l : list (option string)) :
  firstTruthy l = None \/ Js.opt_truthy (firstTruthy l) = true.
Proof.
  induction l as [|v l IH]; [by left|]. rewrite firstTruthy_cons.
  destruct (Js.opt_truthy v) eqn:E; [by right | exact IH].
Qed.

Lemma firstTruthy_elem (l : list (option string)) (i : string) :
  firstTruthy l = Some i -> i <> EmptyString /\ Some i ∈ l.
Proof.
  induction l as [|v l IH]; [discriminate|]. rewrite firstTruthy_cons.
  destruct (Js.opt_truthy v) eqn:E.
  - intros ->. split; [by destruct i | constructor].
  - intros Hl. destruct (IH Hl). split; [done | by constructor].
Qed.

Lemma fold_foundId (g : RNode -> option string) (ids : RNode -> list (option string))
    (children : list RNode) :
  Forall (fun c => g c = firstTruthy (ids c)) children ->
  (forall c, isValidElement c = false -> ids c = []) ->
  forall foundId,
    foundId = None \/ Js.opt_truthy foundId = true ->
    List.fold_left
      (fun foundId child =>
         if negb (Js.opt_truthy foundId) && isValidElement child
         then g child else foundId)
      children foundId
    = if Js.opt_truthy foundId then foundId
      else firstTruthy (List.flat_map ids children).
Proof.
  intros Hall Hids. induction Hall as [|c cs Hc _ IH]; intros foundId Hf; simpl.
  - destruct Hf as [->|Ht]; [reflexivity | by rewrite Ht].
  - rewrite firstTruthy_app.
    destruct Hf as [->|Ht].
    + cbn [Js.opt_truthy negb andb]. destruct (isValidElement c) eqn:Ev.
      * rewrite IH by (rewrite Hc; apply firstTruthy_truthy). by rewrite Hc.
      * rewrite IH by by left. by rewrite (Hids c Ev).
    + rewrite Ht. cbn [negb andb]. rewrite IH by by right. by rewrite Ht.
Qed.

Lemma each_blockId (children : list RNode) :
  Forall (fun c => getBlockId c = firstTruthy (blockIdCandidates c)) children ->
  (fix each (rest : list RNode) : option string :=
     match rest with
     | [] => None
     | child :: rest' =>
         match child with
         | RElement _ _ _ _ =>
             let id := getBlockId child in
             if Js.opt_truthy id then id else each rest'
         | _ => each rest'
         end
     end) children
  = firstTruthy (List.flat_map blockIdCandidates children).
Proof.
  intros Hall. induction Hall as [|c cs Hc _ IH]; [reflexivity|].
  cbn [List.flat_map]. rewrite firstTruthy_app, <- IH.
  destruct c as [k id d kids|s|]; [|reflexivity|reflexivity].
  rewrite <- Hc. reflexivity.
Qed.

Lemma hasElementId_ids (element : RNode) (t : string) :
  hasElementId element t = true <-> Some t ∈ elementIds element.
Proof.
  induction element as [k id d children IH|s|] using RNode_forall_ind;
    cbn [elementIds];
    [|by split; [discriminate | intros ?%elem_of_nil]..].
  rewrite hasElementId_children, orb_true_iff, opt_eqb_eq, elem_of_cons.
  rewrite existsb_exists, list_elem_of_In, in_flat_map.
  split; (intros [->|(c & Hc & Ht)]; [by left | right]); exists c;
    (split; [exact Hc|]);
    rewrite Forall_forall in IH; apply list_elem_of_In in Hc;
    [apply list_elem_of_In | apply list_elem_of_In in Ht]; by apply (IH c Hc).
Qed.

Lemma getSectionIdFromElement_first (element : RNode) :
  getSectionIdFromElement element = firstTruthy (elementIds element).
Proof.
  induction element as [k id d children IH|s|] using RNode_forall_ind;
    [|reflexivity..].
  cbn [getSectionIdFromElement elementIds]. rewrite firstTruthy_cons.
  destruct (Js.opt_truthy id); [reflexivity|].
  rewrite (fold_foundId getSectionIdFromElement elementIds children IH);
    [reflexivity | by intros [] | by left].
Qed.

Lemma getBlockId_first (element : RNode) :
  getBlockId element = firstTruthy (blockIdCandidates element).
Proof.
  induction element as [k id d children IH|s|] using RNode_forall_ind;
    [|reflexivity..].
  cbn [getBlockId blockIdCandidates]. rewrite !firstTruthy_cons.
  destruct (Js.opt_truthy id); [reflexivity|].
  destruct (Js.opt_truthy d); [reflexivity|].
  pose proof (each_blockId children IH) as Heach.
  destruct children as [|[ck cid cd kids|s|] [|c2 rest]]; try exact Heach.
  apply Forall_cons in IH as [Hc _]. rewrite Hc.
  cbn [List.flat_map]. by rewrite app_nil_r.
Qed.

Lemma walks_agree (element : RNode) :
  noDataBlockId element = true ->
  getBlockId element = getSectionIdFromElement element.
Proof.
  rewrite getBlockId_first, getSectionIdFromElement_first.
  induction element as [k id d children IH|s|] using RNode_forall_ind;
    [|reflexivity..].
  cbn [noDataBlockId blockIdCandidates elementIds].
  intros [Hd Hall]%andb_true_iff. apply negb_true_iff in Hd.
  rewrite !firstTruthy_cons, Hd. destruct (Js.opt_truthy id); [reflexivity|].
  induction IH as [|c cs Hc _ IHcs]; [reflexivity|].
  cbn [forallb] in Hall. apply andb_true_iff in Hall as [Hc1 Hcs].
  cbn [List.flat_map]. rewrite !firstTruthy_app, (Hc Hc1), (IHcs Hcs).
  reflexivity.
Qed.

Lemma getSectionIdFromElement_has (element : RNode) (i : string) :
  getSectionIdFromElement element = Some i ->
  i <> EmptyString /\ hasElementId element i = true.
Proof.
  rewrite getSectionIdFromElement_first. intros [Hne Hin]%firstTruthy_elem.
  split; [exact Hne | by apply hasElementId_ids].
Qed.

(** X19. The three tree walks, by the ids in document order.
    [hasElementId] holds of a target exactly when some element of the
    tree has it as its [id]; [getSectionIdFromElement] returns the
    first [id] in document order that is a non-empty string;
    [getBlockId] returns the first non-empty string among the [id] and
    [data-block-id] props in document order.  So an id that
    [getSectionIdFromElement] returns is not empty and [hasElementId]
    holds of it, and the two id walks agree on a tree whose elements
    carry no [data-block-id]. *)
Theorem tree_walks_by_document_order :
  forall element : RNode,
    (forall t, hasElementId element t = true <-> Some t ∈ elementIds element)
    /\ getSectionIdFromElement element = firstTruthy (elementIds element)
    /\ getBlockId element = firstTruthy (blockIdCandidates element)
    /\ (forall i, getSectionIdFromElement element = Some i ->
                  i <> EmptyString /\ hasElementId element i = true)
    /\ (noDataBlockId element = true ->
        getBlockId element = getSectionIdFromElement element).
Proof.
  intros element. split; [apply hasElementId_ids|].
  split; [apply getSectionIdFromElement_first|].
  split; [apply getBlockId_first|].
  split; [apply getSectionIdFromElement_has | apply walks_agree].
Qed.


(** *** Replacing the content of a section *)

Lemma existsb_ext {A} (f g : A -> bool) (l : list A) :
  Forall (fun x => f x = g x) l -> existsb f l = existsb g l.
Proof. induction 1 as [|x l Hx _ IH]; simpl; [reflexivity | by rewrite Hx, IH]. Qed.

Lemma opt_eqb_refl (a : option string) : Js.opt_eqb a a = true.
Proof. by apply opt_eqb_eq. Qed.

(** More turns give the same digits. *)
Lemma toString36_fuel (fuel1 fuel2 n : nat) (acc : string) :
  n < fuel1 -> n < fuel2 ->
  toString36_loop fuel1 n acc = toString36_loop fuel2 n acc.
Proof.
  revert fuel2 n acc. induction fuel1 as [|fuel1 IH]; intros fuel2 n acc H1 H2; [lia|].
  destruct fuel2 as [|fuel2]; [lia|]. cbn [toString36_loop].
  destruct (Nat.ltb n 36) eqn:E; [reflexivity|]. apply Nat.ltb_ge in E.
  assert (n / 36 < n) by (apply Nat.div_lt; lia).
  apply IH; lia.
Qed.

Lemma escapeChars_length (key : string) :
  String.length key <= String.length (escapeChars key).
Proof.
  induction key as [|c key IH]; [reflexivity|]. cbn [escapeChars].
  destruct (Ascii.eqb c "="); [simpl; lia|].
  destruct (Ascii.eqb c ":"); simpl; lia.
Qed.

(** The key that [Children.map] gives is not the key the child had. *)
Lemma getElementKey_new (child : RNode) (index : nat) :
  nodeKey child <> Some ("." +:+ getElementKey child index).
Proof.
  destruct child as [[k|] id d children|s|]; cbn [nodeKey getElementKey];
    try discriminate.
  intros [= Hk]. apply (f_equal String.length) in Hk.
  pose proof (escapeChars_length k). unfold escape in Hk.
  simpl in Hk. lia.
Qed.

Lemma hasElementId_cloneAndReplaceKey (element : RNode) (newKey t : string) :
  hasElementId (cloneAndReplaceKey element newKey) t = hasElementId element t.
Proof. by destruct element. Qed.

Lemma eraseKeys_cloneAndReplaceKey (element : RNode) (newKey : string) :
  eraseKeys (cloneAndReplaceKey element newKey) = eraseKeys element.
Proof. by destruct element. Qed.

Lemma replaceSectionContent_key (element : RNode) (t : string) (c : RNode) :
  nodeKey (replaceSectionContent element t c) = nodeKey element.
Proof.
  destruct element as [k id d children|s|]; [|reflexivity..].
  cbn [replaceSectionContent]. destruct (Js.opt_eqb id (Some t)); [reflexivity|].
  by destruct (childrenTruthy children).
Qed.

Lemma replaceSectionContent_valid (element : RNode) (t : string) (c : RNode) :
  isValidElement (replaceSectionContent element t c) = isValidElement element.
Proof.
  destruct element as [k id d children|s|]; [|reflexivity..].
  cbn [replaceSectionContent]. destruct (Js.opt_eqb id (Some t)); [reflexivity|].
  by destruct (childrenTruthy children).
Qed.

Lemma nodeKey_cloneAndReplaceKey (element : RNode) (newKey : string) :
  isValidElement element = true ->
  nodeKey (cloneAndReplaceKey element newKey) = Some newKey.
Proof. by destruct element. Qed.

(** What [Children.map] makes of one child under the callback of
    [replaceSectionContent], which keeps the key of the child. *)
Lemma mapChild_replace (t : string) (c : RNode) (index : nat) (child : RNode) :
  mapChild (fun child => replaceSectionContent child t c) index child
  = match child with
    | RElement _ _ _ _ =>
        [cloneAndReplaceKey (replaceSectionContent child t c)
           ("." +:+ getElementKey child index)]
    | RText _ => [child]
    | REmpty => []
    end.
Proof.
  destruct child as [k id d children|s|]; [|reflexivity..].
  unfold mapChild.
  pose proof (replaceSectionContent_key (RElement k id d children) t c) as Hk.
  destruct (replaceSectionContent (RElement k id d children) t c)
    as [k' id' d' children'|s|] eqn:E.
  - cbn [nodeKey] in Hk. subst k'. rewrite opt_eqb_refl. cbn [negb].
    destruct k as [k|]; [|reflexivity]. by rewrite andb_false_r.
  - cbn [replaceSectionContent] in E.
    destruct (Js.opt_eqb id (Some t)); [discriminate|].
    by destruct (childrenTruthy children).
  - cbn [replaceSectionContent] in E.
    destruct (Js.opt_eqb id (Some t)); [discriminate|].
    by destruct (childrenTruthy children).
Qed.

Lemma existsb_mapIntoArray (h : RNode -> bool) (t : string) (c : RNode)
    (children : list RNode) (index : nat) :
  (forall e k, h (cloneAndReplaceKey e k) = h e) ->
  (forall e, isValidElement e = false -> h e = false) ->
  existsb h (mapIntoArray (fun child => replaceSectionContent child t c)
               index children)
  = existsb (fun child => h (replaceSectionContent child t c)) children.
Proof.
  intros Hclone Hother. revert index.
  induction children as [|x l IH]; intros index; [reflexivity|].
  cbn [mapIntoArray existsb]. rewrite existsb_app, IH, mapChild_replace.
  destruct x as [k id d kids|s|]; cbn [existsb replaceSectionContent].
  - by rewrite Hclone, orb_false_r.
  - by rewrite orb_false_r.
  - by rewrite (Hother REmpty eq_refl).
Qed.

Lemma hasElementId_replace (element : RNode) (t : string) (c : RNode) :
  hasElementId (replaceSectionContent element t c) t = hasElementId element t.
Proof.
  induction element as [k id d children IH|s|] using RNode_forall_ind;
    [|reflexivity..].
  cbn [replaceSectionContent]. destruct (Js.opt_eqb id (Some t)) eqn:Eid.
  - by rewrite !hasElementId_children, Eid.
  - destruct (childrenTruthy children); [|reflexivity].
    rewrite !hasElementId_children, Eid. cbn [orb]. unfold Children_map.
    rewrite (existsb_mapIntoArray (fun e => hasElementId e t)).
    + by apply existsb_ext.
    + intros e key. apply hasElementId_cloneAndReplaceKey.
    + by intros [].
Qed.

Lemma hasElementId_replace_other (element : RNode) (t u : string) (c : RNode) :
  hasElementId (replaceSectionContent element t c) u = true ->
  hasElementId element u = true \/ hasElementId c u = true.
Proof.
  induction element as [k id d children IH|s|] using RNode_forall_ind;
    [|by left..].
  cbn [replaceSectionContent]. destruct (Js.opt_eqb id (Some t)) eqn:Eid.
  - rewrite !hasElementId_children. cbn [existsb].
    rewrite orb_false_r, !orb_true_iff. tauto.
  - destruct (childrenTruthy children); [|by left].
    rewrite !hasElementId_children, !orb_true_iff. intros [Hid|Hch]; [by left; left|].
    unfold Children_map in Hch.
    rewrite (existsb_mapIntoArray (fun e => hasElementId e u)) in Hch;
      [|intros e key; apply hasElementId_cloneAndReplaceKey | by intros []].
    apply existsb_exists in Hch as (x & Hx & Hu).
    rewrite Forall_forall in IH.
    destruct (IH x (proj2 (list_elem_of_In _ _) Hx) Hu) as [Hxu|Hc]; [|by right].
    left. right. apply existsb_exists. by exists x.
Qed.

(** Without the target and without empty nodes, only keys change. *)
Lemma replace_absent (element : RNode) (t : string) (c : RNode) :
  hasElementId element t = false -> noEmptyNode element = true ->
  eraseKeys (replaceSectionContent element t c) = eraseKeys element.
Proof.
  induction element as [k id d children IH|s|] using RNode_forall_ind;
    [|reflexivity..].
  rewrite hasElementId_children. intros [Eid Hch]%orb_false_iff Hne.
  cbn [replaceSectionContent noEmptyNode] in *. rewrite Eid.
  destruct (childrenTruthy children); [|reflexivity].
  cbn [eraseKeys]. f_equal. unfold Children_map. generalize 0 as index.
  clear Eid.
  induction IH as [|x l Hx _ IHl]; intros index; [reflexivity|].
  cbn [existsb forallb] in *.
  apply orb_false_iff in Hch as [Hx1 Hl1]. apply andb_true_iff in Hne as [Hx2 Hl2].
  cbn [mapIntoArray]. rewrite mapChild_replace, List.map_app, (IHl Hl1 Hl2).
  destruct x as [xk xid xd kids|s|]; [|reflexivity|discriminate].
  cbn [List.map app]. by rewrite eraseKeys_cloneAndReplaceKey, (Hx Hx1 Hx2).
Qed.

Lemma replace_absent_same (element : RNode) (t : string) (c : RNode) :
  hasElementId element t = false -> noEmptyNode element = true ->
  sameButInnerKeys element (replaceSectionContent element t c).
Proof.
  intros Hno Hne. split; [apply replaceSectionContent_key | by apply replace_absent].
Qed.

(** The children that [Children.map] returns, place by place, when no
    child is an empty node. *)
Lemma mapIntoArray_lookup (t : string) (c : RNode) (children : list RNode)
    (index : nat) :
  Forall (fun child => isEmptyNode child = false) children ->
  length (mapIntoArray (fun child => replaceSectionContent child t c)
            index children) = length children
  /\ forall i child,
       children !! i = Some child -> isValidElement child = true ->
       exists child',
         mapIntoArray (fun child => replaceSectionContent child t c)
           index children !! i = Some child'
         /\ nodeKey child' = Some ("." +:+ getElementKey child (index + i)).
Proof.
  intros Hall. revert index.
  induction Hall as [|x l Hx _ IH]; intros index; [by split|].
  cbn [mapIntoArray]. rewrite mapChild_replace.
  destruct (IH (S index)) as [Hlen Hlook].
  destruct x as [k id d kids|s|]; [| |discriminate]; cbn [app length];
    (split; [by rewrite Hlen|]); intros [|i] child Hi Hv;
    cbn [lookup list_lookup] in *.
  - injection Hi as <-. eexists. split; [reflexivity|].
    rewrite Nat.add_0_r. apply nodeKey_cloneAndReplaceKey.
    by rewrite replaceSectionContent_valid.
  - destruct (Hlook i child Hi Hv) as (child' & Hc & Hk). exists child'.
    split; [exact Hc|]. rewrite Hk. do 3 f_equal. lia.
  - by injection Hi as <-.
  - destruct (Hlook i child Hi Hv) as (child' & Hc & Hk). exists child'.
    split; [exact Hc|]. rewrite Hk. do 3 f_equal. lia.
Qed.

Lemma mapIntoArray_length (t : string) (c : RNode) (children : list RNode)
    (index : nat) :
  length (mapIntoArray (fun child => replaceSectionContent child t c)
            index children) <= length children.
Proof.
  revert index. induction children as [|x l IH]; intros index; [reflexivity|].
  cbn [mapIntoArray]. rewrite mapChild_replace, length_app.
  specialize (IH (S index)). destruct x; simpl; lia.
Qed.

(** Children that come back as they were hold no element. *)
Lemma mapIntoArray_fixed (t : string) (c : RNode) (children : list RNode)
    (index : nat) :
  mapIntoArray (fun child => replaceSectionContent child t c) index children
  = children ->
  Forall (fun child => isValidElement child = false) children.
Proof.
  revert index. induction children as [|x l IH]; intros index; [constructor|].
  cbn [mapIntoArray]. rewrite mapChild_replace.
  destruct x as [k id d kids|s|]; cbn [app].
  - intros Heq. exfalso.
    apply (getElementKey_new (RElement k id d kids) index).
    remember (replaceSectionContent (RElement k id d kids) t c) as rx eqn:Erx.
    remember ("." +:+ getElementKey (RElement k id d kids) index) as newKey.
    injection Heq as Hx _. rewrite <- Hx at 1.
    apply nodeKey_cloneAndReplaceKey. by rewrite Erx, replaceSectionContent_valid.
  - intros [= Hl]. constructor; [reflexivity | by apply (IH (S index))].
  - intros Hl. exfalso. pose proof (mapIntoArray_length t c l (S index)) as Hlen.
    rewrite Hl in Hlen. simpl in Hlen. lia.
Qed.

(** X20. [replaceSectionContent].  The target id is found in the
    result exactly when it was found before; an id found in the result
    was in the element or is in the new content, so no id is made up;
    the key of the element itself is kept.  An element that does not
    hold the target and has no empty node comes back the same but for
    the keys of the elements inside it.  Those keys do change: an
    element whose own id is not the target and whose children count as
    true is rebuilt by [Children.map], which gives every element child
    a new key, a dot and the child's own key escaped or else its index
    in base 36; so such an element does not come back as it was once
    one of its children is an element.  In an element whose own id is
    the target, the children are replaced by the new content and
    nothing else changes. *)
Theorem replaceSectionContent_spec :
  forall (element : RNode) (targetId : string) (newContent : RNode),
    let result := replaceSectionContent element targetId newContent in
    hasElementId result targetId = hasElementId element targetId
    /\ (forall u, hasElementId result u = true ->
                  hasElementId element u = true \/ hasElementId newContent u = true)
    /\ nodeKey result = nodeKey element
    /\ (hasElementId element targetId = false -> noEmptyNode element = true ->
        sameButInnerKeys element result)
    /\ (forall key id d children,
          element = RElement key id d children ->
          id <> Some targetId -> childrenTruthy children = true ->
          exists children',
            result = RElement key id d children'
            /\ (Forall (fun child => isEmptyNode child = false) children ->
                length children' = length children
                /\ forall i child,
                     children !! i = Some child -> isValidElement child = true ->
                     exists child',
                       children' !! i = Some child'
                       /\ nodeKey child' = Some ("." +:+ getElementKey child i))
            /\ ((exists child, child ∈ children /\ isValidElement child = true) ->
                result <> element))
    /\ (forall key d children,
          element = RElement key (Some targetId) d children ->
          result = RElement key (Some targetId) d [newContent]).
Proof.
  intros element t c result. subst result.
  split; [apply hasElementId_replace|].
  split; [intros u; apply hasElementId_replace_other|].
  split; [apply replaceSectionContent_key|].
  split; [apply replace_absent_same|]. split.
  - intros key id d children -> Hid Htruthy.
    assert (Eid : Js.opt_eqb id (Some t) = false).
    { destruct (Js.opt_eqb id (Some t)) eqn:E; [|reflexivity].
      by apply opt_eqb_eq in E. }
    cbn [replaceSectionContent]. rewrite Eid, Htruthy. unfold Children_map.
    eexists. split; [reflexivity|]. split.
    + intros Hall. destruct (mapIntoArray_lookup t c children 0 Hall) as [Hlen Hlook].
      split; [exact Hlen|]. intros i child Hi Hv. apply (Hlook i child Hi Hv).
    + intros (child & Hin & Hv) [= Heq].
      apply mapIntoArray_fixed in Heq. rewrite Forall_forall in Heq.
      specialize (Heq child Hin). congruence.
  - intros key d children ->. cbn [replaceSectionContent Js.opt_eqb].
    by rewrite String.eqb_refl.
Qed.

Lemma replaceSectionContent_witness :
  let section :=
    RElement (Some "layout-1") None None
      [RElement None (Some "b0") None [RText "t"]; RText " ";
       RElement (Some "k:1") (Some "b1") None []] in
  replaceSectionContent section "b9" (RText "new")
  = RElement (Some "layout-1") None None
      [RElement (Some ".0") (Some "b0") None [RText "t"]; RText " ";
       RElement (Some ".$k=21") (Some "b1") None []]
  /\ replaceSectionContent section "b9" (RText "new") <> section.
Proof.
  intros section. split; [reflexivity|].
  destruct (replaceSectionContent_spec section "b9" (RText "new"))
    as (_ & _ & _ & _ & Hrebuilt & _).
  destruct (Hrebuilt (Some "layout-1") None None
              [RElement None (Some "b0") None [RText "t"]; RText " ";
               RElement (Some "k:1") (Some "b1") None []] eq_refl)
    as (children' & _ & _ & Hchanged); [discriminate | reflexivity |].
  apply Hchanged. exists (RElement None (Some "b0") None [RText "t"]).
  split; [apply list_elem_of_here | reflexivity].
Defined.

Lemma elem_of_firstn_skipn {A} (n : nat) (l : list A) (x : A) :
  x ∈ List.firstn n l \/ x ∈ List.skipn n l -> x ∈ l.
Proof. rewrite <- (List.firstn_skipn n l) at 3. rewrite elem_of_app. tauto. Qed.

(** *** The handlers of the lesson view *)

Section LessonProofs.
Context {num : Type} `{JsNumber num}.

Implicit Types (lesson : Lesson num) (ledger : list (PendingEdit num)).

Lemma getBlockId_nonempty (element : RNode) (i : string) :
  getBlockId element = Some i -> Js.str_truthy i = true.
Proof.
  rewrite getBlockId_first. intros [Hne _]%firstTruthy_elem. by destruct i.
Qed.

(** X21. Deleting a block.  The delete button of a block whose walk
    finds the block id i keeps exactly the sections that do not hold an
    element with the id i, in their order, and appends a delete entry
    for i to the ledger (delete entries are never merged).  The block
    itself is removed when i is the [id] of one of its elements, which
    is so whenever the block carries no [data-block-id]; when no
    section holds an element with the id i (the id was read off a
    [data-block-id]) the list of sections is unchanged and the entry is
    recorded all the same.  A block without a block id is not
    deleted. *)
Theorem handleDelete_removes_the_block :
  forall (w : Stamp) (block : SectionEl) lesson ledger,
    editing lesson = Some ledger ->
    (getBlockId (sectionRoot block) = None -> handleDelete w block lesson = lesson)
    /\ (forall i,
          getBlockId (sectionRoot block) = Some i ->
          let lesson' := handleDelete w block lesson in
          (forall s, s ∈ initialSections lesson' <->
                     s ∈ initialSections lesson
                     /\ hasElementId (sectionRoot s) i = false)
          /\ sublist (initialSections lesson') (initialSections lesson)
          /\ (hasElementId (sectionRoot block) i = true ->
              block ∉ initialSections lesson')
          /\ (noDataBlockId (sectionRoot block) = true ->
              block ∉ initialSections lesson')
          /\ ((forall s, s ∈ initialSections lesson ->
                         hasElementId (sectionRoot s) i = false) ->
              initialSections lesson' = initialSections lesson)
          /\ editing lesson'
             = Some (ledger
                     ++ [Structure (StructureEdit.mk (newId w) delete (Some i)
                                      None None None (updateTime w))])).
Proof.
  intros w block lesson ledger Hed. split.
  - intros Hnone. unfold handleDelete. by rewrite Hnone.
  - intros i Hi lesson'. subst lesson'. unfold handleDelete. rewrite Hi.
    rewrite (getBlockId_nonempty _ _ Hi). unfold handleDeleteSection.
    cbn [initialSections editing]. rewrite Hed. cbn [recordStructure].
    assert (Hmem : forall s,
               s ∈ List.filter
                     (fun section => negb (hasElementId (sectionRoot section) i))
                     (initialSections lesson)
               <-> s ∈ initialSections lesson
                   /\ hasElementId (sectionRoot s) i = false).
    { intros s. by rewrite elem_of_bool_filter, negb_true_iff. }
    assert (Hgone : hasElementId (sectionRoot block) i = true ->
                    block ∉ List.filter
                      (fun section => negb (hasElementId (sectionRoot section) i))
                      (initialSections lesson)).
    { intros Hhas [_ Hno]%Hmem. congruence. }
    split; [exact Hmem|]. split; [apply filter_sublist|].
    split; [exact Hgone|]. split; [|split].
    + intros Hnd. apply Hgone. rewrite (walks_agree _ Hnd) in Hi.
      by apply getSectionIdFromElement_has in Hi as [_ ?].
    + intros Hall. apply filter_every. intros s Hs. by rewrite (Hall s Hs).
    + reflexivity.
Qed.

Lemma addStructureEdit_fresh_add (w : Stamp) (sid : option string)
    (sids : Js.field (list string)) (c b : Js.field string) ledger :
  (forall s, Structure s ∈ ledger -> StructureEdit.action s = add ->
             StructureEdit.sectionId s <> sid) ->
  addStructureEdit w (StructureEdit.mkArg add (Js.Present sid) sids c b) ledger
  = ledger ++ [Structure (StructureEdit.mk (newId w) add sid (Js.read sids)
                            (Js.read c) (Js.read b) (updateTime w))].
Proof.
  intros Hno. pose proof (no_structure_add _ _ Hno) as Hs.
  unfold addStructureEdit. cbn [StructureEdit.a_action Action_eqb].
  cbn [StructureEdit.a_sectionId Js.read]. by rewrite Hs.
Qed.

Lemma addStructureEdit_merge_last (w : Stamp) (sid : option string)
    (sids : Js.field (list string)) (c b : Js.field string) ledger
    (existing : StructureEdit.t) :
  (forall s, Structure s ∈ ledger -> StructureEdit.action s = add ->
             StructureEdit.sectionId s <> sid) ->
  StructureEdit.action existing = add -> StructureEdit.sectionId existing = sid ->
  addStructureEdit w (StructureEdit.mkArg add (Js.Present sid) sids c b)
    (ledger ++ [Structure existing])
  = ledger ++ [Structure (mergeStructure existing
                            (StructureEdit.mkArg add (Js.Present sid) sids c b)
                            (updateTime w))].
Proof.
  intros Hno Ha Hsid. pose proof (no_structure_add _ _ Hno) as Hs.
  unfold addStructureEdit. cbn [StructureEdit.a_action Action_eqb].
  cbn [StructureEdit.a_sectionId Js.read]. rewrite findIndex_snoc, Hs.
  assert (Hk : isStructureAdd (num := num) sid (Structure existing) = true).
  { apply isStructureAdd_key. simpl. by rewrite Ha, Hsid. }
  rewrite Hk, lookup_snoc. apply insert_snoc.
Qed.

(** X22. A new block, then its content.  When some section holds the
    target, [handleAddSection] puts a new block right after the first
    such section, and [handleCommitSection] for the new block's id
    then puts the content element into that block.  If the new id is
    not yet the id of an element or of a pending add, and the sections
    have no empty nodes, the outcome is: the old sections in place,
    each the same but for the keys of the elements inside it (every
    section is rebuilt, and [Children.map] gives new keys); the new
    block after the section found, its Block under the key [.0] and
    holding the content element; and in the ledger one entry for the
    new block appended, a Structure add with the id of the first call,
    the committed content and block type, and the time of the second
    call.  When no section holds the target, [handleAddSection] changes
    nothing. *)
Theorem add_then_commit :
  forall (w1 w2 : Stamp) (now : N) (targetId content : string)
         (blockType : option SlashCommandType) lesson ledger,
    editing lesson = Some ledger ->
    let blockId := "block-" +:+ decimal now in
    (Js.findIndex (fun section => hasElementId (sectionRoot section) targetId)
       (initialSections lesson) = None ->
     handleAddSection w1 now targetId lesson = lesson)
    /\ (forall index,
          Js.findIndex (fun section => hasElementId (sectionRoot section) targetId)
            (initialSections lesson) = Some index ->
          (forall s, s ∈ initialSections lesson ->
                     hasElementId (sectionRoot s) blockId = false
                     /\ noEmptyNode (sectionRoot s) = true) ->
          (forall s, Structure s ∈ ledger -> StructureEdit.action s = add ->
                     StructureEdit.sectionId s <> Some blockId) ->
          exists before after : list SectionEl,
            handleCommitSection w2 blockId content blockType
              (handleAddSection w1 now targetId lesson)
            = {| initialSections :=
                   before
                   ++ [RElement (Some ("layout-" +:+ blockId)) None None
                         [RElement (Some ".0") (Some blockId) None
                            [contentElement content blockType]]]
                   ++ after;
                 editing :=
                   Some (ledger
                         ++ [Structure
                               (StructureEdit.mk (newId w1) add (Some blockId) None
                                  (Some content) (option_map typeName blockType)
                                  (updateTime w2))]) |}
            /\ Forall2 sameButInnerKeys
                 (List.firstn (index + 1) (initialSections lesson)) before
            /\ Forall2 sameButInnerKeys
                 (List.skipn (index + 1) (initialSections lesson)) after).
Proof.
  intros w1 w2 now targetId content blockType lesson ledger Hed blockId. split.
  - intros Hnone. unfold handleAddSection. by rewrite Hnone.
  - intros index Hidx Hfresh Hno.
    set (rebuilt := List.map
                      (fun section =>
                         replaceSectionContent section blockId
                           (contentElement content blockType))).
    assert (Hsame : forall l,
               (forall s, s ∈ l -> s ∈ initialSections lesson) ->
               Forall2 sameButInnerKeys l (rebuilt l)).
    { induction l as [|s l IH]; intros Hl; [constructor|].
      cbn [rebuilt List.map]. constructor.
      - destruct (Hfresh s (Hl s ltac:(constructor))) as [Hs1 Hs2].
        by apply replace_absent_same.
      - apply IH. intros x Hx. apply Hl. by constructor. }
    exists (rebuilt (List.firstn (index + 1) (initialSections lesson))),
           (rebuilt (List.skipn (index + 1) (initialSections lesson))).
    split; [|split].
    + unfold handleAddSection. rewrite Hidx. fold blockId.
      unfold handleCommitSection. cbn [initialSections editing]. rewrite Hed.
      cbn [recordStructure]. f_equal.
      * rewrite !List.map_app. fold rebuilt. do 2 f_equal.
        cbn [List.map newBlock replaceSectionContent Js.opt_eqb childrenTruthy].
        unfold Children_map. cbn [mapIntoArray]. rewrite mapChild_replace.
        cbn [replaceSectionContent Js.opt_eqb]. by rewrite String.eqb_refl.
      * f_equal. rewrite (addStructureEdit_fresh_add w1 _ _ _ _ _ Hno).
        rewrite (addStructureEdit_merge_last w2 _ _ _ _ _ _ Hno);
          reflexivity.
    + apply Hsame. intros s Hs. apply (elem_of_firstn_skipn (index + 1)). by left.
    + apply Hsame. intros s Hs. apply (elem_of_firstn_skipn (index + 1)). by right.
Qed.

(** X23. Reordering.  [handleReorder] takes the new list as it is and
    appends to the ledger one reorder entry (never merged) that lists
    one id per section, in the new order.  For a block made by
    [handleAddSection] the id listed is the block's id, read off its
    key, which is also the id that both tree walks find in it and the
    section id of its pending add; for a section without a key it is
    the first non-empty [id] in document order, or "unknown". *)
Theorem handleReorder_ids :
  forall (w : Stamp) (newSections : list SectionEl) lesson ledger,
    editing lesson = Some ledger ->
    handleReorder w newSections lesson
    = {| initialSections := newSections;
         editing :=
           Some (ledger
                 ++ [Structure (StructureEdit.mk (newId w) reorder None
                                  (Some (List.map reorderId newSections))
                                  None None (updateTime w))]) |}
    /\ (forall id : string,
          id <> EmptyString ->
          reorderId (newBlock id) = id
          /\ getSectionIdFromElement (sectionRoot (newBlock id)) = Some id
          /\ getBlockId (sectionRoot (newBlock id)) = Some id)
    /\ (forall s, sectionKey s = None ->
                  reorderId s
                  = match firstTruthy (elementIds (sectionRoot s)) with
                    | Some i => i
                    | None => "unknown"
                    end).
Proof.
  intros w newSections lesson ledger Hed. split; [|split].
  - unfold handleReorder. rewrite Hed. reflexivity.
  - intros id Hne. assert (Ht : Js.str_truthy id = true) by by destruct id.
    unfold newBlock, reorderId, sectionKey, sectionRoot. cbn [nodeKey].
    split; [reflexivity|].
    cbn [getSectionIdFromElement getBlockId Js.opt_truthy List.fold_left
         negb andb isValidElement]. by rewrite Ht.
  - intros s Hk. unfold reorderId. rewrite Hk, getSectionIdFromElement_first.
    destruct (firstTruthy_truthy (elementIds (sectionRoot s))) as [->|Ht];
      [reflexivity|].
    destruct (firstTruthy _) as [i|]; [|discriminate]. simpl in Ht. by rewrite Ht.
Qed.

End LessonProofs.

(** ** The provider and the parent window *)

Section ProviderProofs.
Context {num : Type}.

Implicit Types (p : Provider num) (msgs : list ParentMessage).

(** What every message keeps true. *)
Lemma handleMessage_step (msg : ParentMessage) p :
  let '(p', posted) := handleMessage msg p in
  isEditor p' = isEditor p /\ isStandalone p' = isStandalone p
  /\ (isEditing p' = true -> isEditing p = true \/ isEditor p || isStandalone p = true)
  /\ (EditingModeChanged true ∈ posted -> isEditor p || isStandalone p = true)
  /\ (providerEdits p' = providerEdits p \/ providerEdits p' = [])
  /\ (msg = ClearEdits -> providerEdits p' = [])
  /\ (forall edits n,
        EditsChanged edits n ∈ posted \/ EditsResponse edits n ∈ posted ->
        n = length edits).
Proof.
  unfold handleMessage, enableEditing, disableEditing, setIsEditing,
    editsChanged, clearAllEdits.
  destruct msg as [|[|]| | |];
    try destruct (isEditor p || isStandalone p) eqn:E;
    cbn [isEditor isStandalone isEditing providerEdits];
    repeat split; auto; try discriminate; intros;
    repeat match goal with
           | Hin : _ ∈ [] |- _ => by apply elem_of_nil in Hin
           | Hin : _ ∈ [_] |- _ => apply list_elem_of_singleton in Hin
           | Hor : _ \/ _ |- _ => destruct Hor
           end;
    try discriminate;
    match goal with
    | Heq : EditsChanged _ _ = EditsChanged _ _ |- _ => by injection Heq as -> ->
    | Heq : EditsResponse _ _ = EditsResponse _ _ |- _ => by injection Heq as -> ->
    end.
Qed.

(** X24. Messages from the parent.  Whatever messages arrive, in
    whatever order: the app mode is not changed; when the app is
    neither in editor mode nor the top window, editing mode cannot be
    switched on, and the provider never reports that it was; the
    ledger is either still the one at the start or empty, and it is
    empty once a clear-edits message was handled; and every list of
    edits posted to the parent goes with its own length as the
    count. *)
Theorem parent_messages :
  forall msgs p,
    let p' := fst (handleMessages msgs p) in
    let posted := snd (handleMessages msgs p) in
    isEditor p' = isEditor p /\ isStandalone p' = isStandalone p
    /\ (isEditor p || isStandalone p = false ->
        (isEditing p = false -> isEditing p' = false)
        /\ EditingModeChanged true ∉ posted)
    /\ (providerEdits p' = providerEdits p \/ providerEdits p' = [])
    /\ (ClearEdits ∈ msgs -> providerEdits p' = [])
    /\ (forall edits n,
          EditsChanged edits n ∈ posted \/ EditsResponse edits n ∈ posted ->
          n = length edits).
Proof.
  induction msgs as [|msg msgs IH]; intros p; cbn [handleMessages fst snd].
  - repeat split; auto; try (by intros ?%elem_of_nil).
    intros edits n [?%elem_of_nil|?%elem_of_nil]; done.
  - pose proof (handleMessage_step msg p) as Hstep.
    destruct (handleMessage msg p) as [p1 posted1].
    destruct Hstep as (He & Hs & Hon & Hpost & Hedits & Hclear & Hcount).
    specialize (IH p1). destruct (handleMessages msgs p1) as [p2 posted2].
    cbn [fst snd] in *.
    destruct IH as (He2 & Hs2 & Hoff2 & Hedits2 & Hclear2 & Hcount2).
    split; [congruence|]. split; [congruence|]. split; [|split; [|split]].
    + intros Hmode.
      assert (Hmode1 : isEditor p1 || isStandalone p1 = false) by by rewrite He, Hs.
      destruct (Hoff2 Hmode1) as [Hstay Hnone]. split.
      * intros Hoff. apply Hstay. destruct (isEditing p1) eqn:E; [|reflexivity].
        destruct (Hon eq_refl) as [?|?]; congruence.
      * intros [Hin|Hin]%elem_of_app; [|by apply Hnone].
        apply Hpost in Hin. congruence.
    + destruct Hedits2 as [-> | ->]; [exact Hedits | by right].
    + intros [<-|Hin]%elem_of_cons.
      * destruct Hedits2 as [-> | ->]; [by apply Hclear | reflexivity].
      * by apply Hclear2.
    + intros edits n [[Hin|Hin]%elem_of_app|[Hin|Hin]%elem_of_app];
        [apply Hcount | apply Hcount2 | apply Hcount | apply Hcount2]; auto.
Qed.

End ProviderProofs.

(** ** The lesson view on a concrete lesson *)

Lemma handleDelete_witness :
  let intro : SectionEl :=
    RElement (Some "layout-intro") None None
      [RElement None (Some "intro") None [RText "Hello"]] in
  let extra : SectionEl := RElement None (Some "extra") None [RText "More"] in
  let lesson : Lesson Z :=
    {| initialSections := [intro; extra]; editing := Some [] |} in
  handleDelete (Build_Stamp "edit-1" 100 101) intro lesson
  = {| initialSections := [extra];
       editing := Some [Structure (StructureEdit.mk "edit-1" delete (Some "intro")
                                     None None None 101)] |}.
Proof.
  intros intro extra lesson.
  destruct (@handleDelete_removes_the_block Z (Build_Stamp "edit-1" 100 101)
              intro lesson [] eq_refl) as [_ Hsome].
  destruct (Hsome "intro" eq_refl) as (_ & _ & _ & _ & _ & Hled).
  unfold handleDelete in *. cbn [getBlockId sectionRoot intro Js.opt_truthy
    Js.str_truthy] in *.
  unfold handleDeleteSection in *. cbn [initialSections editing] in *.
  by rewrite Hled.
Defined.

Lemma add_then_commit_witness :
  let intro : SectionEl :=
    RElement (Some "layout-intro") None None
      [RElement None (Some "intro") None [RText "Hello"]] in
  let lesson : Lesson Z := {| initialSections := [intro]; editing := Some [] |} in
  let committed :=
    handleCommitSection (Build_Stamp "edit-2" 200 201) "block-1700000000000"
      "Title" (Some h1)
      (handleAddSection (Build_Stamp "edit-1" 100 101) 1700000000000 "intro" lesson) in
  let ledger : list (PendingEdit Z) :=
    [Structure (StructureEdit.mk "edit-1" add (Some "block-1700000000000")
                  None (Some "Title") (Some "h1") 201)] in
  let block :=
    RElement (Some "layout-block-1700000000000") None None
      [RElement (Some ".0") (Some "block-1700000000000") None
         [RElement None None None [RText "Title"]]] in
  (exists before after : list SectionEl,
      committed
      = {| initialSections := before ++ [block] ++ after; editing := Some ledger |}
      /\ Forall2 sameButInnerKeys [intro] before
      /\ Forall2 sameButInnerKeys [] after)
  /\ committed
     = {| initialSections :=
            [RElement (Some "layout-intro") None None
               [RElement (Some ".0") (Some "intro") None [RText "Hello"]];
             block];
          editing := Some ledger |}.
Proof.
  intros intro lesson committed ledger block. split; [|reflexivity].
  apply (proj2 (@add_then_commit Z (Build_Stamp "edit-1" 100 101)
                  (Build_Stamp "edit-2" 200 201) 1700000000000%N "intro" "Title"
                  (Some h1) lesson [] eq_refl) 0).
  - reflexivity.
  - intros s Hs. apply list_elem_of_singleton in Hs. subst s. by split.
  - intros s Hs. by apply elem_of_nil in Hs.
Defined.

Lemma handleReorder_witness :
  let extra : SectionEl := RElement None (Some "extra") None [RText "More"] in
  let fresh := newBlock "block-1700000000000" in
  let lesson : Lesson Z :=
    {| initialSections := [fresh; extra]; editing := Some [] |} in
  handleReorder (Build_Stamp "edit-1" 100 101) [extra; fresh] lesson
  = {| initialSections := [extra; fresh];
       editing :=
         Some [Structure (StructureEdit.mk "edit-1" reorder None
                            (Some ["extra"; "block-1700000000000"]) None None 101)] |}.
Proof.
  intros extra fresh lesson.
  apply (proj1 (@handleReorder_ids Z (Build_Stamp "edit-1" 100 101)
                  [extra; fresh] lesson [] eq_refl)).
Defined.

(** ** Typing narrows the menu; the input handler twice *)

Lemma toLowerCase_app (a b : string) :
  Str.toLowerCase (a +:+ b) = Str.toLowerCase a +:+ Str.toLowerCase b.
Proof. induction a as [|c a IH]; simpl; [reflexivity | by rewrite IH]. Qed.

Lemma isSubstring_trans (a b c : string) :
  isSubstring a b -> isSubstring b c -> isSubstring a c.
Proof.
  intros (x & y & ->) (u & v & ->). exists (u +:+ x), (y +:+ v).
  by rewrite !append_assoc.
Qed.

Lemma isSubstring_lower (a b : string) :
  isSubstring a b -> isSubstring (Str.toLowerCase a) (Str.toLowerCase b).
Proof.
  intros (x & y & ->). exists (Str.toLowerCase x), (Str.toLowerCase y).
  by rewrite !toLowerCase_app.
Qed.

Lemma filter_sublist_impl {A} (p q : A -> bool) (l : list A) :
  (forall x, p x = true -> q x = true) ->
  sublist (List.filter p l) (List.filter q l).
Proof.
  intros Himp. induction l as [|x l IH]; simpl; [constructor|].
  destruct (p x) eqn:Hp.
  - rewrite (Himp x Hp). by constructor.
  - destruct (q x); [by constructor | exact IH].
Qed.

Lemma commandMatches_narrows (q q' : string) (cmd : SlashCommand.t) :
  isSubstring q q' ->
  commandMatches q' cmd = true -> commandMatches q cmd = true.
Proof.
  intros Hsub%isSubstring_lower. unfold commandMatches.
  rewrite !orb_true_iff, !includes_spec, !existsb_exists.
  intros [[Hl|Hd]|(kw & Hkw & Hi)].
  - left. left. by apply (isSubstring_trans _ _ _ Hsub).
  - left. right. by apply (isSubstring_trans _ _ _ Hsub).
  - right. exists kw. split; [exact Hkw|].
    apply includes_spec. apply includes_spec in Hi.
    by apply (isSubstring_trans _ _ _ Hsub).
Qed.

(** X25. Typing narrows the menu: when the query q occurs in the
    query q' (so when q' is q with more typed after it), the commands
    listed for q' are among the commands listed for q, in the same
    order; the list never grows by typing on. *)
Theorem filteredCommands_narrows :
  forall q q' : string,
    isSubstring q q' ->
    sublist (filteredCommands q') (filteredCommands q)
    /\ length (filteredCommands q') <= length (filteredCommands q).
Proof.
  intros q q' Hsub.
  assert (Hs : sublist (filteredCommands q') (filteredCommands q)).
  { apply filter_sublist_impl. intros cmd. by apply commandMatches_narrows. }
  split; [exact Hs | by apply sublist_length].
Qed.

Lemma filteredCommands_narrows_witness :
  sublist (filteredCommands "head") (filteredCommands "h").
Proof.
  apply (filteredCommands_narrows "h" "head").
  exists EmptyString, "ead". reflexivity.
Defined.

(** X26. The input handler run twice.  [handleInput] run again on the
    state it left changes nothing more; and the menu state it leaves
    (shown or not, query, offset) depends on the text of the element
    alone, not on the state before. *)
Theorem handleInput_idempotent :
  (forall s : SectionInput, handleInput (handleInput s) = handleInput s)
  /\ (forall s1 s2 : SectionInput,
        option_map innerText (contentRef s1) = option_map innerText (contentRef s2) ->
        showSlashMenu (handleInput s1) = showSlashMenu (handleInput s2)
        /\ slashQuery (handleInput s1) = slashQuery (handleInput s2)
        /\ slashPosition (handleInput s1) = slashPosition (handleInput s2)).
Proof.
  split.
  - intros s. unfold handleInput at 2.
    destruct (contentRef s) as [el|] eqn:Hel.
    + destruct (negb (Js.str_truthy (stripTrailingNewlines (innerText el)))) eqn:Ht.
      * destruct (selectedBlockType s) eqn:Hsel;
          unfold handleInput, closeMenu;
          cbn [contentRef innerText selectedBlockType placeholder];
          rewrite ?Hel; cbn [innerText]; rewrite Ht; cbn [selectedBlockType];
          rewrite ?Hsel; reflexivity.
      * set (text := stripTrailingNewlines (innerText el)) in *.
        destruct (negb (Str.lastIndexOf text slash =? -1)%Z) eqn:Hi;
          [destruct (negb (Str.includes (Str.substring text
                             (Str.lastIndexOf text slash + 1))
                             (String space EmptyString))) eqn:Hq|];
          unfold handleInput, closeMenu;
          cbn [contentRef innerText selectedBlockType placeholder];
          rewrite Hel; fold text; rewrite Ht, Hi, ?Hq; reflexivity.
    + cbn [Js.str_truthy stripTrailingNewlines negb].
      destruct (selectedBlockType s) eqn:Hsel;
        unfold handleInput, closeMenu;
        cbn [contentRef selectedBlockType placeholder]; rewrite ?Hel;
        cbn [Js.str_truthy stripTrailingNewlines negb selectedBlockType];
        rewrite ?Hsel; reflexivity.
  - intros s1 s2 Htext. unfold handleInput.
    assert (Hsame : match contentRef s1 with
                    | Some el => innerText el
                    | None => EmptyString
                    end
                    = match contentRef s2 with
                      | Some el => innerText el
                      | None => EmptyString
                      end).
    { destruct (contentRef s1), (contentRef s2); simpl in Htext; congruence. }
    rewrite Hsame.
    destruct (negb (Js.str_truthy _)).
    + destruct (selectedBlockType s1), (selectedBlockType s2); by repeat split.
    + destruct (negb (_ =? _)%Z); [|by repeat split].
      destruct (negb (Str.includes _ _)); by repeat split.
Qed.


(** ** What the widget shows after a save *)

Section WidgetAfterSave.
Context {num : Type} `{JsNumber num} `{JsLiterals num}.

(** X27. What the widget shows after a save.  The modal is open for
    the widget, whose key has no edit in the ledger, and a valid state
    is saved.  If the saved props differ in JSON form from the props
    the modal was opened on, the editable widget then reads the saved
    numbers as its effective default, min, max and step, and the saved
    name as its effective name; but when the name was left empty the
    widget falls back to the name it was given as a prop, so a name
    cannot be taken away by the editor.  If the saved props do not
    differ, nothing is pending and the widget reads its own props. *)
Theorem widget_after_save :
  forall (w : Stamp) (wd : WidgetProps num) (m : ModalState num)
         (sid path : string) (p : ScrubbleNumberProps num) (st : Editing num)
         (isEditing canEdit : bool),
    editingScrubbleNumber st
    = Some {| focusProps := p; focusSectionId := sid; focusElementPath := path |} ->
    snd (validate m) = true ->
    (forall n, ScrubbleNumber n ∈ pendingEdits st ->
               ~ (ScrubbleNumberEdit.sectionId n = sid
                  /\ ScrubbleNumberEdit.elementPath n = path)) ->
    isEditing || canEdit = true ->
    let saved : ScrubbleNumberProps num :=
      [ (varName, if Js.str_truthy (m_varName m)
                  then VString (m_varName m) else VUndefined);
        (defaultValue, VNumber (m_defaultValue m));
        (min, VNumber (m_min m));
        (max, VNumber (m_max m));
        (step, VNumber (m_step m)) ] in
    let shown :=
      effectiveProps wd
        (pendingEdit isEditing canEdit (Some (sid, path))
           (pendingEdits (snd (saveAttempt w m st)))) in
    (JSON.stringify saved <> JSON.stringify p ->
     shown
     = [ (varName, if Js.str_truthy (m_varName m)
                   then VString (m_varName m)
                   else match own_varName wd with
                        | Some s => VString s
                        | None => VUndefined
                        end);
         (defaultValue, VNumber (m_defaultValue m));
         (min, VNumber (m_min m));
         (max, VNumber (m_max m));
         (step, VNumber (m_step m)) ])
    /\ (JSON.stringify saved = JSON.stringify p ->
        shown = effectiveProps wd None).
Proof.
  intros w wd m sid path p st isEditing canEdit Hfocus Hval Hnn Hmode saved shown.
  assert (Hguard : negb isEditing && negb canEdit = false)
    by (destruct isEditing, canEdit; simpl in *; congruence).
  pose proof (scrubble_absent sid path _ Hnn) as Habs.
  assert (Hst : pendingEdits (snd (saveAttempt w m st))
                = match saveScrubbleNumberEdit_call saved st with
                  | Some edit => addScrubbleNumberEdit w edit (pendingEdits st)
                  | None => pendingEdits st
                  end).
  { unfold saveAttempt, handleSave. rewrite (validate_true _ Hval).
    cbn [negb snd]. fold saved. unfold saveScrubbleNumberEdit. by rewrite Hfocus. }
  subst shown. rewrite Hst. unfold saveScrubbleNumberEdit_call. rewrite Hfocus.
  cbn [focusProps focusSectionId focusElementPath]. split.
  - intros Hne. apply String.eqb_neq in Hne. rewrite Hne. cbn [negb].
    rewrite (addScrubbleNumberEdit_fresh w sid path p saved _ Habs).
    unfold pendingEdit. rewrite Hguard, rev_unit. cbn [List.find isScrubbleFor
      ScrubbleNumberEdit.sectionId ScrubbleNumberEdit.elementPath].
    rewrite !String.eqb_refl. cbn [andb].
    unfold effectiveProps, effective. cbn [ScrubbleNumberEdit.newProps].
    unfold saved. cbn [getProp ScrubbleKey_eqb nullish].
    by destruct (Js.str_truthy (m_varName m)).
  - intros Heq. apply String.eqb_eq in Heq. rewrite Heq. cbn [negb].
    unfold pendingEdit. rewrite Hguard.
    rewrite find_rev_none; [reflexivity|].
    intros x Hx. destruct (isScrubbleFor sid path x) eqn:E; [|reflexivity].
    apply findIndex_None with (x := x) in Habs; [congruence | exact Hx].
Qed.

End WidgetAfterSave.

Lemma widget_after_save_witness :
  let wd : WidgetProps Z :=
    {| own_varName := Some "count"; own_defaultValue := 10%Z;
       own_min := 0%Z; own_max := 100%Z; own_step := 1%Z |} in
  let m : ModalState Z :=
    {| m_varName := EmptyString; m_defaultValue := 12%Z; m_min := 0%Z;
       m_max := 100%Z; m_step := 1%Z; m_error := None |} in
  let st : Editing Z :=
    handleEditClick wd None "block-7" "scrubble-block-7-count"
      {| pendingEdits := []; editingScrubbleNumber := None |} in
  effectiveProps wd
    (pendingEdit true true (Some ("block-7", "scrubble-block-7-count"))
       (pendingEdits (snd (saveAttempt (Build_Stamp "edit-1" 100 101) m st))))
  = [ (varName, VString "count"); (defaultValue, VNumber 12%Z);
      (min, VNumber 0%Z); (max, VNumber 100%Z); (step, VNumber 1%Z) ].
Proof.
  intros wd m st.
  destruct (@widget_after_save Z _ (Build_Stamp "edit-1" 100 101) wd m
              "block-7" "scrubble-block-7-count" (effectiveProps wd None) st
              true true) as [Hshown _].
  - reflexivity.
  - reflexivity.
  - intros n Hn. by apply elem_of_nil in Hn.
  - reflexivity.
  - apply Hshown. vm_compute. discriminate.
Defined.

(** ** Sessions of an editable text *)

Section EditSessionProofs.
Context {num : Type} `{JsNumber num}.

Implicit Types (prev : list (PendingEdit num)).

Lemma text_absent (sid path : string) prev :
  (forall t, Text t ∈ prev ->
             ~ (TextEdit.sectionId t = sid /\ TextEdit.elementPath t = path)) ->
  Js.findIndex (isTextFor sid path) prev = None.
Proof.
  intros Hnt. apply (findIndex_absent _ textKey (sid, path)).
  - intros e. apply isTextFor_key.
  - intros e He Hk. destruct e as [t| | |]; simpl in Hk; try discriminate.
    injection Hk as Hs' Hp'. by apply (Hnt t He).
Qed.

Lemma addTextEdit_fresh (w : Stamp) (edit : TextEdit.arg) prev :
  Js.findIndex (isStructureAdd (Some (TextEdit.a_sectionId edit))) prev = None ->
  Js.findIndex (isTextFor (TextEdit.a_sectionId edit) (TextEdit.a_elementPath edit))
    prev = None ->
  addTextEdit w edit prev
  = prev ++ [Text (TextEdit.mk (newId w) (TextEdit.a_sectionId edit)
                     (TextEdit.a_elementPath edit) (TextEdit.a_originalText edit)
                     (TextEdit.a_originalHtml edit) (TextEdit.a_newText edit)
                     (TextEdit.a_newHtml edit) (callTime w))].
Proof. intros Hs Ht. unfold addTextEdit. by rewrite Hs, Ht. Qed.

Lemma addTextEdit_on_last (w : Stamp) (edit : TextEdit.arg) prev (t : TextEdit.t) :
  Js.findIndex (isStructureAdd (Some (TextEdit.a_sectionId edit))) prev = None ->
  Js.findIndex (isTextFor (TextEdit.a_sectionId edit) (TextEdit.a_elementPath edit))
    prev = None ->
  TextEdit.sectionId t = TextEdit.a_sectionId edit ->
  TextEdit.elementPath t = TextEdit.a_elementPath edit ->
  addTextEdit w edit (prev ++ [Text t])
  = if isReverted edit t then prev
    else prev ++ [Text (retext t (TextEdit.a_newText edit) (TextEdit.a_newHtml edit)
                          (updateTime w))].
Proof.
  intros Hs Ht Hsid Hpath. unfold addTextEdit.
  rewrite !findIndex_snoc, Hs, Ht. cbn [isStructureAdd isTextFor].
  rewrite Hsid, Hpath, !String.eqb_refl. cbn [andb]. rewrite lookup_snoc.
  destruct (isReverted edit t); [apply delete_snoc | apply insert_snoc].
Qed.

Lemma append_inj_l (a x y : string) : a +:+ x = a +:+ y -> x = y.
Proof.
  induction a as [|c a IH]; [done|]. cbn [String.append]. intros [= Heq]. by apply IH.
Qed.

(** The markup of the element while it is edited is never its markup
    while it is not. *)
Lemma outerHTML_editing (p : EditableText.Props) (a b : EditableText.Content) :
  EditableText.outerHTML p true a <> EditableText.outerHTML p false b.
Proof.
  unfold EditableText.outerHTML. intros Heq.
  do 4 apply append_inj_l in Heq. discriminate Heq.
Qed.

Lemma outerHTML_truthy (p : EditableText.Props) (editing : bool)
    (el : EditableText.Content) :
  Js.str_truthy (EditableText.outerHTML p editing el) = true.
Proof. reflexivity. Qed.

(** X28. Sessions on one editable text.  In editor mode the element
    carries [contenteditable] as [true] and [data-editing] only while
    it is edited, so the outer HTML read at a blur is never the outer
    HTML read at a click.  Hence, on a ledger with no pending add of the
    section and no text edit for the element, every session of click
    and blur records a text edit, with the text and the outer HTML read
    at the click as originals; it does so when nothing was typed, and
    the edit then has a new text equal to its original text.  And a
    later session never takes the edit back, whatever the text is then,
    the original text too: the edit stays, with its id and originals,
    and takes the text and the outer HTML read at the later blur. *)
Theorem editable_text_sessions :
  forall (p : EditableText.Props) (w1 w2 : Stamp) (sid path : string)
         (c1 c2 c3 c4 : EditableText.Content) (s : EditableText.t) prev,
    (forall st, Structure st ∈ prev -> StructureEdit.action st = add ->
                StructureEdit.sectionId st <> Some sid) ->
    (forall t, Text t ∈ prev ->
               ~ (TextEdit.sectionId t = sid /\ TextEdit.elementPath t = path)) ->
    EditableText.isContentEditable s = false ->
    let A := EditableText.innerText c1 in
    let hA := EditableText.outerHTML p false c1 in
    let first := editSession w1 p sid path c1 c2 (s, prev) in
    let second := editSession w2 p sid path c3 c4 first in
    (forall a b, EditableText.outerHTML p true a <> EditableText.outerHTML p false b)
    /\ snd first
       = prev ++ [Text (TextEdit.mk (newId w1) sid path A (Some hA)
                          (EditableText.innerText c2)
                          (Some (EditableText.outerHTML p true c2)) (callTime w1))]
    /\ snd (editSession w1 p sid path c1 c1 (s, prev))
       = prev ++ [Text (TextEdit.mk (newId w1) sid path A (Some hA) A
                          (Some (EditableText.outerHTML p true c1)) (callTime w1))]
    /\ snd second
       = prev ++ [Text (TextEdit.mk (newId w1) sid path A (Some hA)
                          (EditableText.innerText c4)
                          (Some (EditableText.outerHTML p true c4)) (updateTime w2))].
Proof.
  intros p w1 w2 sid path c1 c2 c3 c4 s prev Hno Hnt Hs A hA first second.
  pose proof (no_structure_add _ _ Hno) as Hsa.
  pose proof (text_absent _ _ _ Hnt) as Hta.
  assert (Hsession : forall w c,
            editSession w p sid path c1 c (s, prev)
            = ({| EditableText.isContentEditable := false;
                  EditableText.originalTextRef := A;
                  EditableText.originalHtmlRef := hA |},
               prev ++ [Text (TextEdit.mk (newId w) sid path A (Some hA)
                                (EditableText.innerText c)
                                (Some (EditableText.outerHTML p true c))
                                (callTime w))])).
  { intros w c.
    unfold editSession, EditableText.handleClick, EditableText.handleBlur.
    rewrite Hs. cbn [negb EditableText.isContentEditable
      EditableText.originalTextRef EditableText.originalHtmlRef].
    assert (Hne : String.eqb (EditableText.outerHTML p true c)
                    (EditableText.outerHTML p false c1) = false).
    { apply String.eqb_neq, outerHTML_editing. }
    rewrite Hne, orb_true_r. f_equal. by apply addTextEdit_fresh. }
  split; [apply outerHTML_editing|].
  split; [unfold first; by rewrite Hsession|].
  split; [by rewrite Hsession|].
  unfold second, first. rewrite Hsession.
  unfold editSession, EditableText.handleClick, EditableText.handleBlur.
  cbn [negb EditableText.isContentEditable EditableText.originalTextRef
    EditableText.originalHtmlRef snd].
  assert (Hne : String.eqb (EditableText.outerHTML p true c4)
                  (EditableText.outerHTML p false c3) = false).
  { apply String.eqb_neq, outerHTML_editing. }
  rewrite Hne, orb_true_r. rewrite addTextEdit_on_last by done.
  assert (Hrev : isReverted
                   (TextEdit.mkArg sid path (EditableText.innerText c3)
                      (Some (EditableText.outerHTML p false c3))
                      (EditableText.innerText c4)
                      (Some (EditableText.outerHTML p true c4)))
                   (TextEdit.mk (newId w1) sid path A (Some hA)
                      (EditableText.innerText c2)
                      (Some (EditableText.outerHTML p true c2)) (callTime w1))
                 = false).
  { unfold isReverted.
    cbn [TextEdit.a_newText TextEdit.originalText TextEdit.a_newHtml
         TextEdit.originalHtml Js.opt_truthy Js.opt_eqb].
    rewrite !outerHTML_truthy. cbn [negb orb].
    assert (Hd : String.eqb (EditableText.outerHTML p true c4) hA = false).
    { apply String.eqb_neq, outerHTML_editing. }
    by rewrite Hd, andb_false_r. }
  by rewrite Hrev.
Qed.

End EditSessionProofs.

Lemma editable_text_witness :
  let p := {| EditableText.Component := "p"; EditableText.id := None;
              EditableText.className := "cursor-text" |} in
  let content text :=
    {| EditableText.innerText := text; EditableText.innerHTML := text |} in
  let prev : list (PendingEdit Z) := [] in
  let first :=
    editSession (Build_Stamp "edit-1" 100 101) p "block-7" "p[0]"
      (content "A") (content "B") (EditableText.initial, prev) in
  snd (editSession (Build_Stamp "edit-2" 200 201) p "block-7" "p[0]"
         (content "B") (content "A") first)
  = [Text (TextEdit.mk "edit-1" "block-7" "p[0]" "A"
             (Some (EditableText.outerHTML p false (content "A"))) "A"
             (Some (EditableText.outerHTML p true (content "A"))) 201)].
Proof.
  intros p content prev first.
  destruct (@editable_text_sessions Z p (Build_Stamp "edit-1" 100 101)
              (Build_Stamp "edit-2" 200 201) "block-7" "p[0]"
              (content "A") (content "B") (content "B") (content "A")
              EditableText.initial prev) as (_ & _ & _ & Hsecond).
  - intros st Hst. by apply elem_of_nil in Hst.
  - intros t Ht. by apply elem_of_nil in Ht.
  - reflexivity.
  - exact Hsecond.
Defined.

(** ** The equation modal cannot take an edit back by the LaTeX alone *)

Section EquationNoRevert.
Context {num : Type}.

(** X29. No way back through the equation modal.  On a ledger with
    no equation edit for the section and either LaTeX, saving a changed
    LaTeX L' for an equation opened on L records one edit.  Saving L
    again afterwards with no colour map does not remove that edit,
    whichever LaTeX the editor is reopened on: reopened on the original
    L, nothing is called and the ledger stays; reopened on L', a second
    edit, from L' to L, is appended after the first. *)
Theorem equation_modal_no_revert :
  forall (w1 w2 : Stamp) (sid path L L' : string)
         (cm cm0 : option (list (string * string))) (st : EquationEditing num),
    L' <> L ->
    (forall q, EquationE q ∈ eqPendingEdits st ->
               EquationEdit.sectionId q = sid ->
               EquationEdit.originalLatex q <> L /\ EquationEdit.originalLatex q <> L') ->
    let e1 := EquationE (EquationEdit.mk (newId w1) sid Equation L L' cm (callTime w1)) in
    let st1 := saveEquationEdit w1 L' None (openEquationEditor L cm sid path st) in
    eqPendingEdits st1 = eqPendingEdits st ++ [e1]
    /\ saveEquationEdit w2 L None (openEquationEditor L cm0 sid path st1)
       = closeEquationEditor st1
    /\ eqPendingEdits
         (saveEquationEdit w2 L None (openEquationEditor L' cm0 sid path st1))
       = eqPendingEdits st
         ++ [e1; EquationE (EquationEdit.mk (newId w2) sid Equation L' L cm0
                              (callTime w2))].
Proof.
  intros w1 w2 sid path L L' cm cm0 st Hne Hnone e1 st1.
  assert (HL : Js.findIndex (isEquationFor sid L) (eqPendingEdits st) = None).
  { apply equation_absent. intros q Hq [Hs Hl]. by destruct (Hnone q Hq Hs). }
  assert (HL' : Js.findIndex (isEquationFor sid L') (eqPendingEdits st) = None).
  { apply equation_absent. intros q Hq [Hs Hl]. by destruct (Hnone q Hq Hs). }
  assert (E1 : String.eqb L' L = false) by by apply String.eqb_neq.
  assert (E2 : String.eqb L L' = false) by (apply String.eqb_neq; congruence).
  assert (Hst1 : st1 = {| eqPendingEdits := eqPendingEdits st ++ [e1];
                          editingEquation := None |}).
  { unfold st1, saveEquationEdit, openEquationEditor.
    cbn [editingEquation eqPendingEdits eqLatex eqColorMap eqSectionId].
    rewrite E1. cbn [negb orb]. f_equal. unfold addEquationEdit.
    cbn [EquationEdit.a_sectionId EquationEdit.a_originalLatex]. by rewrite HL. }
  split; [by rewrite Hst1|]. split.
  - unfold saveEquationEdit, openEquationEditor, closeEquationEditor.
    cbn [editingEquation eqPendingEdits eqLatex eqColorMap colorMapChanged].
    by rewrite String.eqb_refl.
  - rewrite Hst1. unfold saveEquationEdit, openEquationEditor.
    cbn [editingEquation eqPendingEdits eqLatex eqColorMap eqSectionId
         colorMapChanged].
    rewrite E2. cbn [negb orb]. unfold addEquationEdit.
    cbn [EquationEdit.a_sectionId EquationEdit.a_originalLatex].
    rewrite findIndex_snoc, HL'. unfold e1.
    cbn [isEquationFor EquationEdit.sectionId EquationEdit.originalLatex].
    rewrite E2, andb_false_r. by rewrite <- app_assoc.
Qed.

End EquationNoRevert.

Lemma equation_modal_witness :
  let st : EquationEditing Z := {| eqPendingEdits := []; editingEquation := None |} in
  let st1 :=
    saveEquationEdit (Build_Stamp "edit-1" 100 101) "x^3" None
      (openEquationEditor "x^2" None "block-7" "eq[0]" st) in
  eqPendingEdits
    (saveEquationEdit (Build_Stamp "edit-2" 200 201) "x^2" None
       (openEquationEditor "x^3" None "block-7" "eq[0]" st1))
  = [EquationE (EquationEdit.mk "edit-1" "block-7" Equation "x^2" "x^3" None 100);
     EquationE (EquationEdit.mk "edit-2" "block-7" Equation "x^3" "x^2" None 200)].
Proof.
  intros st st1.
  destruct (@equation_modal_no_revert Z (Build_Stamp "edit-1" 100 101)
              (Build_Stamp "edit-2" 200 201) "block-7" "eq[0]" "x^2" "x^3"
              None None st) as (_ & _ & Htwo).
  - discriminate.
  - intros q Hq. by apply elem_of_nil in Hq.
  - exact Htwo.
Defined.
